(** * efibootctl: the reflective pretty-printer, embedded and verified

    The development follows the Go sources of the [printer] package
    ([color.go], [printer.go], [sort.go]) and the [BootIndex] type of the
    command.  Go strings are byte strings ([string] over [ascii]); machine
    integers are [Z]; the process memory the printer walks is an explicit
    store; a panic is an explicit outcome. *)

From Stdlib Require Import ZArith String Ascii List Bool Lia Sorting.Sorted.
From Stdlib Require Import Floats.SpecFloat FunctionalExtensionality.
From stdpp Require Import gmap.

Set Warnings "-register-all".

Open Scope string_scope.
Open Scope Z_scope.

(* ===================================================================== *)
(** * Outcomes of a call *)
(* ===================================================================== *)

(** A Go call returns, panics, or (in the model only) needs more fuel than
    it was given. *)
Inductive Res (A : Type) : Type :=
| Ok (a : A)
| Panic (msg : string)
| OutOfFuel.
Arguments Ok {A} a.
Arguments Panic {A} msg.
Arguments OutOfFuel {A}.

Definition res_bind {A B} (r : Res A) (k : A -> Res B) : Res B :=
  match r with
  | Ok a => k a
  | Panic m => Panic m
  | OutOfFuel => OutOfFuel
  end.

(* ===================================================================== *)
(** * Bytes and text *)
(* ===================================================================== *)

Module Text.

Definition code (c : ascii) : Z := Z.of_N (N_of_ascii c).
Definition byte (z : Z) : ascii := ascii_of_N (Z.to_N z).

Definition TAB : ascii := "009"%char.
Definition LF : ascii := "010"%char.
Definition VT : ascii := "011"%char.
Definition FF : ascii := "012"%char.
Definition ESC : ascii := "027"%char.
Definition BACKSLASH : ascii := "\"%char.
Definition QUOTE : ascii := "034"%char.

Definition str (c : ascii) : string := String c EmptyString.
Definition slen (s : string) : Z := Z.of_nat (String.length s).

(** [strings.Repeat] for a count that is not negative. *)
Fixpoint Repeat (s : string) (n : nat) : string :=
  match n with
  | O => ""
  | S k => s ++ Repeat s k
  end.

Fixpoint concat (l : list string) : string :=
  match l with
  | [] => ""
  | s :: r => s ++ concat r
  end.

(** [strings.IndexByte]. *)
Fixpoint IndexByte (s : string) (c : ascii) : option nat :=
  match s with
  | EmptyString => None
  | String d r =>
      if Ascii.eqb d c then Some O
      else match IndexByte r c with
           | Some i => Some (S i)
           | None => None
           end
  end.

Fixpoint take (n : nat) (s : string) : string :=
  match n, s with
  | S k, String c r => String c (take k r)
  | _, _ => ""
  end.

Fixpoint drop (n : nat) (s : string) : string :=
  match n, s with
  | S k, String _ r => drop k r
  | _, _ => s
  end.

(** The slice expression [s[lo:hi]], which panics out of range. *)
Definition slice (s : string) (lo hi : nat) : option string :=
  if (lo <=? hi)%nat && (hi <=? String.length s)%nat
  then Some (take (hi - lo) (drop lo s))
  else None.

(** The index expression [s[i]]. *)
Definition index (s : string) (i : nat) : option ascii := String.get i s.

(** [strings.Split(s, sep)] for a one-byte separator. *)
Fixpoint Split (s : string) (sep : ascii) : list string :=
  match s with
  | EmptyString => [""]
  | String c r =>
      if Ascii.eqb c sep then "" :: Split r sep
      else match Split r sep with
           | p :: ps => String c p :: ps
           | [] => [str c]
           end
  end.

Definition lower_digit (d : Z) : ascii :=
  if d <? 10 then byte (48 + d) else byte (87 + d).
Definition upper_digit (d : Z) : ascii :=
  if d <? 10 then byte (48 + d) else byte (55 + d).

(** The digit loop of [fmt]'s integer formatting: least significant digit
    first, written in front of what is there. *)
Fixpoint digits_loop (fuel : nat) (digit : Z -> ascii) (base n : Z)
         (acc : string) : string :=
  match fuel with
  | O => acc
  | S f =>
      let acc' := String (digit (n mod base)) acc in
      if n / base =? 0 then acc' else digits_loop f digit base (n / base) acc'
  end.

Definition digits (digit : Z -> ascii) (base n : Z) : string :=
  digits_loop (S (Z.to_nat (Z.log2 n))) digit base n "".

Definition pad_left (c : ascii) (width : nat) (s : string) : string :=
  Repeat (str c) (width - String.length s) ++ s.

(** [%d] of an unsigned and of a signed integer. *)
Definition fmt_d_uint (n : Z) : string := digits lower_digit 10 n.
Definition fmt_d_int (n : Z) : string :=
  if n <? 0 then "-" ++ digits lower_digit 10 (- n) else digits lower_digit 10 n.
(** [%0wd] of an integer: the sign comes before the padding. *)
Definition fmt_0d (w : nat) (n : Z) : string :=
  if n <? 0 then "-" ++ pad_left "0" (w - 1) (digits lower_digit 10 (- n))
  else pad_left "0" w (digits lower_digit 10 n).
(** [%x] and [%0wx], [%0wX] of an unsigned integer. *)
Definition fmt_x (n : Z) : string := digits lower_digit 16 n.
Definition fmt_0x (w : nat) (n : Z) : string := pad_left "0" w (fmt_x n).
Definition fmt_0X (w : nat) (n : Z) : string :=
  pad_left "0" w (digits upper_digit 16 n).

(** Grouping of a digit string by thousands, as the English locale of
    [golang.org/x/text/message] prints integers. *)
Fixpoint group3 (s : string) : string :=
  match s with
  | EmptyString => ""
  | String c r =>
      let k := String.length r in
      String c (if (0 <? k)%nat && (Nat.eqb (k mod 3) 0) then "," ++ group3 r
                else group3 r)
  end.

Definition localized_d_uint (n : Z) : string := group3 (fmt_d_uint n).
Definition localized_d_int (n : Z) : string :=
  if n <? 0 then "-" ++ group3 (fmt_d_uint (- n)) else group3 (fmt_d_uint n).

(** [%f] of a float64: the exact value rounded to six fractional digits,
    ties to even. *)
Definition fmt_f (x : spec_float) : string :=
  match x with
  | S754_nan => "NaN"
  | S754_infinity s => if s then "-Inf" else "+Inf"
  | S754_zero s => (if s then "-" else "") ++ "0.000000"
  | S754_finite s m e =>
      let num := Zpos m * 1000000 in
      let q :=
        if 0 <=? e then num * 2 ^ e
        else
          let d := 2 ^ (- e) in
          let q0 := num / d in
          let r := num mod d in
          if 2 * r <? d then q0
          else if d <? 2 * r then q0 + 1
          else if Z.even q0 then q0 else q0 + 1 in
      (if s then "-" else "") ++ fmt_d_uint (q / 1000000) ++ "."
        ++ pad_left "0" 6 (fmt_d_uint (q mod 1000000))
  end.

(** Bytes that text/tabwriter treats specially when no flag is set. *)
Definition tw_special (c : ascii) : bool :=
  Ascii.eqb c TAB || Ascii.eqb c VT || Ascii.eqb c LF || Ascii.eqb c FF
  || Ascii.eqb c "255"%char.

Fixpoint plain (s : string) : bool :=
  match s with
  | EmptyString => true
  | String c r => negb (tw_special c) && plain r
  end.

End Text.

(* ===================================================================== *)
(** * unicode/utf8 *)
(* ===================================================================== *)

Module utf8.

Definition RuneError : Z := 65533.

(** The table [first] with [acceptRanges]: for a leading byte of a
    multi-byte sequence, its size and the range of its second byte. *)
Definition first (c : Z) : option (nat * Z * Z) :=
  if (194 <=? c) && (c <=? 223) then Some (2%nat, 128, 191)
  else if c =? 224 then Some (3%nat, 160, 191)
  else if (225 <=? c) && (c <=? 236) then Some (3%nat, 128, 191)
  else if c =? 237 then Some (3%nat, 128, 159)
  else if (238 <=? c) && (c <=? 239) then Some (3%nat, 128, 191)
  else if c =? 240 then Some (4%nat, 144, 191)
  else if (241 <=? c) && (c <=? 243) then Some (4%nat, 128, 191)
  else if c =? 244 then Some (4%nat, 128, 143)
  else None.

Definition cont (c : Z) : bool := (128 <=? c) && (c <=? 191).

(** [DecodeRuneInString] on a string that is not empty: the rune and the
    number of bytes it takes. *)
Definition DecodeRune (s : string) : Z * nat :=
  match s with
  | EmptyString => (RuneError, O)
  | String c0 r0 =>
      let s0 := Text.code c0 in
      if s0 <? 128 then (s0, 1%nat)
      else
        match first s0 with
        | None => (RuneError, 1%nat)
        | Some (sz, lo, hi) =>
            if (String.length s <? sz)%nat then (RuneError, 1%nat)
            else
              match r0 with
              | EmptyString => (RuneError, 1%nat)
              | String c1 r1 =>
                  let s1 := Text.code c1 in
                  if (s1 <? lo) || (hi <? s1) then (RuneError, 1%nat)
                  else if (sz <=? 2)%nat
                  then (Z.lor (Z.shiftl (Z.land s0 31) 6) (Z.land s1 63), 2%nat)
                  else
                    match r1 with
                    | EmptyString => (RuneError, 1%nat)
                    | String c2 r2 =>
                        let s2 := Text.code c2 in
                        if negb (cont s2) then (RuneError, 1%nat)
                        else if (sz <=? 3)%nat
                        then (Z.lor (Z.lor (Z.shiftl (Z.land s0 15) 12)
                                           (Z.shiftl (Z.land s1 63) 6))
                                    (Z.land s2 63), 3%nat)
                        else
                          match r2 with
                          | EmptyString => (RuneError, 1%nat)
                          | String c3 _ =>
                              let s3 := Text.code c3 in
                              if negb (cont s3) then (RuneError, 1%nat)
                              else (Z.lor (Z.lor (Z.lor
                                      (Z.shiftl (Z.land s0 7) 18)
                                      (Z.shiftl (Z.land s1 63) 12))
                                      (Z.shiftl (Z.land s2 63) 6))
                                      (Z.land s3 63), 4%nat)
                          end
                    end
              end
        end
  end.

(** [RuneCount]: one rune per decoding step. *)
Fixpoint RuneCount_loop (fuel : nat) (s : string) : Z :=
  match fuel with
  | O => 0
  | S f =>
      match s with
      | EmptyString => 0
      | _ => 1 + RuneCount_loop f (Text.drop (snd (DecodeRune s)) s)
      end
  end.

Definition RuneCount (s : string) : Z := RuneCount_loop (String.length s) s.

End utf8.

(* ===================================================================== *)
(** * text/tabwriter *)
(* ===================================================================== *)

(** The column aligner every printer writes through, as [NewPrinter]
    initialises it: [Init(buffer, 4, 0, 1, ' ', 0)], so cells are padded
    with spaces to at least four columns and no flag is set.  A cell keeps
    its text instead of a size into a shared byte buffer. *)
Module tabwriter.

Definition minwidth : Z := 4.
Definition padding : Z := 1.

Record cell := Cell {
  text : string;   (* the bytes of the cell *)
  width : Z;       (* cell width in runes *)
  htab : bool      (* the cell is terminated by a tab *)
}.

Record Writer := MkWriter {
  buf : string;            (* text of the incomplete cell *)
  pend : string;           (* its part whose width is not counted yet *)
  cwidth : Z;              (* width of the incomplete cell so far *)
  endChar : bool;          (* inside an escaped sequence *)
  lines : list (list cell);(* the complete lines *)
  line : list cell         (* the cells of the last line *)
}.

Definition reset : Writer := MkWriter "" "" 0 false [] [].

Definition append (c : ascii) (b : Writer) : Writer :=
  MkWriter (buf b ++ Text.str c) (pend b ++ Text.str c) (cwidth b)
           (endChar b) (lines b) (line b).

Definition updateWidth (b : Writer) : Writer :=
  MkWriter (buf b) "" (cwidth b + utf8.RuneCount (pend b)) (endChar b)
           (lines b) (line b).

Definition startEscape (b : Writer) : Writer :=
  MkWriter (buf b) (pend b) (cwidth b) true (lines b) (line b).

Definition endEscape (b : Writer) : Writer :=
  let b := updateWidth b in
  MkWriter (buf b) "" (cwidth b - 2) false (lines b) (line b).

(** Ends the current cell; the number of cells in the line comes back. *)
Definition terminateCell (ht : bool) (b : Writer) : Writer * nat :=
  let l := (line b ++ [Cell (buf b) (cwidth b) ht])%list in
  (MkWriter "" "" 0 (endChar b) (lines b) l, List.length l).

Definition addLine (b : Writer) : Writer :=
  MkWriter (buf b) (pend b) (cwidth b) (endChar b)
           (lines b ++ [line b])%list [].

Definition writePadding (textw cellw : Z) : string :=
  Text.Repeat " " (Z.to_nat (cellw - textw)).

Fixpoint writeCells (widths : list Z) (j : nat) (cs : list cell) : string :=
  match cs with
  | [] => ""
  | c :: r =>
      (match nth_error widths j with
       | Some w => text c ++ writePadding (width c) w
       | None => text c
       end) ++ writeCells widths (S j) r
  end.

(** One line of [writeLines]; every line but the last buffered one ends
    in a newline. *)
Definition writeLine (widths : list Z) (l : bool * list cell) : string :=
  writeCells widths O (snd l) ++ (if fst l then "" else Text.str Text.LF).

Definition inColumn (column : nat) (l : bool * list cell) : bool :=
  (S column <? List.length (snd l))%nat.

Definition blockWidth (column : nat) (block : list (bool * list cell)) : Z :=
  fold_left (fun w l =>
               match nth_error (snd l) column with
               | Some c => Z.max w (width c + padding)
               | None => w
               end) block minwidth.

(** [format]: lines that have a cell in the current column form a block,
    whose width is fixed before the columns to its right are formatted;
    the lines in between are written as they are. *)
Fixpoint format (fuel : nat) (widths : list Z)
         (ls : list (bool * list cell)) : string :=
  match fuel with
  | O => ""
  | S f =>
      let column := List.length widths in
      let flush block :=
        match block with
        | [] => ""
        | _ => format f (widths ++ [blockWidth column block])%list block
        end in
      (fix scan (block ls : list (bool * list cell)) : string :=
         match ls with
         | [] => flush block
         | l :: r =>
             if inColumn column l then scan (block ++ [l])%list r
             else flush block ++ writeLine widths l ++ scan [] r
         end) [] ls
  end.

Fixpoint markLast (ls : list (list cell)) : list (bool * list cell) :=
  match ls with
  | [] => []
  | [l] => [(true, l)]
  | l :: r => (false, l) :: markLast r
  end.

Definition maxCells (ls : list (list cell)) : nat :=
  fold_left (fun m l => Nat.max m (List.length l)) ls O.

(** [flushNoDefers]: the text that reaches the output, and the writer
    after its [reset]. *)
Definition flush (b : Writer) : string * Writer :=
  let b :=
    if (0 <? String.length (buf b))%nat
    then fst (terminateCell false (if endChar b then endEscape b else b))
    else b in
  let ls := (lines b ++ [line b])%list in
  (format (S (maxCells ls)) [] (markLast ls), reset).

(** [Write] of one byte: the text flushed to the output by it, and the
    writer after it. *)
Definition writeByte (ch : ascii) (b : Writer) : string * Writer :=
  if endChar b then
    if Ascii.eqb ch "255"%char then ("", endEscape (append ch b))
    else ("", append ch b)
  else if Ascii.eqb ch Text.TAB || Ascii.eqb ch Text.VT
          || Ascii.eqb ch Text.LF || Ascii.eqb ch Text.FF then
    let '(b, ncells) := terminateCell (Ascii.eqb ch Text.TAB) (updateWidth b) in
    if Ascii.eqb ch Text.LF || Ascii.eqb ch Text.FF then
      let b := addLine b in
      if Ascii.eqb ch Text.FF || Nat.eqb ncells 1 then flush b else ("", b)
    else ("", b)
  else if Ascii.eqb ch "255"%char then
    ("", startEscape (append ch (updateWidth b)))
  else ("", append ch b).

Fixpoint Write (s : string) (b : Writer) : string * Writer :=
  match s with
  | EmptyString => ("", b)
  | String ch r =>
      let '(o1, b1) := writeByte ch b in
      let '(o2, b2) := Write r b1 in
      (o1 ++ o2, b2)
  end.

End tabwriter.

(* ===================================================================== *)
(** * color.go *)
(* ===================================================================== *)

Definition NoColor : Z := Z.shiftl 1 15.

Definition Black : Z := Z.lor 1 NoColor.
Definition Red : Z := Z.lor 2 NoColor.
Definition Green : Z := Z.lor 3 NoColor.
Definition Yellow : Z := Z.lor 4 NoColor.
Definition Blue : Z := Z.lor 5 NoColor.
Definition Magenta : Z := Z.lor 6 NoColor.
Definition Cyan : Z := Z.lor 7 NoColor.
Definition White : Z := Z.lor 8 NoColor.
Definition bitsForeground : Z := 0.
Definition maskForeground : Z := 15.
Definition ansiForegroundOffset : Z := 30 - 1.

Definition bitsBackground : Z := 4.
Definition maskBackground : Z := Z.shiftl 15 bitsBackground.
Definition ansiBackgroundOffset : Z := 40 - 1.

Definition bitsBold : Z := 8.
Definition Bold : Z := Z.lor (Z.shiftl 1 bitsBold) NoColor.
Definition maskBold : Z := Z.shiftl 1 bitsBold.

Inductive ColorField :=
| BoolColor | IntegerColor | FloatColor | StringColor | StringQuotationColor
| EscapedCharColor | FieldNameColor | PointerAdressColor | NilColor
| TimeColor | StructNameColor | ObjectLengthColor.

Record ColorScheme := MkColorScheme {
  cs_Bool : Z;
  cs_Integer : Z;
  cs_Float : Z;
  cs_String : Z;
  cs_StringQuotation : Z;
  cs_EscapedChar : Z;
  cs_FieldName : Z;
  cs_PointerAdress : Z;
  cs_Nil : Z;
  cs_Time : Z;
  cs_StructName : Z;
  cs_ObjectLength : Z
}.

Definition DefaultScheme : ColorScheme := {|
  cs_Bool := Z.lor Cyan Bold;
  cs_Integer := Z.lor Blue Bold;
  cs_Float := Z.lor Magenta Bold;
  cs_String := Red;
  cs_StringQuotation := Z.lor Red Bold;
  cs_EscapedChar := Z.lor Magenta Bold;
  cs_FieldName := Yellow;
  cs_PointerAdress := Z.lor Blue Bold;
  cs_Nil := Z.lor Cyan Bold;
  cs_Time := Z.lor Blue Bold;
  cs_StructName := Green;
  cs_ObjectLength := Blue
|}.

(** [ColorScheme.Get]; a [ColorField] outside the twelve constants, on
    which the Go method panics, is not a value of the type here. *)
Definition ColorScheme_Get (s : ColorScheme) (field : ColorField) : Z :=
  match field with
  | BoolColor => cs_Bool s
  | IntegerColor => cs_Integer s
  | FloatColor => cs_Float s
  | StringColor => cs_String s
  | StringQuotationColor => cs_StringQuotation s
  | EscapedCharColor => cs_EscapedChar s
  | FieldNameColor => cs_FieldName s
  | PointerAdressColor => cs_PointerAdress s
  | NilColor => cs_Nil s
  | TimeColor => cs_Time s
  | StructNameColor => cs_StructName s
  | ObjectLengthColor => cs_ObjectLength s
  end.

Definition ansi (n : Z) : string :=
  Text.str Text.ESC ++ "[" ++ Text.fmt_d_uint n ++ "m".

Definition ColorizeText (text : string) (color : Z) : string :=
  let foreground := Z.shiftr (Z.land color maskForeground) bitsForeground in
  let background := Z.shiftr (Z.land color maskBackground) bitsBackground in
  let bold := Z.land color maskBold in
  if (foreground =? 0) && (background =? 0) && (bold =? 0) then text
  else
    let modBold := if 0 <? bold then ansi 1 else "" in
    let modForeground :=
      if 0 <? foreground then ansi (foreground + ansiForegroundOffset) else "" in
    let modBackground :=
      if 0 <? background then ansi (background + ansiBackgroundOffset) else "" in
    modForeground ++ modBackground ++ modBold ++ text ++ ansi 0.

(* ===================================================================== *)
(** * reflect: Go values as the printer sees them *)
(* ===================================================================== *)

Module reflect.

Inductive Kind :=
| Invalid | Bool
| Int | Int8 | Int16 | Int32 | Int64
| Uint | Uint8 | Uint16 | Uint32 | Uint64 | Uintptr
| Float32 | Float64 | Complex64 | Complex128
| Array | Chan | Func | Interface | Map | Ptr | Slice | String | Struct
| UnsafePointer.

Inductive IntKind := KInt | KInt8 | KInt16 | KInt32 | KInt64.
Inductive UintKind := KUint | KUint8 | KUint16 | KUint32 | KUint64 | KUintptr.
Inductive FloatKind := KFloat32 | KFloat64.
Inductive ComplexKind := KComplex64 | KComplex128.

(** What the printer reads of a type besides its kind: [Type().String()]
    and [Type().PkgPath()]. *)
Record Named := MkNamed { tString : string; tPkgPath : string }.

(** [reflect.StructField], with the value of the tag's [pp] key. *)
Record StructField := MkField {
  fName : string;
  fPkgPath : string;   (* empty for an exported field *)
  fAnonymous : bool;   (* an embedded field *)
  fTag : string        (* Tag.Get("pp") *)
}.

(** A Go value.  Maps, slices and pointers refer to the store by address;
    arrays, structs and interface values hold their parts. *)
Inductive val :=
| VInvalid
| VBool (t : Named) (b : bool)
| VInt (t : Named) (k : IntKind) (n : Z)
| VUint (t : Named) (k : UintKind) (n : Z)
| VFloat (t : Named) (k : FloatKind) (x : spec_float)
| VComplex (t : Named) (k : ComplexKind) (re im : spec_float)
| VString (t : Named) (s : string)
| VArray (t : Named) (elem : Kind) (es : list val)
| VSlice (t : Named) (elem : Kind) (ptr : Z) (len : nat)
| VMap (t : Named) (ptr : Z)
| VStruct (t : Named) (fs : list (StructField * val))
| VPtr (t : Named) (ptr : Z)
| VInterface (t : Named) (e : val)
| VChan (t : Named) (ptr : Z)
| VFunc (t : Named) (ptr : Z)
| VUnsafePointer (t : Named) (ptr : Z).

(** A [reflect.Value]: a Go value and the two flags that record that it
    was reached through an unexported field, embedded or not. *)
Record Value := MkValue {
  flagStickyRO : bool;
  flagEmbedRO : bool;
  it : val
}.

Definition flagRO (v : Value) : bool := flagStickyRO v || flagEmbedRO v.

(** A value that inherits [flag.ro()] of the one it was read from. *)
Definition derived (ro : bool) (x : val) : Value := MkValue ro false x.

Definition zero : Value := MkValue false false VInvalid.

Definition ValueOf (x : val) : Value := MkValue false false x.

(** The memory behind the addresses: the entries of each map in the order
    [MapKeys] returns them, the elements from each slice's data pointer
    on, and the referent of each pointer. *)
Record Store := MkStore {
  maps : gmap Z (list (val * val));
  arrays : gmap Z (list val);
  cells : gmap Z val
}.

Definition kind_of_int (k : IntKind) : Kind :=
  match k with
  | KInt => Int | KInt8 => Int8 | KInt16 => Int16 | KInt32 => Int32
  | KInt64 => Int64
  end.
Definition kind_of_uint (k : UintKind) : Kind :=
  match k with
  | KUint => Uint | KUint8 => Uint8 | KUint16 => Uint16 | KUint32 => Uint32
  | KUint64 => Uint64 | KUintptr => Uintptr
  end.
Definition kind_of_float (k : FloatKind) : Kind :=
  match k with KFloat32 => Float32 | KFloat64 => Float64 end.
Definition kind_of_complex (k : ComplexKind) : Kind :=
  match k with KComplex64 => Complex64 | KComplex128 => Complex128 end.

Definition kind (x : val) : Kind :=
  match x with
  | VInvalid => Invalid
  | VBool _ _ => Bool
  | VInt _ k _ => kind_of_int k
  | VUint _ k _ => kind_of_uint k
  | VFloat _ k _ => kind_of_float k
  | VComplex _ k _ _ => kind_of_complex k
  | VString _ _ => String
  | VArray _ _ _ => Array
  | VSlice _ _ _ _ => Slice
  | VMap _ _ => Map
  | VStruct _ _ => Struct
  | VPtr _ _ => Ptr
  | VInterface _ _ => Interface
  | VChan _ _ => Chan
  | VFunc _ _ => Func
  | VUnsafePointer _ _ => UnsafePointer
  end.

Definition named (x : val) : option Named :=
  match x with
  | VInvalid => None
  | VBool t _ | VInt t _ _ | VUint t _ _ | VFloat t _ _ | VComplex t _ _ _
  | VString t _ | VArray t _ _ | VSlice t _ _ _ | VMap t _ | VStruct t _
  | VPtr t _ | VInterface t _ | VChan t _ | VFunc t _
  | VUnsafePointer t _ => Some t
  end.

(** The identity of a type, as far as values show it: kind, name, package,
    element kind, array length and declared fields. *)
Record Type_ := MkType {
  ty_kind : Kind;
  ty_named : Named;
  ty_elem : Kind;
  ty_len : nat;
  ty_fields : list StructField
}.

Definition typeOf (x : val) : option Type_ :=
  match x with
  | VInvalid => None
  | VArray t e es => Some (MkType Array t e (List.length es) [])
  | VSlice t e _ _ => Some (MkType Slice t e O [])
  | VStruct t fs => Some (MkType Struct t Invalid O (List.map fst fs))
  | _ =>
      match named x with
      | Some t => Some (MkType (kind x) t Invalid O [])
      | None => None
      end
  end.

#[global] Instance Kind_eq_dec : EqDecision Kind.
Proof. solve_decision. Defined.
#[global] Instance Named_eq_dec : EqDecision Named.
Proof. solve_decision. Defined.
#[global] Instance StructField_eq_dec : EqDecision StructField.
Proof. solve_decision. Defined.
#[global] Instance Type_eq_dec : EqDecision Type_.
Proof. solve_decision. Defined.

Definition Kind_ (v : Value) : Kind := kind (it v).
Definition IsValid (v : Value) : bool :=
  match it v with VInvalid => false | _ => true end.

(** [Type().String()]; [Type] panics on the zero Value. *)
Definition Type_String (v : Value) : Res string :=
  match named (it v) with
  | Some t => Ok (tString t)
  | None => Panic "reflect: call of reflect.Value.Type on zero Value"
  end.

Definition Type_PkgPath (v : Value) : Res string :=
  match named (it v) with
  | Some t => Ok (tPkgPath t)
  | None => Panic "reflect: call of reflect.Value.Type on zero Value"
  end.

Definition fault {A} : Res A :=
  Panic "invalid memory address or nil pointer dereference".

Definition CanInterface (v : Value) : Res bool :=
  match it v with
  | VInvalid => Panic "reflect: call of reflect.Value.CanInterface on zero Value"
  | _ => Ok (negb (flagRO v))
  end.

(** [Interface]: the value as an [interface{}], which for a value of
    interface kind is the value it holds. *)
Definition Interface_ (v : Value) : Res val :=
  match it v with
  | VInvalid => Panic "reflect: call of reflect.Value.Interface on zero Value"
  | x =>
      if flagRO v
      then Panic "reflect.Value.Interface: cannot return value obtained from unexported field or method"
      else Ok (match x with VInterface _ e => e | _ => x end)
  end.

Definition Pointer (v : Value) : Res Z :=
  match it v with
  | VSlice _ _ p _ | VMap _ p | VPtr _ p | VChan _ p | VFunc _ p
  | VUnsafePointer _ p => Ok p
  | _ => Panic "reflect: call of reflect.Value.Pointer on a value without address"
  end.

Definition IsNil (v : Value) : Res bool :=
  match it v with
  | VSlice _ _ p _ | VMap _ p | VPtr _ p | VChan _ p | VFunc _ p
  | VUnsafePointer _ p => Ok (p =? 0)
  | VInterface _ e => Ok (match e with VInvalid => true | _ => false end)
  | _ => Panic "reflect: call of reflect.Value.IsNil on a value that cannot be nil"
  end.

Section WithStore.
Variable h : Store.

(** The entries of a map; a nil map has none. *)
Definition entries (p : Z) : Res (list (val * val)) :=
  if p =? 0 then Ok []
  else match maps h !! p with
       | Some es => Ok es
       | None => fault
       end.

(** The elements a slice header shows. *)
Definition elements (p : Z) (n : nat) : Res (list val) :=
  if Nat.eqb n 0 then Ok []
  else match arrays h !! p with
       | Some es =>
           if (n <=? List.length es)%nat then Ok (firstn n es) else fault
       | None => fault
       end.

Definition Len (v : Value) : Res nat :=
  match it v with
  | VArray _ _ es => Ok (List.length es)
  | VSlice _ _ _ n => Ok n
  | VString _ s => Ok (String.length s)
  | VMap _ p => res_bind (entries p) (fun es => Ok (List.length es))
  | _ => Panic "reflect: call of reflect.Value.Len on a value without length"
  end.

Definition NumField (v : Value) : Res nat :=
  match it v with
  | VStruct _ fs => Ok (List.length fs)
  | _ => Panic "reflect: call of reflect.Value.NumField on a value that is no struct"
  end.

(** All elements of an array or slice, as [Index(0)], [Index(1)], ...
    return them. *)
Definition Indexes (v : Value) : Res (list Value) :=
  match it v with
  | VArray _ _ es => Ok (List.map (derived (flagRO v)) es)
  | VSlice _ _ p n =>
      res_bind (elements p n) (fun es => Ok (List.map (derived (flagRO v)) es))
  | _ => Panic "reflect: call of reflect.Value.Index on a value without elements"
  end.

(** [Elem] of an interface or a pointer; the zero Value when nil. *)
Definition Elem (v : Value) : Res Value :=
  match it v with
  | VInterface _ e =>
      Ok (match e with VInvalid => zero | _ => derived (flagRO v) e end)
  | VPtr _ p =>
      if p =? 0 then Ok zero
      else match cells h !! p with
           | Some x => Ok (MkValue (flagStickyRO v) (flagEmbedRO v) x)
           | None => fault
           end
  | _ => Panic "reflect: call of reflect.Value.Elem on a value without referent"
  end.

(** [Field(i)]: the sticky flag is inherited, the embedded one is not;
    an unexported field sets the one or the other. *)
Definition Field (v : Value) (fx : StructField * val) : Value :=
  let unexported := negb (String.eqb (fPkgPath (fst fx)) "") in
  MkValue (flagStickyRO v || (unexported && negb (fAnonymous (fst fx))))
          (unexported && fAnonymous (fst fx))
          (snd fx).

(** The fields of a struct with their values, as [Type().Field(i)] and
    [Field(i)] return them. *)
Definition Fields (v : Value) : Res (list (StructField * Value)) :=
  match it v with
  | VStruct _ fs =>
      Ok (List.map (fun fx : StructField * val => (fst fx, Field v fx)) fs)
  | _ => Panic "reflect: call of reflect.Value.NumField on a value that is no struct"
  end.

End WithStore.

(** Go's [==] on the values that can be map keys. *)
Fixpoint go_eq (a b : val) {struct a} : bool :=
  match a, b with
  | VBool _ x, VBool _ y => Bool.eqb x y
  | VInt _ _ x, VInt _ _ y => x =? y
  | VUint _ _ x, VUint _ _ y => x =? y
  | VFloat _ _ x, VFloat _ _ y => SFeqb x y
  | VComplex _ _ r1 i1, VComplex _ _ r2 i2 => SFeqb r1 r2 && SFeqb i1 i2
  | VString _ x, VString _ y => String.eqb x y
  | VPtr _ x, VPtr _ y => x =? y
  | VChan _ x, VChan _ y => x =? y
  | VUnsafePointer _ x, VUnsafePointer _ y => x =? y
  | VInterface _ x, VInterface _ y =>
      match x, y with
      | VInvalid, VInvalid => true
      | VInvalid, _ | _, VInvalid => false
      | _, _ => bool_decide (typeOf x = typeOf y) && go_eq x y
      end
  | VArray _ _ xs, VArray _ _ ys =>
      (fix all2 (xs ys : list val) : bool :=
         match xs, ys with
         | [], [] => true
         | x :: xs', y :: ys' => go_eq x y && all2 xs' ys'
         | _, _ => false
         end) xs ys
  | VStruct _ xs, VStruct _ ys =>
      (fix all2 (xs : list (StructField * val)) (ys : list (StructField * val)) : bool :=
         match xs, ys with
         | [], [] => true
         | x :: xs', y :: ys' => go_eq (snd x) (snd y) && all2 xs' ys'
         | _, _ => false
         end) xs ys
  | _, _ => false
  end.

Section WithStore2.
Variable h : Store.

(** [MapKeys]: the keys in the order of the iteration.  A key is never
    the zero Value. *)
Definition MapKeys (v : Value) : Res (list Value) :=
  match it v with
  | VMap _ p =>
      res_bind (entries h p) (fun es =>
        if forallb (fun e : val * val =>
                      match fst e with VInvalid => false | _ => true end) es
        then Ok (List.map (fun e : val * val => derived (flagRO v) (fst e)) es)
        else fault)
  | _ => Panic "reflect: call of reflect.Value.MapKeys on a value that is no map"
  end.

(** [MapIndex]: the value stored under a key equal to the given one, the
    zero Value if there is none. *)
Definition MapIndex (v : Value) (key : Value) : Res Value :=
  match it v with
  | VMap _ p =>
      res_bind (entries h p) (fun es =>
        match List.find (fun e : val * val => go_eq (fst e) (it key)) es with
        | Some e => Ok (derived (flagRO v || flagRO key) (snd e))
        | None => Ok zero
        end)
  | _ => Panic "reflect: call of reflect.Value.MapIndex on a value that is no map"
  end.

End WithStore2.

End reflect.

(* ===================================================================== *)
(** * sort.go *)
(* ===================================================================== *)

(** [sort.Stable] of the standard library.  Up to twenty elements it runs
    [insertionSort], transcribed here; longer inputs it sorts in blocks of
    twenty that it merges in place, which for a [less] that is a strict weak
    order computes the same list, the stable sort being unique then. *)
Module sort.
Section Stable.
Context {A : Type}.
Variable less : A -> A -> bool.

(** The inner loop of [insertionSort]: the new element moves towards the
    front while it is less than its predecessor.  The sorted part comes
    reversed, its last element first. *)
Fixpoint sink (x : A) (before : list A) : list A :=
  match before with
  | [] => [x]
  | y :: r => if less x y then y :: sink x r else x :: y :: r
  end.

Definition insertionSort (l : list A) : list A :=
  rev (fold_left (fun before x => sink x before) l []).

Definition Stable (l : list A) : list A := insertionSort l.
End Stable.
End sort.

(** [sortedMap.Less] on two keys. *)
Definition Less (a b : reflect.Value) : bool :=
  if bool_decide (reflect.typeOf (reflect.it a) <> reflect.typeOf (reflect.it b))
  then false (* give up *)
  else
    match reflect.it a, reflect.it b with
    | reflect.VInt _ _ x, reflect.VInt _ _ y => x <? y
    | reflect.VUint _ _ x, reflect.VUint _ _ y => x <? y
    | reflect.VString _ x, reflect.VString _ y => String.ltb x y
    | reflect.VFloat _ _ x, reflect.VFloat _ _ y =>
        if negb (SFeqb x x) || negb (SFeqb y y) then false (* NaN *)
        else SFltb x y
    | reflect.VBool _ x, reflect.VBool _ y => negb x && y
    | reflect.VPtr _ x, reflect.VPtr _ y => x <? y
    | reflect.VStruct _ fa, reflect.VStruct _ fb =>
        (List.length fa <? List.length fb)%nat
    | reflect.VArray _ _ ea, reflect.VArray _ _ eb =>
        (List.length ea <? List.length eb)%nat
    | _, _ => false (* not supported yet *)
    end.

(** A [sortedMap]: keys and values move together, so it is a list of
    pairs. *)
Definition sortedMap := list (reflect.Value * reflect.Value).

Definition sortedMap_Less (x y : reflect.Value * reflect.Value) : bool :=
  Less (fst x) (fst y).

Fixpoint collect (h : reflect.Store) (value : reflect.Value)
         (mapKeys : list reflect.Value) : Res sortedMap :=
  match mapKeys with
  | [] => Ok []
  | k :: r =>
      res_bind (reflect.MapIndex h value k) (fun v =>
      res_bind (collect h value r) (fun kvs => Ok ((k, v) :: kvs)))
  end.

Definition sortMap (h : reflect.Store) (value : reflect.Value) : Res sortedMap :=
  match reflect.Kind_ value with
  | reflect.Map =>
      res_bind (reflect.MapKeys h value) (fun mapKeys =>
      res_bind (collect h value mapKeys) (fun kvs =>
      Ok (sort.Stable sortedMap_Less kvs)))
  | _ => Panic "sortMap is used for a non-Map value"
  end.

(* ===================================================================== *)
(** * strconv.Quote *)
(* ===================================================================== *)

Module strconv.
Section Quote.
(** [unicode.IsPrint] beyond ASCII, a table of the standard library. *)
Variable IsPrint_table : Z -> bool.

Definition IsPrint (r : Z) : bool :=
  if r <? 128 then (32 <=? r) && (r <=? 126) else IsPrint_table r.

Definition ValidRune (r : Z) : bool :=
  ((0 <=? r) && (r <? 55296)) || ((57343 <? r) && (r <=? 1114111)).

Definition hex2 (b : Z) : string :=
  Text.str (Text.lower_digit (Z.shiftr b 4))
  ++ Text.str (Text.lower_digit (Z.land b 15)).

Fixpoint hexN (n : nat) (r : Z) : string :=
  match n with
  | O => ""
  | S k =>
      Text.str (Text.lower_digit (Z.land (Z.shiftr r (4 * Z.of_nat k)) 15))
      ++ hexN k r
  end.

(** [appendEscapedRune] for the double quote; [bytes] is the encoding
    of [r]. *)
Definition appendEscapedRune (r : Z) (bytes : string) : string :=
  if (r =? 34) || (r =? 92) then Text.str Text.BACKSLASH ++ Text.str (Text.byte r)
  else if IsPrint r then bytes
  else if r =? 7 then "\a"
  else if r =? 8 then "\b"
  else if r =? 12 then "\f"
  else if r =? 10 then "\n"
  else if r =? 13 then "\r"
  else if r =? 9 then "\t"
  else if r =? 11 then "\v"
  else if (r <? 32) || (r =? 127) then "\x" ++ hex2 (Z.land r 255)
  else if negb (ValidRune r) then "\u" ++ hexN 4 utf8.RuneError
  else if r <? 65536 then "\u" ++ hexN 4 r
  else "\U" ++ hexN 8 r.

Fixpoint quote_loop (fuel : nat) (s : string) : string :=
  match fuel with
  | O => ""
  | S f =>
      match s with
      | EmptyString => ""
      | String c0 _ =>
          let r0 := Text.code c0 in
          let '(r, width) :=
            if r0 <? 128 then (r0, 1%nat) else utf8.DecodeRune s in
          (if (Nat.eqb width 1) && (r =? utf8.RuneError)
           then "\x" ++ hex2 r0
           else appendEscapedRune r (Text.take width s))
          ++ quote_loop f (Text.drop width s)
      end
  end.

Definition Quote (s : string) : string :=
  Text.str Text.QUOTE ++ quote_loop (String.length s) s ++ Text.str Text.QUOTE.
End Quote.
End strconv.

(* ===================================================================== *)
(** * printer.go *)
(* ===================================================================== *)

Definition indentWidth : Z := 4.

(** What a [PrettyPrint] method of another package does with the printer it
    is handed: it emits text through the exported print methods. *)
Inductive PrintOp :=
| OpPrint (text : string)
| OpColorPrint (text : string) (color : ColorField)
| OpIndentPrint (text : string).

Record TimeParts := MkTimeParts {
  Year : Z; Month : Z; Day : Z; Hour : Z; Minute : Z; Second : Z;
  Location : string
}.

(** The code outside the package that a render runs: tables and formatting
    routines of the libraries, and the [PrettyPrint] methods of the
    program's types. *)
Record Env := MkEnv {
  (** [unicode.IsPrint] on the runes beyond ASCII *)
  IsPrint_table : Z -> bool;
  (** [%f] of [golang.org/x/text/message] for the English locale *)
  localized_f : spec_float -> string;
  (** [%#v] of a complex number *)
  GoString_complex : spec_float -> spec_float -> string;
  (** [%#v] of any other value *)
  GoString : reflect.val -> string;
  (** the calendar fields of a [time.Time] *)
  time_Time : reflect.val -> TimeParts;
  (** [String] of a [big.Int] and of a [big.Float] *)
  big_Int_String : reflect.val -> string;
  big_Float_String : reflect.val -> string;
  (** the method [PrettyPrint] of a value's type, if it has one *)
  PrettyPrint : reflect.val -> option (list PrintOp)
}.

Record Printer := MkPrinter {
  Buffer : string;
  tw : tabwriter.Writer;
  depth : Z;
  value : reflect.Value;
  visited : gmap Z bool;
  colorScheme : option ColorScheme;
  decimalUint : bool;
  exportedOnly : bool;
  thousandsSeparator : bool;
  localizedPrinter : bool    (* the field is not nil *)
}.

Definition NewPrinter (object : reflect.Value) (colorScheme : option ColorScheme)
           (decimalUint exportedOnly thousandsSeparator : bool) : Printer := {|
  Buffer := "";
  tw := tabwriter.reset;
  depth := 0;
  value := object;
  visited := ∅;
  colorScheme := colorScheme;
  decimalUint := decimalUint;
  exportedOnly := exportedOnly;
  thousandsSeparator := thousandsSeparator;
  localizedPrinter := thousandsSeparator
|}.

Definition set_out (p : Printer) (b : string) (w : tabwriter.Writer) : Printer :=
  MkPrinter b w (depth p) (value p) (visited p) (colorScheme p) (decimalUint p)
            (exportedOnly p) (thousandsSeparator p) (localizedPrinter p).
Definition set_depth (p : Printer) (d : Z) : Printer :=
  MkPrinter (Buffer p) (tw p) d (value p) (visited p) (colorScheme p)
            (decimalUint p) (exportedOnly p) (thousandsSeparator p)
            (localizedPrinter p).
Definition set_visited (p : Printer) (v : gmap Z bool) : Printer :=
  MkPrinter (Buffer p) (tw p) (depth p) (value p) v (colorScheme p)
            (decimalUint p) (exportedOnly p) (thousandsSeparator p)
            (localizedPrinter p).

(** The index expression [visited[ptr]] of a [map[uintptr]bool]. *)
Definition seen (v : gmap Z bool) (ptr : Z) : bool := default false (v !! ptr).

(** A method of [*Printer]: it reads and updates the printer, and returns or
    panics. *)
Definition M (A : Type) : Type := Printer -> Res (A * Printer).

Definition ret {A} (a : A) : M A := fun p => Ok (a, p).
Definition bind {A B} (m : M A) (k : A -> M B) : M B :=
  fun p => match m p with
           | Ok (a, p') => k a p'
           | Panic msg => Panic msg
           | OutOfFuel => OutOfFuel
           end.
Definition lift {A} (r : Res A) : M A :=
  fun p => match r with
           | Ok a => Ok (a, p)
           | Panic msg => Panic msg
           | OutOfFuel => OutOfFuel
           end.
Definition throw {A} (msg : string) : M A := fun _ => Panic msg.
Definition starve {A} : M A := fun _ => OutOfFuel.
Definition gets {A} (f : Printer -> A) : M A := fun p => Ok (f p, p).
Definition modify (f : Printer -> Printer) : M unit := fun p => Ok (tt, f p).

Notation "'let*' x ':=' m 'in' k" := (bind m (fun x => k))
  (at level 10, x name, m at level 100, k at level 200).
Notation "m ';;' k" := (bind m (fun _ => k))
  (at level 100, k at level 200, right associativity).

Fixpoint forM_ {A} (l : list A) (f : A -> M unit) : M unit :=
  match l with
  | [] => ret tt
  | x :: r => f x ;; forM_ r f
  end.

(** The 64-bit [int] of the build target. *)
Definition wrap_int (z : Z) : Z := (z + 2 ^ 63) mod 2 ^ 64 - 2 ^ 63.

(** [String]: flush the column aligner and return the buffer. *)
Definition Printer_String (p : Printer) : string * Printer :=
  let '(o, w) := tabwriter.flush (tw p) in
  (Buffer p ++ o, set_out p (Buffer p ++ o) w).

Definition IsColoringEnabled (p : Printer) : bool :=
  match colorScheme p with Some _ => true | None => false end.

Definition Print (text : string) : M unit :=
  fun p => let '(o, w) := tabwriter.Write text (tw p) in
           Ok (tt, set_out p (Buffer p ++ o) w).
Definition Println (text : string) : M unit := Print (text ++ Text.str Text.LF).

Definition Indent : M string :=
  fun p => if depth p <? 0 then Panic "strings: negative Repeat count"
           else Ok (Text.Repeat (Text.str Text.TAB) (Z.to_nat (depth p)), p).

Definition IndentPrint (text : string) : M unit :=
  let* ind := Indent in Print (ind ++ text).

Definition Colorize (p : Printer) (text : string) (color : ColorField) : string :=
  match colorScheme p with
  | Some s => ColorizeText text (ColorScheme_Get s color)
  | None => text
  end.

Definition ColorPrint (text : string) (color : ColorField) : M unit :=
  let* c := gets (fun p => Colorize p text color) in Print c.

Definition nil_ : M string := gets (fun p => Colorize p "nil" NilColor).

(** The three patterns of [colorizeType]. *)
Module re.
Fixpoint noLF (s : string) : bool :=
  match s with
  | EmptyString => true
  | String c r => negb (Ascii.eqb c Text.LF) && noLF r
  end.

Definition nonempty (s : string) : bool :=
  match s with EmptyString => false | _ => true end.

(** [^\[\].+$] *)
Definition slicePrefix (t : string) : bool :=
  match t with
  | String "["%char (String "]"%char r) => nonempty r && noLF r
  | _ => false
  end.

Definition isDigit (c : ascii) : bool :=
  (48 <=? Text.code c) && (Text.code c <=? 57).

Fixpoint digitRun (s : string) : string :=
  match s with
  | String c r => if isDigit c then String c (digitRun r) else ""
  | EmptyString => ""
  end.

(** [^\[\d+\].+$], with the digits that [\d+] finds first. *)
Definition arrayPrefix (t : string) : option string :=
  match t with
  | String "["%char r =>
      let num := digitRun r in
      match Text.drop (String.length num) r with
      | String "]"%char rest =>
          if nonempty num && nonempty rest && noLF rest then Some num else None
      | _ => None
      end
  | _ => None
  end.

(** [^[^\.]+\.[^\.]+$], with the two parts. *)
Definition qualified (t : string) : option (string * string) :=
  match Text.Split t "."%char with
  | [a; b] => if nonempty a && nonempty b then Some (a, b) else None
  | _ => None
  end.
End re.

Definition colorizeType (p : Printer) (t : string) : string :=
  let '(prefix, t) :=
    if re.slicePrefix t then ("[]", Text.drop 2 t) else ("", t) in
  let '(prefix, t) :=
    match re.arrayPrefix t with
    | Some num =>
        ("[" ++ Colorize p num ObjectLengthColor ++ "]",
         Text.drop (2 + String.length num) t)
    | None => (prefix, t)
    end in
  let t :=
    match re.qualified t with
    | Some (a, b) => a ++ "." ++ Colorize p b StructNameColor
    | None => Colorize p t StructNameColor
    end in
  prefix ++ t.

Definition typeString : M string :=
  let* p := gets id in
  let* t := lift (reflect.Type_String (value p)) in
  ret (colorizeType p t).

(** [%#v] of an unsigned integer. *)
Definition GoString_uint (n : Z) : string := "0x" ++ Text.fmt_x n.

Definition pointerAddr : M string :=
  let* p := gets id in
  let* a := lift (reflect.Pointer (value p)) in
  ret (Colorize p (GoString_uint a) PointerAdressColor).

(** [valueIsZero] reports whether v is the zero value for its type. *)
Fixpoint valueIsZero (v : reflect.val) : bool :=
  match v with
  | reflect.VBool _ b => negb b
  | reflect.VInt _ _ n => n =? 0
  | reflect.VUint _ _ n => n =? 0
  | reflect.VFloat _ _ x =>
      match x with S754_zero false => true | _ => false end
  | reflect.VComplex _ _ r i =>
      match r, i with S754_zero false, S754_zero false => true | _, _ => false end
  | reflect.VArray _ _ es => forallb valueIsZero es
  | reflect.VChan _ p | reflect.VFunc _ p | reflect.VMap _ p | reflect.VPtr _ p
  | reflect.VSlice _ _ p _ | reflect.VUnsafePointer _ p => p =? 0
  | reflect.VInterface _ e =>
      match e with reflect.VInvalid => true | _ => false end
  | reflect.VString _ s => Nat.eqb (String.length s) 0
  | reflect.VStruct _ fs =>
      forallb (fun fx : reflect.StructField * reflect.val => valueIsZero (snd fx)) fs
  | reflect.VInvalid => false
  end.

(** [stringGroupSize]: the type assertion to [[]string], then the length of
    the longest string. *)
Definition stringGroupSize (h : reflect.Store) (i : reflect.val) : Res Z :=
  match i with
  | reflect.VSlice (reflect.MkNamed "[]string" "") reflect.String ptr len =>
      res_bind (reflect.elements h ptr len) (fun es =>
        fold_left (fun acc e =>
                     res_bind acc (fun max =>
                       match e with
                       | reflect.VString _ s =>
                           let l := Text.slen s in
                           Ok (if max <? l then l else max)
                       | _ => reflect.fault
                       end)) es (Ok 0))
  | _ => Panic "interface conversion: interface {} is not []string"
  end.

Section Render.
Variable env : Env.
Variable h : reflect.Store.

Definition fmtOrLocalizedSprintf_int (n : Z) : M string :=
  gets (fun p => if localizedPrinter p then Text.localized_d_int n
                 else Text.fmt_d_int n).
Definition fmtOrLocalizedSprintf_uint (n : Z) : M string :=
  gets (fun p => if localizedPrinter p then Text.localized_d_uint n
                 else Text.fmt_d_uint n).
Definition fmtOrLocalizedSprintf_f (x : spec_float) : M string :=
  gets (fun p => if localizedPrinter p then localized_f env x
                 else Text.fmt_f x).

Definition raw : M string :=
  let* p := gets id in
  match reflect.it (value p) with
  | reflect.VBool _ b => ret (if b then "true" else "false")
  | reflect.VInt _ _ n => fmtOrLocalizedSprintf_int n
  | reflect.VUint _ (reflect.KUint | reflect.KUintptr) n =>
      if decimalUint p then fmtOrLocalizedSprintf_uint n
      else ret (GoString_uint n)
  | reflect.VUint _ reflect.KUint8 n =>
      if decimalUint p then ret (Text.fmt_d_uint n)
      else ret ("0x" ++ Text.fmt_0x 2 n)
  | reflect.VUint _ reflect.KUint16 n =>
      if decimalUint p then fmtOrLocalizedSprintf_uint n
      else ret ("0x" ++ Text.fmt_0x 4 n)
  | reflect.VUint _ reflect.KUint32 n =>
      if decimalUint p then fmtOrLocalizedSprintf_uint n
      else ret ("0x" ++ Text.fmt_0x 8 n)
  | reflect.VUint _ reflect.KUint64 n =>
      if decimalUint p then fmtOrLocalizedSprintf_uint n
      else ret ("0x" ++ Text.fmt_0x 16 n)
  | reflect.VFloat _ _ x => fmtOrLocalizedSprintf_f x
  | reflect.VComplex _ _ r i => ret (GoString_complex env r i)
  | _ =>
      let* x := lift (reflect.Interface_ (value p)) in
      ret (GoString env x)
  end.

(** The loop of [printString] over the quoted text. *)
Fixpoint printString_loop (fuel : nat) (quoted : string) : M unit :=
  match fuel with
  | O => starve
  | S f =>
      if Nat.eqb (String.length quoted) 0 then ret tt
      else
        match Text.IndexByte quoted Text.BACKSLASH with
        | None => ColorPrint quoted StringColor
        | Some pos =>
            (if Nat.eqb pos 0 then ret tt
             else ColorPrint (Text.take pos quoted) StringColor) ;;
            match Text.index quoted (pos + 1) with
            | None => throw "index out of range"
            | Some c =>
                let n :=
                  if Ascii.eqb c "x" then 3%nat
                  else if Ascii.eqb c "u" then 5%nat
                  else if Ascii.eqb c "U" then 9%nat
                  else if re.isDigit c then 3%nat
                  else 1%nat in
                match Text.slice quoted pos (pos + n + 1) with
                | None => throw "slice bounds out of range"
                | Some esc =>
                    ColorPrint esc EscapedCharColor ;;
                    printString_loop f (Text.drop (pos + n + 1) quoted)
                end
            end
        end
  end.

Definition printString : M unit :=
  let* p := gets id in
  match reflect.it (value p) with
  | reflect.VString _ s =>
      let quoted := strconv.Quote (IsPrint_table env) s in
      match Text.slice quoted 1 (String.length quoted - 1) with
      | None => throw "slice bounds out of range"
      | Some quoted =>
          ColorPrint (Text.str Text.QUOTE) StringQuotationColor ;;
          printString_loop (S (String.length quoted)) quoted ;;
          ColorPrint (Text.str Text.QUOTE) StringQuotationColor
      end
  | _ => throw "reflect: call of reflect.Value.String on a value that is no string"
  end.

Definition indented (proc : M unit) : M unit :=
  modify (fun p => set_depth p (wrap_int (depth p + 1))) ;;
  proc ;;
  modify (fun p => set_depth p (wrap_int (depth p - 1))).

Definition mark (ptr : Z) : M unit :=
  modify (fun p => set_visited p (<[ptr := true]> (visited p))).

Definition printTime : M unit :=
  let* p := gets id in
  let* x := lift (reflect.Interface_ (value p)) in
  let tm := time_Time env x in
  Print (Colorize p (Text.fmt_d_int (Year tm)) TimeColor ++ "-"
         ++ Colorize p (Text.fmt_0d 2 (Month tm)) TimeColor ++ "-"
         ++ Colorize p (Text.fmt_0d 2 (Day tm)) TimeColor ++ " "
         ++ Colorize p (Text.fmt_0d 2 (Hour tm)) TimeColor ++ ":"
         ++ Colorize p (Text.fmt_0d 2 (Minute tm)) TimeColor ++ ":"
         ++ Colorize p (Text.fmt_0d 2 (Second tm)) TimeColor ++ " "
         ++ Colorize p (Location tm) TimeColor).

(** The first loop of [printStruct]: the fields that are printed. *)
Definition keepField (exportedOnly : bool)
           (fv : reflect.StructField * reflect.Value) : bool :=
  let field := fst fv in
  if exportedOnly && negb (String.eqb (reflect.fPkgPath field) "") then false
  else
    let tag := reflect.fTag field in
    if negb (String.eqb tag "") then
      let parts := Text.Split tag ","%char in
      if Nat.eqb (List.length parts) 2
         && String.eqb (nth 1 parts "") "omitempty"
         && valueIsZero (reflect.it (snd fv))
      then false
      else if String.eqb (nth 0 parts "") "-" then false
      else true
    else true.

Definition fieldName (field : reflect.StructField) : string :=
  let tag := reflect.fTag field in
  if negb (String.eqb tag "") then
    let tagName := Text.Split tag ","%char in
    if negb (String.eqb (nth 0 tagName "") "") then nth 0 tagName ""
    else reflect.fName field
  else reflect.fName field.

Section Body.
(** [p.Format] as the methods below call it. *)
Variable Format : reflect.Value -> M string.

Definition printMap : M unit :=
  let* p := gets id in
  let* len := lift (reflect.Len h (value p)) in
  if Nat.eqb len 0 then
    let* ts := typeString in Print (ts ++ "{}")
  else
    let* ptr := lift (reflect.Pointer (value p)) in
    if seen (visited p) ptr then
      let* ts := typeString in Print (ts ++ "{...}")
    else
      mark ptr ;;
      (let* ts := typeString in Print (ts ++ "{" ++ Text.str Text.LF)) ;;
      indented (
        let* value := lift (sortMap h (value p)) in
        forM_ value (fun kv =>
          let* k := Format (fst kv) in
          let* v := Format (snd kv) in
          IndentPrint (k ++ ":" ++ Text.str Text.TAB ++ v ++ ","
                       ++ Text.str Text.LF))) ;;
      IndentPrint "}".

Definition printStruct : M unit :=
  let* p := gets id in
  let* can := lift (reflect.CanInterface (value p)) in
  let* name := lift (reflect.Type_String (value p)) in
  let* pkg := lift (reflect.Type_PkgPath (value p)) in
  if can && String.eqb name "time.Time" && String.eqb pkg "time" then
    printTime
  else if can && String.eqb name "big.Int" then
    let* x := lift (reflect.Interface_ (value p)) in
    if String.eqb pkg "math/big"
    then Print (Colorize p (big_Int_String env x) IntegerColor)
    else throw "interface conversion: interface {} is not big.Int"
  else if can && String.eqb name "big.Float" then
    let* x := lift (reflect.Interface_ (value p)) in
    if String.eqb pkg "math/big"
    then Print (Colorize p (big_Float_String env x) FloatColor)
    else throw "interface conversion: interface {} is not big.Float"
  else
    let* all := lift (reflect.Fields (value p)) in
    let fields := List.filter (keepField (exportedOnly p)) all in
    if Nat.eqb (List.length fields) 0 then
      let* ts := typeString in Print (ts ++ "{}")
    else
      (let* ts := typeString in Println (ts ++ "{")) ;;
      indented (
        forM_ fields (fun fv =>
          let* colorizedFieldName :=
            gets (fun p => Colorize p (fieldName (fst fv)) FieldNameColor) in
          let* v := Format (snd fv) in
          IndentPrint (colorizedFieldName ++ ":" ++ Text.str Text.TAB ++ v
                       ++ "," ++ Text.str Text.LF))) ;;
      IndentPrint "}".

Definition groupSizeOf (p : Printer) : Res Z :=
  match reflect.it (value p) with
  | reflect.VArray _ elem _ | reflect.VSlice _ elem _ _ =>
      match elem with
      | reflect.Uint8 => Ok 16
      | reflect.Uint16 => Ok 8
      | reflect.Uint32 => Ok 8
      | reflect.Uint64 => Ok 4
      | reflect.String =>
          res_bind (reflect.Interface_ (value p)) (fun i =>
          res_bind (stringGroupSize h i) (fun max =>
            if max =? 0 then Panic "runtime error: integer divide by zero"
            else Ok (Z.quot 36 max)))
      | _ => Ok 0
      end
  | _ => Panic "reflect: Elem of a type that has no elements"
  end.

(** The elements with their indexes, for the loops over [i]. *)
Fixpoint indexed {A} (i : Z) (l : list A) : list (Z * A) :=
  match l with
  | [] => []
  | x :: r => (i, x) :: indexed (i + 1) r
  end.

Definition printSlice : M unit :=
  let* p := gets id in
  let* isNil :=
    match reflect.Kind_ (value p) with
    | reflect.Slice => lift (reflect.IsNil (value p))
    | _ => ret false
    end in
  if isNil then
    let* ts := typeString in
    let* n := nil_ in Print (ts ++ "(" ++ n ++ ")")
  else
    let* len := lift (reflect.Len h (value p)) in
    if Nat.eqb len 0 then
      let* ts := typeString in Print (ts ++ "{}")
    else
      let* ptr :=
        match reflect.Kind_ (value p) with
        | reflect.Slice => lift (reflect.Pointer (value p))
        | _ => ret 0
        end in
      let isSlice :=
        match reflect.Kind_ (value p) with
        | reflect.Slice => true
        | _ => false
        end in
      if isSlice && seen (visited p) ptr then
        (* Stop travarsing cyclic reference *)
        let* ts := typeString in Print (ts ++ "{...}")
      else
        (if isSlice then mark ptr else ret tt) ;;
        (* Fold a large buffer *)
        if 1024 <? Z.of_nat len then
          let* ts := typeString in Print (ts ++ "{...}")
        else
          let* groupSize := lift (groupSizeOf p) in
          let* elems := lift (reflect.Indexes h (value p)) in
          if Z.of_nat len <? groupSize then
            Print "{" ;;
            match elems with
            | [] => throw "reflect: slice index out of range"
            | e0 :: rest =>
                (let* s := Format e0 in Print s) ;;
                forM_ rest (fun e => let* s := Format e in Print (", " ++ s))
            end ;;
            Print "}"
          else
            Println "{" ;;
            indented (
              if 0 <? groupSize then
                forM_ (indexed 0 elems) (fun ie =>
                  let i := fst ie in
                  (* Indent for new group *)
                  (if Z.rem i groupSize =? 0
                   then let* ind := Indent in Print ind
                   else ret tt) ;;
                  (* slice element *)
                  (let* s := Format (snd ie) in Print (s ++ ",")) ;;
                  (* space or newline *)
                  if (Z.rem (i + 1) groupSize =? 0) || (i + 1 =? Z.of_nat len)
                  then Print (Text.str Text.LF)
                  else Print " ")
              else
                forM_ elems (fun e =>
                  let* s := Format e in
                  IndentPrint (s ++ "," ++ Text.str Text.LF))) ;;
            IndentPrint "}".

Definition printInterface : M unit :=
  let* p := gets id in
  let* e := lift (reflect.Elem h (value p)) in
  match reflect.Kind_ e with
  | reflect.Invalid => let* n := nil_ in Print n
  | _ =>
      if reflect.IsValid e then let* s := Format e in Print s
      else
        let* ts := typeString in
        let* n := nil_ in Print (ts ++ "(" ++ n ++ ")")
  end.

Definition elemTypeString : M string :=
  let* p := gets id in
  let* e := lift (reflect.Elem h (value p)) in
  let* t := lift (reflect.Type_String e) in
  ret (colorizeType p t).

Definition printPtr : M unit :=
  let* p := gets id in
  let* ptr := lift (reflect.Pointer (value p)) in
  if seen (visited p) ptr then
    let* ts := elemTypeString in Print ("&" ++ ts ++ "{...}")
  else
    (if negb (ptr =? 0) then mark ptr else ret tt) ;;
    let* e := lift (reflect.Elem h (value p)) in
    if reflect.IsValid e then
      let* s := Format e in Print ("&" ++ s)
    else
      let* ts := typeString in
      let* n := nil_ in Print ("(" ++ ts ++ ")(" ++ n ++ ")").

Definition runOp (op : PrintOp) : M unit :=
  match op with
  | OpPrint text => Print text
  | OpColorPrint text color => ColorPrint text color
  | OpIndentPrint text => IndentPrint text
  end.

(** The type assertion to the interface with the method [PrettyPrint],
    which a nil interface does not pass. *)
Definition prettyPrinter (x : reflect.val) : option (list PrintOp) :=
  match x with
  | reflect.VInvalid => None
  | _ => PrettyPrint env x
  end.

(** The body of [Format] once the printer [pp] is set up. *)
Definition dispatch : M unit :=
  let* pp := gets id in
  let* x := lift (reflect.Interface_ (value pp)) in
  match prettyPrinter x with
  | Some ops => forM_ ops runOp
  | None =>
      match reflect.Kind_ (value pp) with
      | reflect.Bool => let* r := raw in ColorPrint r BoolColor
      | reflect.Int | reflect.Int8 | reflect.Int16 | reflect.Int32
      | reflect.Int64 | reflect.Uint | reflect.Uint8 | reflect.Uint16
      | reflect.Uint32 | reflect.Uint64 | reflect.Uintptr
      | reflect.Complex64 | reflect.Complex128 =>
          let* r := raw in ColorPrint r IntegerColor
      | reflect.Float32 | reflect.Float64 =>
          let* r := raw in ColorPrint r FloatColor
      | reflect.String => printString
      | reflect.Map => printMap
      | reflect.Struct => printStruct
      | reflect.Array | reflect.Slice => printSlice
      | reflect.Chan =>
          let* ts := typeString in
          let* a := pointerAddr in Print ("(" ++ ts ++ ")(" ++ a ++ ")")
      | reflect.Interface => printInterface
      | reflect.Ptr => printPtr
      | reflect.Func => let* ts := typeString in Print (ts ++ " {...}")
      | reflect.UnsafePointer =>
          let* ts := typeString in
          let* a := pointerAddr in Print (ts ++ "(" ++ a ++ ")")
      | reflect.Invalid => let* n := nil_ in Print n
      end
  end.

(** [Format]: a new printer for the object, which shares the visited
    set of [p] and starts at its depth; its text is the result. *)
Definition Format_body (object : reflect.Value) : M string :=
  fun p =>
    let pp := NewPrinter object (colorScheme p) (decimalUint p)
                         (exportedOnly p) (thousandsSeparator p) in
    let pp := set_depth pp (depth p) in
    let pp := set_visited pp (visited p) in
    match dispatch pp with
    | Ok (_, pp') =>
        let '(text, pp'') := Printer_String pp' in
        Ok (text, set_visited p (visited pp''))
    | Panic msg => Panic msg
    | OutOfFuel => OutOfFuel
    end.
End Body.

(** [Format] with the depth of its recursion bounded by [fuel]. *)
Fixpoint Format (fuel : nat) (object : reflect.Value) : M string :=
  match fuel with
  | O => starve
  | S n => Format_body (Format n) object
  end.

Definition PrintKeyValue (fuel : nat) (k v : reflect.Value) : M unit :=
  let* ks := Format fuel k in
  let* vs := Format fuel v in
  IndentPrint (ks ++ ":" ++ Text.str Text.TAB ++ vs ++ "," ++ Text.str Text.LF).

Definition PrintFieldValue (fuel : nat) (k : string) (v : reflect.Value) : M unit :=
  let* colorizedFieldName := gets (fun p => Colorize p k FieldNameColor) in
  let* vs := Format fuel v in
  IndentPrint (colorizedFieldName ++ ":" ++ Text.str Text.TAB ++ vs
               ++ Text.str Text.LF).

End Render.

(* ===================================================================== *)
(** * cli.go *)
(* ===================================================================== *)

Definition efibootctl_pkg : string := "github.com/0x5a17ed/efibootctl/pkg/efibootctl".

Definition BootIndex_type : reflect.Named :=
  reflect.MkNamed "efibootctl.BootIndex" efibootctl_pkg.

Definition BootIndex (i : Z) : reflect.val :=
  reflect.VUint BootIndex_type reflect.KUint16 i.

Definition BootIndex_PrettyPrint (i : Z) : list PrintOp :=
  [OpColorPrint (Text.fmt_0X 4 i) IntegerColor].

(** An environment without [PrettyPrint] methods.  Its library routines are
    those of a program whose strings are ASCII and that prints no localized
    float, no complex number, no time and no big number: they are not
    reached then, and are left trivial. *)
Definition plain_env : Env := {|
  IsPrint_table := fun _ => false;
  localized_f := Text.fmt_f;
  GoString_complex := fun _ _ => "";
  GoString := fun _ => "";
  time_Time := fun _ => MkTimeParts 0 0 0 0 0 0 "";
  big_Int_String := fun _ => "";
  big_Float_String := fun _ => "";
  PrettyPrint := fun _ => None
|}.

(** The environment of the command: [BootIndex] has the one [PrettyPrint]
    method. *)
Definition efibootctl_env : Env := {|
  IsPrint_table := IsPrint_table plain_env;
  localized_f := localized_f plain_env;
  GoString_complex := GoString_complex plain_env;
  GoString := GoString plain_env;
  time_Time := time_Time plain_env;
  big_Int_String := big_Int_String plain_env;
  big_Float_String := big_Float_String plain_env;
  PrettyPrint := fun x =>
    match x with
    | reflect.VUint t reflect.KUint16 i =>
        if bool_decide (t = BootIndex_type) then Some (BootIndex_PrettyPrint i)
        else None
    | _ => None
    end
|}.

(* ===================================================================== *)
(** * Notions of the statements *)
(* ===================================================================== *)

(** What [String] returns for a new printer to which [s] was written. *)
Definition typeset (s : string) : string :=
  let '(o, w) := tabwriter.Write s tabwriter.reset in
  o ++ fst (tabwriter.flush w).

(** The number that a string of digits denotes in a base up to sixteen;
    separators are skipped. *)
Definition digit_value (c : ascii) : option Z :=
  let z := Text.code c in
  if (48 <=? z) && (z <=? 57) then Some (z - 48)
  else if (97 <=? z) && (z <=? 102) then Some (z - 87)
  else if (65 <=? z) && (z <=? 70) then Some (z - 55)
  else None.

Fixpoint parse_from (base acc : Z) (s : string) : Z :=
  match s with
  | EmptyString => acc
  | String c r =>
      match digit_value c with
      | Some d => parse_from base (acc * base + d) r
      | None => parse_from base acc r
      end
  end.

Definition parse (base : Z) (s : string) : Z := parse_from base 0 s.

(** The widths of the sized unsigned kinds: hexadecimal digits and bits. *)
Definition sized (k : reflect.UintKind) : option (nat * Z) :=
  match k with
  | reflect.KUint8 => Some (2%nat, 8)
  | reflect.KUint16 => Some (4%nat, 16)
  | reflect.KUint32 => Some (8%nat, 32)
  | reflect.KUint64 => Some (16%nat, 64)
  | _ => None
  end.

(** The text of an unsigned and of a signed integer, in the words of the
    specification: fixed-width hexadecimal for the sized unsigned kinds
    unless decimal is preferred, decimal otherwise, with thousands
    separators when the option is set (never for eight bits). *)
Definition uint_text (p : Printer) (k : reflect.UintKind) (x : Z) : string :=
  match sized k with
  | Some (w, _) =>
      if decimalUint p then
        if thousandsSeparator p && negb (Nat.eqb w 2) then Text.localized_d_uint x
        else Text.fmt_d_uint x
      else "0x" ++ Text.fmt_0x w x
  | None =>
      if decimalUint p then
        if thousandsSeparator p then Text.localized_d_uint x else Text.fmt_d_uint x
      else "0x" ++ Text.fmt_x x
  end.

Definition int_text (p : Printer) (x : Z) : string :=
  if thousandsSeparator p then Text.localized_d_int x else Text.fmt_d_int x.

(** The length of a sequence that is not nil, the identity of a container,
    and the visited set once the container is marked. *)
Definition sequence_length (x : reflect.val) : option nat :=
  match x with
  | reflect.VArray _ _ es => Some (List.length es)
  | reflect.VSlice _ _ ptr len => if ptr =? 0 then None else Some len
  | _ => None
  end.

Definition identity (x : reflect.val) : option Z :=
  match x with
  | reflect.VSlice _ _ ptr _ | reflect.VMap _ ptr | reflect.VPtr _ ptr => Some ptr
  | _ => None
  end.

Definition marked (x : reflect.val) (v : gmap Z bool) : gmap Z bool :=
  match identity x with
  | Some a => <[a := true]> v
  | None => v
  end.

(** The marker that stands for a container that is met again: a map or a
    slice that is not empty, a pointer that is not nil. *)
Definition elision (h : reflect.Store) (p : Printer) (x : reflect.val)
  : option string :=
  match x with
  | reflect.VMap t ptr =>
      match reflect.maps h !! ptr with
      | Some (_ :: _) =>
          if ptr =? 0 then None
          else Some (colorizeType p (reflect.tString t) ++ "{...}")
      | _ => None
      end
  | reflect.VSlice t _ ptr len =>
      if (ptr =? 0) || Nat.eqb len 0 then None
      else Some (colorizeType p (reflect.tString t) ++ "{...}")
  | reflect.VPtr _ ptr =>
      if ptr =? 0 then None
      else
        match reflect.cells h !! ptr with
        | Some y =>
            match reflect.named y with
            | Some t' => Some ("&" ++ colorizeType p (reflect.tString t') ++ "{...}")
            | None => None
            end
        | None => None
        end
  | _ => None
  end.

(** The entries of a map in the order of its iteration, as [sortMap]
    collects them before it sorts. *)
Definition iteration (h : reflect.Store) (value : reflect.Value) : Res sortedMap :=
  res_bind (reflect.MapKeys h value) (collect h value).

(** The comparison rule of the ordering module, in the words of the
    specification. *)
Module Spec.
Inductive Shape :=
| Signed | Unsigned | Str | Float | Boolean | Reference | FixedArray | Record
| Other.

Definition shape (k : reflect.Kind) : Shape :=
  match k with
  | reflect.Int | reflect.Int8 | reflect.Int16 | reflect.Int32
  | reflect.Int64 => Signed
  | reflect.Uint | reflect.Uint8 | reflect.Uint16 | reflect.Uint32
  | reflect.Uint64 | reflect.Uintptr => Unsigned
  | reflect.String => Str
  | reflect.Float32 | reflect.Float64 => Float
  | reflect.Bool => Boolean
  | reflect.Ptr => Reference
  | reflect.Array => FixedArray
  | reflect.Struct => Record
  | _ => Other
  end.

Definition number (x : reflect.val) : Z :=
  match x with
  | reflect.VInt _ _ n | reflect.VUint _ _ n => n
  | _ => 0
  end.
Definition text (x : reflect.val) : string :=
  match x with reflect.VString _ s => s | _ => "" end.
Definition float (x : reflect.val) : spec_float :=
  match x with reflect.VFloat _ _ f => f | _ => S754_nan end.
Definition truth (x : reflect.val) : bool :=
  match x with reflect.VBool _ b => b | _ => false end.
Definition address (x : reflect.val) : Z :=
  match x with reflect.VPtr _ p => p | _ => 0 end.
Definition count (x : reflect.val) : nat :=
  match x with
  | reflect.VArray _ _ es => List.length es
  | reflect.VStruct _ fs => List.length fs
  | _ => O
  end.
Definition isNaN (f : spec_float) : bool :=
  match f with S754_nan => true | _ => false end.

Definition less (a b : reflect.val) : bool :=
  if bool_decide (reflect.typeOf a = reflect.typeOf b) then
    match shape (reflect.kind a) with
    | Signed | Unsigned => number a <? number b
    | Str => String.ltb (text a) (text b)
    | Float =>
        if isNaN (float a) || isNaN (float b) then false
        else SFltb (float a) (float b)
    | Boolean => negb (truth a) && truth b
    | Reference => address a <? address b
    | FixedArray | Record => (count a <? count b)%nat
    | Other => false
    end
  else false.
End Spec.

(** The printer [q] after [s] was written to it when it was new. *)
Definition writing (s : string) (q : Printer) : Printer :=
  set_out q (fst (tabwriter.Write s tabwriter.reset))
            (snd (tabwriter.Write s tabwriter.reset)).

(** The directives of a field, in the words of the specification: the
    parts of its tag; the field is suppressed when empty, suppressed, and
    exported. *)
Definition directives (f : reflect.StructField) : list string :=
  Text.Split (reflect.fTag f) ","%char.

Definition omitempty (f : reflect.StructField) : bool :=
  match directives f with
  | [_; d] => String.eqb d "omitempty"
  | _ => false
  end.

Definition suppressed (f : reflect.StructField) : bool :=
  match directives f with
  | d :: _ => String.eqb d "-"
  | [] => false
  end.

Definition exported (f : reflect.StructField) : bool :=
  String.eqb (reflect.fPkgPath f) "".

(** The field survives the filter. *)
Definition survives (exportedOnly : bool) (f : reflect.StructField) (x : reflect.val)
  : bool :=
  (negb exportedOnly || exported f)
  && negb (omitempty f && valueIsZero x)
  && negb (suppressed f).

(** The structs that are not rendered field by field. *)
Definition special (t : reflect.Named) : bool :=
  (String.eqb (reflect.tString t) "time.Time" && String.eqb (reflect.tPkgPath t) "time")
  || String.eqb (reflect.tString t) "big.Int"
  || String.eqb (reflect.tString t) "big.Float".

(** The texts of the values in their order, each rendered by [rec] on the
    printer that the one before returns. *)
Fixpoint formats (rec : reflect.Value -> M string) (vs : list reflect.Value)
  : M (list string) :=
  match vs with
  | [] => ret []
  | v :: r =>
      let* s := rec v in
      let* ss := formats rec r in
      ret (s :: ss)
  end.

(** The text of a struct with the given fields and their texts, at depth
    zero: a line for each field. *)
Definition field_line (p : Printer) (l : reflect.StructField * string) : string :=
  Text.str Text.TAB ++ Colorize p (fieldName (fst l)) FieldNameColor ++ ":"
  ++ Text.str Text.TAB ++ snd l ++ "," ++ Text.str Text.LF.

Definition struct_text (p : Printer) (t : reflect.Named)
           (ls : list (reflect.StructField * string)) : string :=
  match ls with
  | [] => colorizeType p (reflect.tString t) ++ "{}"
  | _ =>
      colorizeType p (reflect.tString t) ++ "{" ++ Text.str Text.LF
      ++ Text.concat (List.map (field_line p) ls) ++ "}"
  end.

(** The line that the aligner keeps for a row behind a tab: an empty cell
    and the row. *)
Definition row_cells (R : string) : list tabwriter.cell :=
  [tabwriter.Cell "" 0 true; tabwriter.Cell R (utf8.RuneCount R) false].

(** The text of an element of an unsigned kind. *)
Definition uint_element (p : Printer) (e : reflect.Value) : string :=
  match reflect.it e with
  | reflect.VUint _ k x => Colorize p (uint_text p k x) IntegerColor
  | _ => ""
  end.

(** The elements of one group: a comma after each, a space in between. *)
Fixpoint row (texts : list string) : string :=
  match texts with
  | [] => ""
  | [e] => e ++ ","
  | e :: r => e ++ ", " ++ row r
  end.

(** The lines of a sequence of [len] elements in groups of [g], from the
    element of index [i] on: the indent before the first element of a
    group, a line break after its last and after the last of all. *)
Fixpoint rows (indent : string) (g : Z) (len : nat) (i : Z) (texts : list string)
  : string :=
  match texts with
  | [] => ""
  | e :: r =>
      (if Z.rem i g =? 0 then indent else "")
      ++ (e ++ ",")
      ++ (if (Z.rem (i + 1) g =? 0) || (i + 1 =? Z.of_nat len)
          then Text.str Text.LF else " ")
      ++ rows indent g len (i + 1) r
  end.

(** The group sizes of the sized unsigned kinds. *)
Definition uint_group (k : reflect.UintKind) : Z :=
  match k with
  | reflect.KUint8 => 16
  | reflect.KUint16 => 8
  | reflect.KUint32 => 8
  | reflect.KUint64 => 4
  | _ => 0
  end.

(** A slice of elements of an unsigned kind at an address. *)
Definition uint_elems (te : reflect.Named) (k : reflect.UintKind) (xs : list Z)
  : list reflect.val :=
  List.map (reflect.VUint te k) xs.

(** The length of the longest string of a sequence, and the slice of
    strings at an address. *)
Definition longest (strs : list string) : Z :=
  fold_right (fun s m => Z.max (Text.slen s) m) 0 strs.

Definition strings_at (ptr : Z) (strs : list string) : reflect.val :=
  reflect.VSlice (reflect.MkNamed "[]string" "") reflect.String ptr (List.length strs).

Definition string_elems (strs : list string) : list reflect.val :=
  List.map (reflect.VString (reflect.MkNamed "string" "")) strs.

(** The text of a result, without the printer. *)
Definition text_of {A} (r : Res (A * Printer)) : Res A :=
  match r with
  | Ok (a, _) => Ok a
  | Panic msg => Panic msg
  | OutOfFuel => OutOfFuel
  end.

(** Orders and what a sort keeps. *)
Section Orders.
Context {A : Type}.
Variable less : A -> A -> bool.

(** The elements that [sel] selects come in an order that [less] does
    not contradict: the later is not less than the earlier. *)
Definition keeps_order (sel : A -> bool) (x y : A) : Prop :=
  sel x = true -> sel y = true -> less y x = false.

(** [less] is a strict total order on the elements of [l]. *)
Record strict_total (l : list A) : Prop := {
  st_irrefl : forall x, x ∈ l -> less x x = false;
  st_trans : forall x y z, x ∈ l -> y ∈ l -> z ∈ l ->
               less x y = true -> less y z = true -> less x z = true;
  st_total : forall x y, x ∈ l -> y ∈ l -> x <> y ->
               less x y = true \/ less y x = true
}.

Definition descending (x y : A) : Prop := less y x = true.
Definition ascending (x y : A) : Prop := less x y = true.
End Orders.

(** The entry of a map as [sortMap] collects it. *)
Definition collected (ro : bool) (e : reflect.val * reflect.val)
  : reflect.Value * reflect.Value :=
  (reflect.derived ro (fst e), reflect.derived (ro || (ro || false)) (snd e)).

(** The printer [Format] makes for an object. *)
Definition subPrinter (p : Printer) (object : reflect.Value) : Printer :=
  set_visited (set_depth (NewPrinter object (colorScheme p) (decimalUint p)
                                     (exportedOnly p) (thousandsSeparator p))
                         (depth p))
              (visited p).

(** The visited set [v'] has every address that [v] has. *)
Definition grows (v v' : gmap Z bool) : Prop :=
  forall a, seen v a = true -> seen v' a = true.

(** The size of a value, counting what it holds itself. *)
Fixpoint weight (x : reflect.val) : nat :=
  match x with
  | reflect.VArray _ _ es => S (sum_list_with weight es)
  | reflect.VStruct _ fs =>
      S (sum_list_with (fun fx : reflect.StructField * reflect.val =>
                          weight (snd fx)) fs)
  | reflect.VInterface _ e => S (weight e)
  | _ => O
  end.

Definition weight_entries (es : list (reflect.val * reflect.val)) : nat :=
  S (sum_list_with (fun e : reflect.val * reflect.val =>
                      weight (fst e) + weight (snd e))%nat es).
Definition weight_elems (es : list reflect.val) : nat :=
  S (sum_list_with weight es).
Definition weight_cell (x : reflect.val) : nat := S (weight x).

(** The size of what a store holds at the addresses that are not visited. *)
Definition unseen {X} (v : gmap Z bool) (w : X -> nat) (m : gmap Z X) : nat :=
  sum_list_with (fun ax : Z * X => if seen v (fst ax) then O else w (snd ax))
                (map_to_list m).

Definition unvisited (h : reflect.Store) (v : gmap Z bool) : nat :=
  (unseen v weight_entries (reflect.maps h)
   + unseen v weight_elems (reflect.arrays h)
   + unseen v weight_cell (reflect.cells h))%nat.

(** Keys of the kinds that [Less] orders: integers, strings, booleans,
    pointers, and floats other than NaN. *)
Definition orderable (k : reflect.val) : bool :=
  match k with
  | reflect.VInt _ _ _ | reflect.VUint _ _ _ | reflect.VString _ _
  | reflect.VBool _ _ | reflect.VPtr _ _ => true
  | reflect.VFloat _ _ x => SFeqb x x
  | _ => false
  end.

(** No two keys of the list are equal for Go's [==]. *)
Fixpoint distinct (ks : list reflect.val) : bool :=
  match ks with
  | [] => true
  | k :: r => forallb (fun k' => negb (reflect.go_eq k k')) r && distinct r
  end.

(** The keys of a map that [Less] orders: one type, an orderable kind, and
    no key twice. *)
Definition orderable_keys (ks : list reflect.val) : bool :=
  match ks with
  | [] => true
  | k0 :: _ =>
      forallb (fun k => orderable k
                        && bool_decide (reflect.typeOf k = reflect.typeOf k0)) ks
      && distinct ks
  end.

(** The keys [ks] are orderable, of the type [T] and pairwise distinct. *)
Definition keys_of (T : option reflect.Type_) (ks : list reflect.val) : Prop :=
  Forall (fun k => orderable k = true /\ reflect.typeOf k = T) ks
  /\ distinct ks = true.

(** Two stores that hold the same maps, slices and referents, where a map
    may come with its entries in another order and has keys that [Less]
    orders. *)
Definition same_maps (h1 h2 : reflect.Store) : Prop :=
  reflect.arrays h1 = reflect.arrays h2
  /\ reflect.cells h1 = reflect.cells h2
  /\ forall a,
       match reflect.maps h1 !! a, reflect.maps h2 !! a with
       | Some es1, Some es2 =>
           es1 ≡ₚ es2 /\ orderable_keys (List.map fst es1) = true
           /\ orderable_keys (List.map fst es2) = true
       | None, None => True
       | _, _ => False
       end.

(** Every [Format] that the method [m] runs on the printer [p] has the fuel
    it needs when the unvisited part of the store weighs at most [B], and
    so it is afterwards. *)
Definition good_at {A} (h : reflect.Store) (B : nat) (m : M A) (p : Printer) : Prop :=
  match m p with
  | OutOfFuel => False
  | Panic _ => True
  | Ok (_, p') => (unvisited h (visited p') <= B)%nat
  end.

Definition good {A} (h : reflect.Store) (B : nat) (m : M A) : Prop :=
  forall p, (unvisited h (visited p) <= B)%nat -> good_at h B m p.

(** A result of a call that had the fuel it needed. *)
Definition total {A} (r : Res A) : Prop := r <> OutOfFuel.

(** The method only adds to the visited set. *)
Definition keeps {A} (m : M A) : Prop :=
  forall p a p', m p = Ok (a, p') -> grows (visited p) (visited p').

(* ===================================================================== *)
(** * Values of the examples *)
(* ===================================================================== *)

Module Ex.
Definition t_int : reflect.Named := reflect.MkNamed "int" "".
Definition t_uint8 : reflect.Named := reflect.MkNamed "uint8" "".
Definition t_string : reflect.Named := reflect.MkNamed "string" "".
Definition t_any : reflect.Named := reflect.MkNamed "interface {}" "".
Definition t_bytes : reflect.Named := reflect.MkNamed "[]uint8" "".
Definition t_ints : reflect.Named := reflect.MkNamed "[]int" "".
Definition t_strings : reflect.Named := reflect.MkNamed "[]string" "".
Definition t_self : reflect.Named := reflect.MkNamed "map[string]interface {}" "".
Definition t_key : reflect.Named := reflect.MkNamed "[1]int" "".
Definition t_keyed : reflect.Named := reflect.MkNamed "map[[1]int]string" "".
Definition t_counts : reflect.Named := reflect.MkNamed "map[int]string" "".
Definition t_T : reflect.Named := reflect.MkNamed "main.T" "main".
Definition t_node : reflect.Named := reflect.MkNamed "*main.Node" "".
Definition t_Node : reflect.Named := reflect.MkNamed "main.Node" "main".

Definition int (n : Z) : reflect.val := reflect.VInt t_int reflect.KInt n.
Definition uint8 (n : Z) : reflect.val := reflect.VUint t_uint8 reflect.KUint8 n.
Definition str (s : string) : reflect.val := reflect.VString t_string s.

Definition empty : reflect.Store := reflect.MkStore ∅ ∅ ∅.

(** A printer as [NewPrinter] makes it, without colors. *)
Definition printer (decimalUint exportedOnly thousandsSeparator : bool) : Printer :=
  NewPrinter (reflect.ValueOf (str "")) None decimalUint exportedOnly
             thousandsSeparator.

(** [struct{ a int }{1}] in package main: one unexported field. *)
Definition hidden : reflect.val :=
  reflect.VStruct t_T [(reflect.MkField "a" "main" false "", int 1)].

(** [[]string{""}] at address 64. *)
Definition blank : reflect.val := reflect.VSlice t_strings reflect.String 64 1.
Definition blank_store : reflect.Store :=
  reflect.MkStore ∅ {[ 64 := [str ""] ]} ∅.

(** [[2]string{"a", "b"}]. *)
Definition pair : reflect.val :=
  reflect.VArray (reflect.MkNamed "[2]string" "") reflect.String [str "a"; str "b"].

(** [m := map[string]interface{}{}; m["self"] = m] at address 100. *)
Definition self : reflect.val := reflect.VMap t_self 100.
Definition self_store : reflect.Store :=
  reflect.MkStore {[ 100 := [(str "self", reflect.VInterface t_any self)] ]} ∅ ∅.

(** [n := &Node{}; n.Next = n] at address 200. *)
Definition node : reflect.val := reflect.VPtr t_node 200.
Definition node_store : reflect.Store :=
  reflect.MkStore ∅ ∅
    {[ 200 := reflect.VStruct t_Node
                [(reflect.MkField "Next" "" false "", node)] ]}.

(** [map[[1]int]string{{1}: "a", {2}: "b"}] at address 100, iterated in
    the one and in the other order. *)
Definition key (n : Z) : reflect.val := reflect.VArray t_key reflect.Int [int n].
Definition keyed : reflect.val := reflect.VMap t_keyed 100.
Definition keyed_12 : list (reflect.val * reflect.val) :=
  [(key 1, str "a"); (key 2, str "b")].
Definition keyed_21 : list (reflect.val * reflect.val) :=
  [(key 2, str "b"); (key 1, str "a")].
Definition store_of (es : list (reflect.val * reflect.val)) : reflect.Store :=
  reflect.MkStore {[ 100 := es ]} ∅ ∅.

(** [map[int]string{1: "a", 2: "b"}] at address 100, in two orders. *)
Definition counts : reflect.val := reflect.VMap t_counts 100.
Definition counts_12 : list (reflect.val * reflect.val) :=
  [(int 1, str "a"); (int 2, str "b")].
Definition counts_21 : list (reflect.val * reflect.val) :=
  [(int 2, str "b"); (int 1, str "a")].

(** A slice of [n] integers at address 300. *)
Definition many (n : nat) : reflect.val := reflect.VSlice t_ints reflect.Int 300 n.
Definition many_store (n : nat) : reflect.Store :=
  reflect.MkStore ∅ {[ 300 := List.repeat (int 7) n ]} ∅.

(** [struct{ Name string `pp:"name,omitempty"`; Count int `pp:",omitempty"`;
    Secret string `pp:"-"` }] in package main, with the count 3 and with
    the count 0. *)
Definition record_fields (count : Z) : list (reflect.StructField * reflect.val) :=
  [(reflect.MkField "Name" "" false "name,omitempty", str "");
   (reflect.MkField "Count" "" false ",omitempty", int count);
   (reflect.MkField "Secret" "" false "-", str "key")].
Definition record (count : Z) : reflect.val :=
  reflect.VStruct t_T (record_fields count).

(** [[]int16{1, 2, 3}] at address 500. *)
Definition t_int16 : reflect.Named := reflect.MkNamed "int16" "".
Definition shorts : reflect.val :=
  reflect.VSlice (reflect.MkNamed "[]int16" "") reflect.Int16 500 3.
Definition shorts_store : reflect.Store :=
  reflect.MkStore ∅
    {[ 500 := List.map (reflect.VInt t_int16 reflect.KInt16) [1; 2; 3] ]} ∅.

(** The bytes 0 to 19 at address 400. *)
Definition bytes20 : reflect.val := reflect.VSlice t_bytes reflect.Uint8 400 20.
Definition bytes20_store : reflect.Store :=
  reflect.MkStore ∅
    {[ 400 := List.map (fun i => uint8 (Z.of_nat i)) (List.seq 0 20) ]} ∅.
End Ex.

(* ===================================================================== *)
(** * Notions of the further properties *)
(* ===================================================================== *)

(** The number of digits that follow the letter of an escape sequence, as
    the loop of [printString] reads it off the letter. *)
Definition escape_digits (c : ascii) : nat :=
  if Ascii.eqb c "x" then 2%nat
  else if Ascii.eqb c "u" then 4%nat
  else if Ascii.eqb c "U" then 8%nat
  else if re.isDigit c then 2%nat
  else 0%nat.

(** The text between the quotes of a quoted string: bytes that are no
    backslash and that the column aligner does not interpret, and escape
    sequences of a backslash, a letter and the digits the letter asks
    for. *)
Inductive quoted_body : string -> Prop :=
| quoted_nil : quoted_body ""
| quoted_raw c q :
    Ascii.eqb c Text.BACKSLASH = false -> Text.tw_special c = false ->
    quoted_body q -> quoted_body (String c q)
| quoted_esc c e q :
    String.length e = escape_digits c -> Text.plain (String c e) = true ->
    quoted_body q ->
    quoted_body (String Text.BACKSLASH (String c (e ++ q))).

(** Two printers that [Format] does not tell apart: they have the same
    options, depth and visited set. *)
Definition alike (p q : Printer) : Prop :=
  colorScheme p = colorScheme q /\ decimalUint p = decimalUint q
  /\ exportedOnly p = exportedOnly q /\ thousandsSeparator p = thousandsSeparator q
  /\ depth p = depth q /\ visited p = visited q.

(** The result of [Format] on another printer, carried over to [p]. *)
Definition carried (p : Printer) (r : Res (string * Printer)) : Res (string * Printer) :=
  match r with
  | Ok (s, q) => Ok (s, set_visited p (visited q))
  | Panic msg => Panic msg
  | OutOfFuel => OutOfFuel
  end.

(** The method, run on [p], does not mark the nil address. *)
Definition clean_at {A} (m : M A) (p : Printer) : Prop :=
  forall a p', m p = Ok (a, p') ->
               seen (visited p) 0 = false -> seen (visited p') 0 = false.
Definition clean {A} (m : M A) : Prop := forall p, clean_at m p.

(** Digits and the capital letters [A] to [F]. *)
Definition upper_hex_digit (c : ascii) : bool :=
  let z := Text.code c in
  ((48 <=? z) && (z <=? 57)) || ((65 <=? z) && (z <=? 70)).

Fixpoint upper_hex (s : string) : bool :=
  match s with
  | EmptyString => true
  | String c r => upper_hex_digit c && upper_hex r
  end.

(** The text of an element of type [BootIndex]. *)
Definition index_text (p : Printer) (i : Z) : string :=
  Colorize p (Text.fmt_0X 4 i) IntegerColor.

Definition index_element (p : Printer) (e : reflect.Value) : string :=
  match reflect.it e with
  | reflect.VUint _ _ x => index_text p x
  | _ => ""
  end.

(** The result of [Format] with its text passed through [f]. *)
Definition retext (f : string -> string) (r : Res (string * Printer))
  : Res (string * Printer) :=
  match r with
  | Ok (s, q) => Ok (f s, q)
  | Panic msg => Panic msg
  | OutOfFuel => OutOfFuel
  end.

(** The keys and values of the entries in turn, and the lines of the
    entries of a map at depth zero from the texts of the keys and values
    in turn. *)
Definition in_turn (kvs : list (reflect.Value * reflect.Value)) : list reflect.Value :=
  flat_map (fun kv => [fst kv; snd kv]) kvs.

Fixpoint entry_lines (texts : list string) : string :=
  match texts with
  | k :: v :: r =>
      Text.str Text.TAB ++ k ++ ":" ++ Text.str Text.TAB ++ v ++ ","
      ++ Text.str Text.LF ++ entry_lines r
  | _ => ""
  end.

Definition map_text (p : Printer) (t : reflect.Named) (texts : list string) : string :=
  colorizeType p (reflect.tString t) ++ "{" ++ Text.str Text.LF
  ++ entry_lines texts ++ "}".

(** What an operation of a [PrettyPrint] method writes. *)
Definition op_text (p : Printer) (op : PrintOp) : string :=
  match op with
  | OpPrint text => text
  | OpColorPrint text color => Colorize p text color
  | OpIndentPrint text => Text.Repeat (Text.str Text.TAB) (Z.to_nat (depth p)) ++ text
  end.

(* ===================================================================== *)
(** * cli.go: the command *)
(* ===================================================================== *)

Module cli.
Section Command.
(** The errors of the firmware library, with [errors.Is(err,
    efivario.ErrNotFound)] and [err.Error()]; the constant
    [efitypes.ActiveAttribute]; the library routines of the printer. *)
Context {error : Type}.
Variable isNotFound : error -> bool.
Variable Error : error -> string.
Variable ActiveAttribute : Z.
Variable env : Env.

(** What [Variable.Get] returns for a boot entry: the attributes and the
    description of the load option. *)
Record LoadOption := MkLoadOption {
  Attributes : Z;
  DescriptionString : string
}.

(** An entry that the boot iterator yields: its index, and what
    [Variable.Get] returns for it. *)
Record BootEntry := MkBootEntry {
  Index : Z;
  Variable_Get : error + LoadOption
}.

(** What the calls into the firmware library return, and the address
    of the slice that [sliceit.To] makes. *)
Record Firmware := MkFirmware {
  BootNext_Get : error + Z;
  BootCurrent_Get : error + Z;
  BootOrder_Get : error + list Z;
  BootIterator : error + list BootEntry;
  Close_context : option error;
  Close_iterator : option error;
  To_address : Z
}.

(** What the command leaves behind: the text on the standard output and
    on the standard error, and the errors it returns, none when the
    list is empty. *)
Record Outcome := MkOutcome {
  stdout : string;
  stderr : string;
  err : list error
}.

Definition string_type : reflect.Named := reflect.MkNamed "string" "".
Definition BootOrder_type : reflect.Named :=
  reflect.MkNamed "[]efibootctl.BootIndex" "".

(** The heap: the slice of boot indexes. *)
Definition heap (fw : Firmware) : reflect.Store :=
  match BootOrder_Get fw with
  | inr bootOrder =>
      reflect.MkStore ∅ {[ To_address fw := List.map BootIndex bootOrder ]} ∅
  | inl _ => reflect.MkStore ∅ ∅ ∅
  end.

(** [multierr.AppendInvoke(&err, multierr.Close(c))] when the function
    returns. *)
Definition AppendInvoke (close : option error) (o : Outcome) : Outcome :=
  match close with
  | Some e => MkOutcome (stdout o) (stderr o) (err o ++ [e])
  | None => o
  end.

(** [return err] before anything is written. *)
Definition failed (e : error) : M Outcome := ret (MkOutcome "" "" [e]).

Definition String_ : M string := fun p => Ok (Printer_String p).

Section Run.
Variable fuel : nat.
Variable fw : Firmware.

(** The function that is applied to each boot entry; it returns what
    it writes to the standard error. *)
Definition each (be : BootEntry) : M string :=
  match Variable_Get be with
  | inl e => ret ("error: " ++ Error e ++ Text.str Text.LF)
  | inr lo =>
      let isActive :=
        if negb (Z.land (Attributes lo) ActiveAttribute =? 0) then "*"
        else "" in
      PrintFieldValue env (heap fw) fuel
        ("Boot" ++ Text.fmt_0X 4 (Index be) ++ isActive)
        (reflect.ValueOf
           (reflect.VString string_type (DescriptionString lo))) ;;
      ret ""
  end.

Fixpoint Apply (it : list BootEntry) : M string :=
  match it with
  | [] => ret ""
  | be :: r =>
      let* e := each be in
      let* es := Apply r in
      ret (e ++ es)
  end.

Definition entries (it : list BootEntry) : M Outcome :=
  let* errors := Apply it in
  let* out := String_ in
  ret (AppendInvoke (Close_iterator fw) (MkOutcome out errors [])).

Definition after_BootNext : M Outcome :=
  match BootCurrent_Get fw with
  | inl e => failed e
  | inr bootCurrent =>
      PrintFieldValue env (heap fw) fuel "BootCurrent"
        (reflect.ValueOf (BootIndex bootCurrent)) ;;
      match BootOrder_Get fw with
      | inl e => failed e
      | inr bootOrder =>
          PrintFieldValue env (heap fw) fuel "BootOrder"
            (reflect.ValueOf
               (reflect.VSlice BootOrder_type reflect.Uint16
                  (To_address fw) (List.length bootOrder))) ;;
          match BootIterator fw with
          | inl e => failed e
          | inr it => entries it
          end
      end
  end.

Definition mainE : Res Outcome :=
  let p := NewPrinter (reflect.ValueOf (reflect.VString string_type ""))
                      (Some DefaultScheme) true true true in
  res_bind
    ((match BootNext_Get fw with
      | inl e =>
          if negb (isNotFound e) then failed e
          else after_BootNext
      | inr bootNext =>
          PrintFieldValue env (heap fw) fuel "BootNext"
            (reflect.ValueOf (BootIndex bootNext)) ;;
          after_BootNext
      end) p)
    (fun r => Ok (AppendInvoke (Close_context fw) (fst r))).
End Run.
End Command.
End cli.

(* ===================================================================== *)
(** * Notions of the command *)
(* ===================================================================== *)

(** The line that [PrintFieldValue] writes for a key and the text of its
    value. *)
Definition field_text (p : Printer) (k vs : string) : string :=
  Text.Repeat (Text.str Text.TAB) (Z.to_nat (depth p))
  ++ Colorize p k FieldNameColor ++ ":" ++ Text.str Text.TAB ++ vs
  ++ Text.str Text.LF.

(** The line that [PrintKeyValue] writes for the texts of a key and of its
    value. *)
Definition key_text (p : Printer) (ks vs : string) : string :=
  Text.Repeat (Text.str Text.TAB) (Z.to_nat (depth p))
  ++ ks ++ ":" ++ Text.str Text.TAB ++ vs ++ "," ++ Text.str Text.LF.

(** The text of a slice of boot indexes at an address, at depth zero. *)
Definition order_text (p : Printer) (addr : Z) (order : list Z) : string :=
  let T := colorizeType p "[]efibootctl.BootIndex" in
  let len := List.length order in
  if addr =? 0 then typeset (T ++ "(" ++ Colorize p "nil" NilColor ++ ")")
  else if Nat.eqb len 0 then typeset (T ++ "{}")
  else if 1024 <? Z.of_nat len then typeset (T ++ "{...}")
  else if Z.of_nat len <? 8 then
    "{" ++ String.concat ", " (List.map (index_text p) order) ++ "}"
  else
    typeset ("{" ++ Text.str Text.LF
             ++ rows (Text.str Text.TAB) 8 len 0 (List.map (index_text p) order)
             ++ "}").

(** The text of a string: what [Format] returns for it. *)
Definition string_text (env : Env) (p : Printer) (s : string) : string :=
  match Format env (reflect.MkStore ∅ ∅ ∅) 1
          (reflect.ValueOf (reflect.VString cli.string_type s)) p with
  | Ok (t, _) => t
  | _ => ""
  end.

(** The printer of the command. *)
Definition command_printer : Printer :=
  NewPrinter (reflect.ValueOf (reflect.VString cli.string_type ""))
             (Some DefaultScheme) true true true.

Section Report.
Context {error : Type}.
Variable isNotFound : error -> bool.
Variable Error : error -> string.
Variable ActiveAttribute : Z.
Variable env : Env.

(** The first of the four reads that fails; a next boot entry that is
    not found is no failure. *)
Definition later_failure (fw : @cli.Firmware error) : option error :=
  match cli.BootCurrent_Get fw with
  | inl e => Some e
  | inr _ =>
      match cli.BootOrder_Get fw with
      | inl e => Some e
      | inr _ =>
          match cli.BootIterator fw with
          | inl e => Some e
          | inr _ => None
          end
      end
  end.

Definition failure (fw : @cli.Firmware error) : option error :=
  match cli.BootNext_Get fw with
  | inl e => if isNotFound e then later_failure fw else Some e
  | inr _ => later_failure fw
  end.

(** The line of a boot entry that can be read, and the complaint about
    one that cannot. *)
Definition entry_line (be : @cli.BootEntry error) : string :=
  match cli.Variable_Get be with
  | inl _ => ""
  | inr lo =>
      field_text command_printer
        ("Boot" ++ Text.fmt_0X 4 (cli.Index be)
         ++ (if Z.land (cli.Attributes lo) ActiveAttribute =? 0 then "" else "*"))
        (string_text env command_printer (cli.DescriptionString lo))
  end.

Definition entry_complaint (be : @cli.BootEntry error) : string :=
  match cli.Variable_Get be with
  | inl e => "error: " ++ Error e ++ Text.str Text.LF
  | inr _ => ""
  end.

(** The report of the command: the next entry when there is one, the
    current entry, the order, and the entries. *)
Definition report (fw : @cli.Firmware error) : string :=
  match cli.BootNext_Get fw with
  | inr i => field_text command_printer "BootNext" (index_text command_printer i)
  | inl _ => ""
  end
  ++ match cli.BootCurrent_Get fw with
     | inr i => field_text command_printer "BootCurrent" (index_text command_printer i)
     | inl _ => ""
     end
  ++ match cli.BootOrder_Get fw with
     | inr order =>
         field_text command_printer "BootOrder"
           (order_text command_printer (cli.To_address fw) order)
     | inl _ => ""
     end
  ++ match cli.BootIterator fw with
     | inr it => Text.concat (List.map entry_line it)
     | inl _ => ""
     end.

Definition complaints (fw : @cli.Firmware error) : string :=
  match cli.BootIterator fw with
  | inr it => Text.concat (List.map entry_complaint it)
  | inl _ => ""
  end.
End Report.

(** A machine whose next boot entry is not set, with four boot entries of
    which one cannot be read and one is not active; and a machine whose
    current boot entry cannot be read and whose context fails to close. *)
Module Machine.
Definition isNotFound (e : string) : bool := String.eqb e "not found".
Definition Error (e : string) : string := e.

Definition firmware : @cli.Firmware string :=
  cli.MkFirmware (inl "not found") (inr 1) (inr [1; 0])
    (inr [cli.MkBootEntry 1 (inr (cli.MkLoadOption 1 "ArchLinux"));
          cli.MkBootEntry 0 (inr (cli.MkLoadOption 1 "Windows Boot Manager"));
          cli.MkBootEntry 2 (inl "input/output error");
          cli.MkBootEntry 3 (inr (cli.MkLoadOption 0 "Setup"))])
    None None 400.

Definition locked : @cli.Firmware string :=
  cli.MkFirmware (inr 2) (inl "permission denied") (inr []) (inr [])
    (Some "busy") None 0.
End Machine.

(* ===================================================================== *)
(** * Text and the column aligner *)
(* ===================================================================== *)

Lemma sapp_cons (x : ascii) (a b : string) : String x a ++ b = String x (a ++ b).
Proof. reflexivity. Qed.

Lemma sapp_nil_l (a : string) : "" ++ a = a.
Proof. reflexivity. Qed.

Lemma sapp_assoc (a b c : string) : (a ++ b) ++ c = a ++ (b ++ c).
Proof.
  induction a as [|x a IH]; [reflexivity|].
  rewrite !sapp_cons. now rewrite IH.
Qed.

Lemma sapp_nil_r (a : string) : a ++ "" = a.
Proof.
  induction a as [|x a IH]; [reflexivity|].
  rewrite sapp_cons. now rewrite IH.
Qed.

Lemma slength_app (a b : string) :
  String.length (a ++ b) = (String.length a + String.length b)%nat.
Proof.
  induction a as [|x a IH]; [reflexivity|].
  rewrite sapp_cons. simpl. now rewrite IH.
Qed.

Lemma plain_app a b : Text.plain (a ++ b) = Text.plain a && Text.plain b.
Proof.
  induction a as [|x a IH]; [reflexivity|].
  rewrite sapp_cons. simpl. rewrite IH. now rewrite andb_assoc.
Qed.

Lemma writeByte_plain c b :
  Text.tw_special c = false -> tabwriter.endChar b = false ->
  tabwriter.writeByte c b = ("", tabwriter.append c b).
Proof.
  intros Hc Hb. unfold tabwriter.writeByte. rewrite Hb.
  unfold Text.tw_special in Hc.
  repeat (apply orb_false_elim in Hc; destruct Hc as [Hc ?]).
  repeat match goal with H : Ascii.eqb _ _ = false |- _ => rewrite H; clear H end.
  reflexivity.
Qed.

Lemma Write_plain s : forall b,
  Text.plain s = true -> tabwriter.endChar b = false ->
  tabwriter.Write s b =
    ("", tabwriter.MkWriter (tabwriter.buf b ++ s) (tabwriter.pend b ++ s)
           (tabwriter.cwidth b) false (tabwriter.lines b) (tabwriter.line b)).
Proof.
  induction s as [|c s IH]; intros b Hs Hb; simpl in *.
  - rewrite !sapp_nil_r. destruct b; simpl in *; subst; reflexivity.
  - apply andb_true_iff in Hs as [Hc Hs]. apply negb_true_iff in Hc.
    rewrite (writeByte_plain _ _ Hc Hb).
    rewrite IH by (auto). simpl.
    rewrite !sapp_assoc. reflexivity.
Qed.

(** Text without tabs, line breaks and escapes passes the aligner as it
    is. *)
Lemma typeset_plain s : Text.plain s = true -> typeset s = s.
Proof.
  intros Hs. unfold typeset. rewrite Write_plain by (auto). simpl.
  unfold tabwriter.flush. simpl.
  destruct s as [|c s]; [reflexivity|].
  simpl. unfold tabwriter.writeLine. simpl.
  now rewrite !sapp_nil_l, !sapp_nil_r.
Qed.

(* ===================================================================== *)
(** * Unfolding [Format] *)
(* ===================================================================== *)

Ltac munfold := unfold bind, gets, lift, ret, modify, throw, starve, id.

Lemma Format_body_unfold env h rec object p :
  Format_body env h rec object p =
  match dispatch env h rec (subPrinter p object) with
  | Ok (_, pp') => Ok (fst (Printer_String pp'), set_visited p (visited pp'))
  | Panic msg => Panic msg
  | OutOfFuel => OutOfFuel
  end.
Proof.
  unfold Format_body. fold (subPrinter p object).
  destruct (dispatch env h rec (subPrinter p object)) as [[[] pp']| |]; reflexivity.
Qed.

Lemma Colorize_ext p q : colorScheme p = colorScheme q -> Colorize p = Colorize q.
Proof. intros E. unfold Colorize. now rewrite E. Qed.

Lemma colorizeType_ext p q t :
  colorScheme p = colorScheme q -> colorizeType p t = colorizeType q t.
Proof. intros E. unfold colorizeType. now rewrite (Colorize_ext p q E). Qed.

Lemma Print_typeset s pp :
  tw pp = tabwriter.reset -> Buffer pp = "" ->
  exists pp', Print s pp = Ok (tt, pp')
              /\ fst (Printer_String pp') = typeset s
              /\ visited pp' = visited pp.
Proof.
  intros Ht Hb. unfold Print, Printer_String, typeset. rewrite Ht, Hb.
  destruct (tabwriter.Write s tabwriter.reset) as [o w]. cbn.
  eexists. split; [reflexivity|].
  destruct (tabwriter.flush w) as [o' w']. cbn. split; reflexivity.
Qed.

(** The object is dispatched on its kind when it can be turned into an
    interface and has no [PrettyPrint] method. *)
Lemma dispatch_kind env h rec pp x :
  reflect.Interface_ (value pp) = Ok x ->
  prettyPrinter env x = None ->
  dispatch env h rec pp =
  match reflect.Kind_ (value pp) with
  | reflect.Bool => (let* r := raw env in ColorPrint r BoolColor) pp
  | reflect.Int | reflect.Int8 | reflect.Int16 | reflect.Int32
  | reflect.Int64 | reflect.Uint | reflect.Uint8 | reflect.Uint16
  | reflect.Uint32 | reflect.Uint64 | reflect.Uintptr
  | reflect.Complex64 | reflect.Complex128 =>
      (let* r := raw env in ColorPrint r IntegerColor) pp
  | reflect.Float32 | reflect.Float64 =>
      (let* r := raw env in ColorPrint r FloatColor) pp
  | reflect.String => printString env pp
  | reflect.Map => printMap h rec pp
  | reflect.Struct => printStruct env rec pp
  | reflect.Array | reflect.Slice => printSlice h rec pp
  | reflect.Chan =>
      (let* ts := typeString in
       let* a := pointerAddr in Print ("(" ++ ts ++ ")(" ++ a ++ ")")) pp
  | reflect.Interface => printInterface h rec pp
  | reflect.Ptr => printPtr h rec pp
  | reflect.Func => (let* ts := typeString in Print (ts ++ " {...}")) pp
  | reflect.UnsafePointer =>
      (let* ts := typeString in
       let* a := pointerAddr in Print (ts ++ "(" ++ a ++ ")")) pp
  | reflect.Invalid => (let* n := nil_ in Print n) pp
  end.
Proof.
  intros HI HP. unfold dispatch.
  unfold bind at 1. unfold gets at 1. unfold id.
  unfold bind at 1. unfold lift at 1. rewrite HI, HP.
  destruct (reflect.Kind_ (value pp)); reflexivity.
Qed.

Lemma Interface_ValueOf x :
  x <> reflect.VInvalid ->
  reflect.Interface_ (reflect.ValueOf x) =
  Ok (match x with reflect.VInterface _ e => e | _ => x end).
Proof. intros H. destruct x; try reflexivity. congruence. Qed.

(* ===================================================================== *)
(** * The visited set only grows *)
(* ===================================================================== *)

Lemma grows_refl v : grows v v.
Proof. intros a H. exact H. Qed.

Lemma grows_trans u v w : grows u v -> grows v w -> grows u w.
Proof. intros H1 H2 a H. auto. Qed.

Lemma seen_insert v a b : seen (<[a := true]> v) b = (b =? a) || seen v b.
Proof.
  unfold seen. destruct (Z.eqb_spec b a) as [->|Hne].
  - now rewrite lookup_insert_eq.
  - rewrite lookup_insert_ne by congruence. reflexivity.
Qed.

Lemma grows_insert v a : grows v (<[a := true]> v).
Proof. intros b H. rewrite seen_insert, H. apply orb_true_r. Qed.

Lemma keeps_ret {A} (a : A) : keeps (ret a).
Proof. intros p x p' H. inversion H; subst. apply grows_refl. Qed.

Lemma keeps_gets {A} (f : Printer -> A) : keeps (gets f).
Proof. intros p x p' H. inversion H; subst. apply grows_refl. Qed.

Lemma keeps_lift {A} (r : Res A) : keeps (lift r).
Proof.
  intros p x p' H. unfold lift in H. destruct r; inversion H; subst.
  apply grows_refl.
Qed.

Lemma keeps_throw {A} msg : keeps (@throw A msg).
Proof. intros p x p' H. discriminate. Qed.

Lemma keeps_starve {A} : keeps (@starve A).
Proof. intros p x p' H. discriminate. Qed.

Lemma keeps_bind {A B} (m : M A) (k : A -> M B) :
  keeps m -> (forall a, keeps (k a)) -> keeps (bind m k).
Proof.
  intros Hm Hk p b p' H. unfold bind in H.
  destruct (m p) as [[a q]| |] eqn:E; try discriminate.
  eapply grows_trans; [eapply Hm; eauto | eapply Hk; eauto].
Qed.

Lemma keeps_Print s : keeps (Print s).
Proof.
  intros p x p' H. unfold Print in H.
  destruct (tabwriter.Write s (tw p)). inversion H; subst. apply grows_refl.
Qed.

Lemma keeps_Indent : keeps Indent.
Proof.
  intros p x p' H. unfold Indent in H.
  destruct (depth p <? 0); inversion H; subst. apply grows_refl.
Qed.

Lemma keeps_set_depth f : keeps (modify (fun p => set_depth p (f p))).
Proof. intros p x p' H. inversion H; subst. apply grows_refl. Qed.

Lemma keeps_mark a : keeps (mark a).
Proof. intros p x p' H. inversion H; subst. apply grows_insert. Qed.

Lemma keeps_forM_ {A} (l : list A) (f : A -> M unit) :
  (forall x, keeps (f x)) -> keeps (forM_ l f).
Proof.
  intros Hf. induction l as [|x l IH]; simpl.
  - apply keeps_ret.
  - apply keeps_bind; auto.
Qed.

Ltac keeps_step :=
  first
    [ apply keeps_ret | apply keeps_gets | apply keeps_lift | apply keeps_throw
    | apply keeps_starve | apply keeps_Print | apply keeps_Indent
    | apply keeps_set_depth | apply keeps_mark
    | apply keeps_forM_; intros ?
    | apply keeps_bind; [|intros ?]
    | assumption
    | match goal with
      | |- keeps (if ?c then _ else _) => destruct c
      | |- keeps (match ?x with _ => _ end) => destruct x
      end ].

Ltac keeps_auto := repeat keeps_step.

Lemma keeps_printString_loop fuel : forall quoted, keeps (printString_loop fuel quoted).
Proof.
  induction fuel as [|f IH]; intros quoted; simpl.
  - apply keeps_starve.
  - unfold ColorPrint. keeps_auto. apply IH.
Qed.

Section Keeps.
Variable env : Env.
Variable h : reflect.Store.
Variable rec : reflect.Value -> M string.
Hypothesis Hrec : forall v, keeps (rec v).

Lemma keeps_typeString : keeps typeString.
Proof. unfold typeString. keeps_auto. Qed.

Lemma keeps_raw : keeps (raw env).
Proof.
  unfold raw, fmtOrLocalizedSprintf_int, fmtOrLocalizedSprintf_uint,
    fmtOrLocalizedSprintf_f. keeps_auto.
Qed.

Lemma keeps_dispatch : keeps (dispatch env h rec).
Proof.
  pose proof keeps_typeString. pose proof keeps_raw.
  unfold dispatch. apply keeps_bind; [apply keeps_gets|intros pp].
  apply keeps_bind; [apply keeps_lift|intros x].
  destruct (prettyPrinter env x).
  { apply keeps_forM_. intros []; unfold runOp, ColorPrint, IndentPrint; keeps_auto. }
  destruct (reflect.Kind_ (value pp)).
  all: unfold printString, printMap, printStruct, printSlice, printInterface,
         printPtr, printTime, indented, ColorPrint, IndentPrint, Println,
         pointerAddr, nil_, elemTypeString.
  all: keeps_auto.
  all: try apply keeps_printString_loop.
  all: try apply Hrec.
Qed.
End Keeps.

(** [Format] returns the printer it was called on with a visited set that
    has grown, and nothing else changed. *)
Lemma Format_frame env h n : forall v p s p',
  Format env h n v p = Ok (s, p') ->
  p' = set_visited p (visited p') /\ grows (visited p) (visited p').
Proof.
  induction n as [|n IH]; intros v p s p' H; simpl in H; [discriminate|].
  rewrite Format_body_unfold in H.
  destruct (dispatch env h (Format env h n) (subPrinter p v)) as [[[] pp']| |] eqn:E;
    try discriminate.
  inversion H; subst. split; [destruct p; reflexivity|].
  apply keeps_dispatch in E.
  - exact E.
  - intros v' q a q' Hq. apply IH in Hq. tauto.
Qed.

(* ===================================================================== *)
(** * The weight of the unvisited store *)
(* ===================================================================== *)

Lemma sum_list_with_le {A} (f g : A -> nat) (l : list A) :
  (forall x, x ∈ l -> (f x <= g x)%nat) ->
  (sum_list_with f l <= sum_list_with g l)%nat.
Proof.
  induction l as [|x l IH]; intros H; simpl; [lia|].
  assert (f x <= g x)%nat by (apply H; left).
  assert (sum_list_with f l <= sum_list_with g l)%nat
    by (apply IH; intros y Hy; apply H; now right).
  lia.
Qed.

Lemma unseen_grows {X} (w : X -> nat) (m : gmap Z X) v v' :
  grows v v' -> (unseen v' w m <= unseen v w m)%nat.
Proof.
  intros G. unfold unseen. apply sum_list_with_le. intros [a x] _. simpl.
  destruct (seen v a) eqn:E.
  - now rewrite (G a E).
  - destruct (seen v' a); lia.
Qed.

Lemma unseen_insert {X} (w : X -> nat) (m : gmap Z X) v a x :
  m !! a = Some x -> seen v a = false ->
  (unseen (<[a := true]> v) w m + w x <= unseen v w m)%nat.
Proof.
  intros Hm Hs. unfold unseen.
  rewrite <- (map_to_list_delete m a x Hm). simpl.
  rewrite Hs, seen_insert, Z.eqb_refl. simpl.
  assert (sum_list_with
            (fun ax : Z * X => if seen (<[a:=true]> v) ax.1 then 0%nat else w ax.2)
            (map_to_list (delete a m))
          <= sum_list_with (fun ax : Z * X => if seen v ax.1 then 0%nat else w ax.2)
               (map_to_list (delete a m)))%nat.
  { apply sum_list_with_le. intros [b y] _. simpl. rewrite seen_insert.
    destruct (b =? a); simpl; [lia|]. destruct (seen v b); lia. }
  lia.
Qed.

Lemma unvisited_grows h v v' : grows v v' -> (unvisited h v' <= unvisited h v)%nat.
Proof.
  intros G. unfold unvisited.
  pose proof (unseen_grows weight_entries (reflect.maps h) v v' G).
  pose proof (unseen_grows weight_elems (reflect.arrays h) v v' G).
  pose proof (unseen_grows weight_cell (reflect.cells h) v v' G).
  lia.
Qed.

Lemma unvisited_mark_map h v a es :
  reflect.maps h !! a = Some es -> seen v a = false ->
  (unvisited h (<[a := true]> v) + weight_entries es <= unvisited h v)%nat.
Proof.
  intros Hm Hs. unfold unvisited.
  pose proof (unseen_insert weight_entries _ v a es Hm Hs).
  pose proof (unseen_grows weight_elems (reflect.arrays h) v _ (grows_insert v a)).
  pose proof (unseen_grows weight_cell (reflect.cells h) v _ (grows_insert v a)).
  lia.
Qed.

Lemma unvisited_mark_array h v a es :
  reflect.arrays h !! a = Some es -> seen v a = false ->
  (unvisited h (<[a := true]> v) + weight_elems es <= unvisited h v)%nat.
Proof.
  intros Hm Hs. unfold unvisited.
  pose proof (unseen_insert weight_elems _ v a es Hm Hs).
  pose proof (unseen_grows weight_entries (reflect.maps h) v _ (grows_insert v a)).
  pose proof (unseen_grows weight_cell (reflect.cells h) v _ (grows_insert v a)).
  lia.
Qed.

Lemma unvisited_mark_cell h v a x :
  reflect.cells h !! a = Some x -> seen v a = false ->
  (unvisited h (<[a := true]> v) + weight_cell x <= unvisited h v)%nat.
Proof.
  intros Hm Hs. unfold unvisited.
  pose proof (unseen_insert weight_cell _ v a x Hm Hs).
  pose proof (unseen_grows weight_entries (reflect.maps h) v _ (grows_insert v a)).
  pose proof (unseen_grows weight_elems (reflect.arrays h) v _ (grows_insert v a)).
  lia.
Qed.

(* ===================================================================== *)
(** * The stable sort *)
(* ===================================================================== *)

Section StableSort.
Context {A : Type}.
Variable less : A -> A -> bool.

Lemma sink_perm x before : sort.sink less x before ≡ₚ x :: before.
Proof.
  induction before as [|y r IH]; simpl; [reflexivity|].
  destruct (less x y); [|reflexivity].
  rewrite IH. apply Permutation_swap.
Qed.

Lemma sink_fold_perm l : forall before,
  fold_left (fun b x => sort.sink less x b) l before ≡ₚ (l ++ before)%list.
Proof.
  induction l as [|x l IH]; intros before; simpl; [reflexivity|].
  rewrite IH, sink_perm. symmetry. apply Permutation_middle.
Qed.

Lemma Stable_perm l : sort.Stable less l ≡ₚ l.
Proof.
  unfold sort.Stable, sort.insertionSort.
  rewrite <- Permutation_rev, sink_fold_perm. now rewrite app_nil_r.
Qed.

Lemma Stable_elem_of x l : x ∈ sort.Stable less l <-> x ∈ l.
Proof. now rewrite Stable_perm. Qed.

(** ** Stability *)

Variable sel : A -> bool.

Lemma sink_filter x before :
  (sel x = true -> forall y, y ∈ before -> sel y = true -> less x y = false) ->
  List.filter sel (sort.sink less x before)
  = ((if sel x then [x] else []) ++ List.filter sel before)%list.
Proof.
  induction before as [|y r IH]; intros H; simpl.
  - destruct (sel x); reflexivity.
  - destruct (less x y) eqn:E.
    + simpl. rewrite IH.
      2:{ intros Hx z Hz Sz. apply H; [exact Hx|right; exact Hz|exact Sz]. }
      destruct (sel y) eqn:Sy; [|reflexivity].
      destruct (sel x) eqn:Sx; simpl; [|reflexivity].
      assert (less x y = false) by (apply H; [reflexivity|left|exact Sy]).
      congruence.
    + simpl. destruct (sel x); reflexivity.
Qed.

Lemma fold_sink_filter l : forall before,
  ForallOrdPairs (keeps_order less sel) l ->
  (forall x y, x ∈ l -> y ∈ before -> keeps_order less sel y x) ->
  List.filter sel (fold_left (fun b x => sort.sink less x b) l before)
  = (rev (List.filter sel l) ++ List.filter sel before)%list.
Proof.
  induction l as [|x l IH]; intros before HP HB; simpl; [reflexivity|].
  inversion HP as [|? ? Hx HP']; subst.
  rewrite IH; [| exact HP' |].
  - rewrite sink_filter.
    + destruct (sel x); simpl; [|reflexivity].
      now rewrite <- app_assoc.
    + intros Sx y Hy Sy. apply (HB x y); auto. left.
  - intros z y Hz Hy. rewrite sink_perm in Hy.
    apply elem_of_cons in Hy as [->|Hy].
    + rewrite Forall_forall in Hx. apply Hx. exact Hz.
    + apply HB; [now right|exact Hy].
Qed.

Lemma filter_rev (l : list A) : List.filter sel (rev l) = rev (List.filter sel l).
Proof.
  induction l as [|x l IH]; simpl; [reflexivity|].
  rewrite List.filter_app, IH. simpl. destruct (sel x); simpl; [reflexivity|].
  now rewrite app_nil_r.
Qed.

(** Entries of which none is less than one that comes before it keep
    their order. *)
Lemma Stable_stable l :
  ForallOrdPairs (keeps_order less sel) l ->
  List.filter sel (sort.Stable less l) = List.filter sel l.
Proof.
  intros H. unfold sort.Stable, sort.insertionSort.
  rewrite filter_rev, fold_sink_filter; [| exact H |].
  - simpl. rewrite app_nil_r. apply rev_involutive.
  - intros x y _ Hy. inversion Hy.
Qed.
End StableSort.

Section Sorted.
Context {A : Type}.
Variable less : A -> A -> bool.

Lemma sink_sorted l x before :
  strict_total less l -> x ∈ l -> (forall y, y ∈ before -> y ∈ l) ->
  x ∉ before ->
  StronglySorted (descending less) before -> StronglySorted (descending less) (sort.sink less x before).
Proof.
  intros ST Hx. induction before as [|y r IH]; intros Hin Hn HS; simpl.
  - constructor; constructor.
  - inversion HS as [|? ? HS' Hall]; subst.
    assert (x <> y) by (intros ->; apply Hn; left).
    destruct (less x y) eqn:E.
    + constructor.
      * apply IH; auto.
        -- intros z Hz. apply Hin. now right.
        -- intros Hr. apply Hn. now right.
      * apply Forall_forall. intros z Hz.
        rewrite sink_perm in Hz.
        apply elem_of_cons in Hz as [->|Hz]; [exact E|].
        rewrite Forall_forall in Hall. apply Hall. exact Hz.
    + assert (Hyx : less y x = true).
      { destruct (st_total less l ST x y) as [C|C]; auto.
        - apply Hin; left.
        - congruence. }
      constructor; [exact HS|].
      constructor; [exact Hyx|].
      apply Forall_forall. intros z Hz.
      rewrite Forall_forall in Hall. specialize (Hall z Hz).
      apply (st_trans less l ST z y x); auto.
      * apply Hin. now right.
      * apply Hin. left.
Qed.

Lemma fold_sink_sorted l0 l : forall before,
  strict_total less l0 -> NoDup (l ++ before) ->
  (forall y, y ∈ (l ++ before)%list -> y ∈ l0) ->
  StronglySorted (descending less) before ->
  StronglySorted (descending less) (fold_left (fun b x => sort.sink less x b) l before).
Proof.
  induction l as [|x l IH]; intros before ST ND Hin HS; simpl; [exact HS|].
  simpl in ND. apply NoDup_cons in ND as [Hx ND].
  apply IH; auto.
  - rewrite sink_perm. rewrite <- Permutation_middle.
    apply NoDup_cons. split; [exact Hx| exact ND].
  - intros y Hy. apply Hin. rewrite sink_perm in Hy.
    rewrite <- Permutation_middle in Hy. exact Hy.
  - apply (sink_sorted l0); auto.
    + apply Hin. left.
    + intros y Hy. apply Hin. right. apply elem_of_app. now right.
    + intros Hb. apply Hx. apply elem_of_app. now right.
Qed.

Lemma StronglySorted_rev (R : A -> A -> Prop) l :
  StronglySorted (fun x y => R y x) l -> StronglySorted R (rev l).
Proof.
  induction 1 as [|x l HS IH Hall]; simpl; [constructor|].
  clear HS. revert IH. generalize (rev_involutive l).
  assert (Hall' : Forall (fun y => R y x) (rev l)).
  { apply Forall_forall. intros y Hy. apply list_elem_of_In, in_rev in Hy.
    rewrite Forall_forall in Hall. apply Hall. now apply list_elem_of_In. }
  clear Hall. intros _. revert Hall'. generalize (rev l). clear l.
  intros l Hall IH. induction IH as [|y l HS IH' Hy]; simpl.
  - constructor; constructor.
  - inversion Hall; subst. constructor; auto.
    apply Forall_app. split; [exact Hy|]. constructor; [assumption|constructor].
Qed.

Lemma Stable_sorted l :
  strict_total less l -> NoDup l -> StronglySorted (ascending less) (sort.Stable less l).
Proof.
  intros ST ND. unfold sort.Stable, sort.insertionSort.
  apply StronglySorted_rev. apply (fold_sink_sorted l); auto.
  - now rewrite app_nil_r.
  - intros y Hy. now rewrite app_nil_r in Hy.
  - constructor.
Qed.

Lemma sorted_unique l0 l1 : forall l2,
  strict_total less l0 -> (forall x, x ∈ l1 -> x ∈ l0) ->
  StronglySorted (ascending less) l1 -> StronglySorted (ascending less) l2 -> l1 ≡ₚ l2 -> l1 = l2.
Proof.
  induction l1 as [|a l1 IH]; intros l2 ST Hin S1 S2 HP.
  - apply Permutation_nil_l in HP. now subst.
  - destruct l2 as [|b l2].
    { symmetry in HP. apply Permutation_nil_l in HP. discriminate. }
    inversion S1 as [|? ? S1' H1]; subst.
    inversion S2 as [|? ? S2' H2]; subst.
    assert (a = b).
    { assert (Ha : a ∈ b :: l2) by (rewrite <- HP; left).
      assert (Hb : b ∈ a :: l1) by (rewrite HP; left).
      apply elem_of_cons in Ha as [->|Ha]; [reflexivity|].
      apply elem_of_cons in Hb as [->|Hb]; [reflexivity|].
      rewrite Forall_forall in H1, H2.
      specialize (H1 b Hb). specialize (H2 a Ha). unfold ascending in *.
      assert (less a a = true).
      { apply (st_trans less l0 ST a b a); auto.
        - apply Hin; left.
        - apply Hin. right. exact Hb.
        - apply Hin; left. }
      rewrite (st_irrefl less l0 ST a) in H by (apply Hin; left). discriminate. }
    subst b. f_equal. apply IH; auto.
    + intros x Hx. apply Hin. now right.
    + eapply Permutation_cons_inv. exact HP.
Qed.

(** The sorted list does not depend on the order of the input when [less]
    orders its elements strictly and totally. *)
Lemma Stable_unique l l' :
  strict_total less l -> NoDup l -> l ≡ₚ l' ->
  sort.Stable less l = sort.Stable less l'.
Proof.
  intros ST ND HP.
  assert (ST' : strict_total less l').
  { destruct ST as [I T O]. split.
    - intros x Hx. apply I. now rewrite HP.
    - intros x y z Hx Hy Hz. apply T; now rewrite HP.
    - intros x y Hx Hy. apply O; now rewrite HP. }
  apply (sorted_unique l).
  - exact ST.
  - intros x Hx. now rewrite Stable_perm in Hx.
  - now apply Stable_sorted.
  - apply Stable_sorted; [exact ST'|]. now rewrite <- HP.
  - now rewrite !Stable_perm.
Qed.
End Sorted.

(* ===================================================================== *)
(** * Calls that need no fuel *)
(* ===================================================================== *)

Ltac total_auto :=
  unfold total; intros;
  repeat match goal with
         | |- context [match ?x with _ => _ end] => destruct x
         end;
  try congruence.

Lemma total_res_bind {A B} (r : Res A) (k : A -> Res B) :
  total r -> (forall a, total (k a)) -> total (res_bind r k).
Proof. unfold total. intros Hr Hk. destruct r; simpl; auto. Qed.

Lemma total_Type_String v : total (reflect.Type_String v).
Proof. unfold reflect.Type_String. total_auto. Qed.
Lemma total_Type_PkgPath v : total (reflect.Type_PkgPath v).
Proof. unfold reflect.Type_PkgPath. total_auto. Qed.
Lemma total_CanInterface v : total (reflect.CanInterface v).
Proof. unfold reflect.CanInterface. total_auto. Qed.
Lemma total_Interface v : total (reflect.Interface_ v).
Proof. unfold reflect.Interface_. total_auto. Qed.
Lemma total_Pointer v : total (reflect.Pointer v).
Proof. unfold reflect.Pointer. total_auto. Qed.
Lemma total_IsNil v : total (reflect.IsNil v).
Proof. unfold reflect.IsNil. total_auto. Qed.
Lemma total_entries h p : total (reflect.entries h p).
Proof. unfold reflect.entries, reflect.fault. total_auto. Qed.
Lemma total_elements h p n : total (reflect.elements h p n).
Proof. unfold reflect.elements, reflect.fault. total_auto. Qed.
Lemma total_Len h v : total (reflect.Len h v).
Proof.
  unfold reflect.Len. destruct (reflect.it v); try discriminate.
  apply total_res_bind; [apply total_entries|discriminate].
Qed.
Lemma total_Indexes h v : total (reflect.Indexes h v).
Proof.
  unfold reflect.Indexes. destruct (reflect.it v); try discriminate.
  apply total_res_bind; [apply total_elements|discriminate].
Qed.
Lemma total_Elem h v : total (reflect.Elem h v).
Proof. unfold reflect.Elem, reflect.fault. total_auto. Qed.
Lemma total_Fields v : total (reflect.Fields v).
Proof. unfold reflect.Fields. total_auto. Qed.
Lemma total_MapKeys h v : total (reflect.MapKeys h v).
Proof.
  unfold reflect.MapKeys. destruct (reflect.it v); try discriminate.
  apply total_res_bind; [apply total_entries|].
  intros es. unfold reflect.fault. total_auto.
Qed.
Lemma total_MapIndex h v k : total (reflect.MapIndex h v k).
Proof.
  unfold reflect.MapIndex. destruct (reflect.it v); try discriminate.
  apply total_res_bind; [apply total_entries|].
  intros es. total_auto.
Qed.
Lemma total_collect h v ks : total (collect h v ks).
Proof.
  induction ks as [|k ks IH]; simpl; [discriminate|].
  apply total_res_bind; [apply total_MapIndex|]. intros x.
  apply total_res_bind; [exact IH|discriminate].
Qed.
Lemma total_sortMap h v : total (sortMap h v).
Proof.
  unfold sortMap. destruct (reflect.Kind_ v); try discriminate.
  apply total_res_bind; [apply total_MapKeys|]. intros ks.
  apply total_res_bind; [apply total_collect|discriminate].
Qed.
Lemma total_stringGroupSize h i : total (stringGroupSize h i).
Proof.
  unfold stringGroupSize.
  repeat match goal with
         | |- total (match ?x with _ => _ end) => destruct x; try discriminate
         | |- total (if ?x then _ else _) => destruct x; try discriminate
         end.
  apply total_res_bind; [apply total_elements|]. intros es.
  assert (G : forall acc, total acc ->
            total (fold_left
              (fun (acc : Res Z) (e : reflect.val) =>
                 res_bind acc (fun max : Z =>
                   match e with
                   | reflect.VString _ s =>
                       Ok (if max <? Text.slen s then Text.slen s else max)
                   | _ => reflect.fault
                   end)) es acc)).
  { induction es as [|e es IH]; intros acc Hacc; simpl; [exact Hacc|].
    apply IH. apply total_res_bind; [exact Hacc|].
    intros m. unfold reflect.fault. total_auto. }
  apply G. discriminate.
Qed.
Lemma total_groupSizeOf h p : total (groupSizeOf h p).
Proof.
  unfold groupSizeOf.
  repeat match goal with
         | |- total (match ?x with _ => _ end) => destruct x; try discriminate
         end.
  all: apply total_res_bind; [apply total_Interface|]; intros i.
  all: apply total_res_bind; [apply total_stringGroupSize|]; intros m.
  all: total_auto.
Qed.

Create HintDb total.
#[export] Hint Resolve total_Type_String total_Type_PkgPath total_CanInterface
  total_Interface total_Pointer total_IsNil total_Len total_Indexes total_Elem
  total_Fields total_sortMap total_groupSizeOf : total.

(* ===================================================================== *)
(** * Methods that have the fuel they need *)
(* ===================================================================== *)

Section Good.
Variable h : reflect.Store.
Variable B : nat.

Lemma good_ret {A} (a : A) : good h B (ret a).
Proof. intros p Hp. exact Hp. Qed.
Lemma good_gets {A} (f : Printer -> A) : good h B (gets f).
Proof. intros p Hp. exact Hp. Qed.
Lemma good_throw {A} msg : good h B (@throw A msg).
Proof. intros p Hp. exact I. Qed.
Lemma good_lift {A} (r : Res A) : total r -> good h B (lift r).
Proof.
  intros Hr p Hp. unfold good_at, lift. destruct r; auto.
Qed.
Lemma good_Print s : good h B (Print s).
Proof.
  intros p Hp. unfold good_at, Print.
  destruct (tabwriter.Write s (tw p)). exact Hp.
Qed.
Lemma good_Indent : good h B Indent.
Proof.
  intros p Hp. unfold good_at, Indent. destruct (depth p <? 0); auto.
Qed.
Lemma good_set_depth f : good h B (modify (fun p => set_depth p (f p))).
Proof. intros p Hp. exact Hp. Qed.
Lemma good_mark a : good h B (mark a).
Proof.
  intros p Hp. unfold good_at, mark, modify. simpl.
  pose proof (unvisited_grows h _ _ (grows_insert (visited p) a)). lia.
Qed.
Lemma good_bind {A C} (m : M A) (k : A -> M C) :
  good h B m -> (forall a, good h B (k a)) -> good h B (bind m k).
Proof.
  intros Hm Hk p Hp. specialize (Hm p Hp). unfold good_at, bind in *.
  destruct (m p) as [[a q]| |]; auto. apply (Hk a q Hm).
Qed.
Lemma good_bind_lift {A C} (r : Res A) (k : A -> M C) :
  total r -> (forall a, r = Ok a -> good h B (k a)) -> good h B (bind (lift r) k).
Proof.
  intros Hr Hk p Hp. unfold good_at, bind, lift.
  destruct r; auto. apply (Hk a eq_refl p Hp).
Qed.
Lemma good_forM_ {A} (l : list A) (f : A -> M unit) :
  (forall x, x ∈ l -> good h B (f x)) -> good h B (forM_ l f).
Proof.
  induction l as [|x l IH]; intros Hf; simpl.
  - apply good_ret.
  - apply good_bind; [apply Hf; left|]. intros _. apply IH.
    intros y Hy. apply Hf. now right.
Qed.
End Good.

Lemma good_at_weaken {A} h B B' (m : M A) p :
  good h B' m -> (unvisited h (visited p) <= B')%nat -> (B' <= B)%nat ->
  good_at h B m p.
Proof.
  intros Hm Hp HB. specialize (Hm p Hp). unfold good_at in *.
  destruct (m p) as [[a q]| |]; auto. lia.
Qed.

Lemma good_at_gets_bind {A C} h B (f : Printer -> A) (k : A -> M C) p :
  good_at h B (k (f p)) p -> good_at h B (bind (gets f) k) p.
Proof. intros H. exact H. Qed.

Lemma good_at_lift_bind {A C} h B (r : Res A) (k : A -> M C) p :
  total r -> (forall a, r = Ok a -> good_at h B (k a) p) ->
  good_at h B (bind (lift r) k) p.
Proof.
  intros Hr Hk. unfold good_at, bind, lift. destruct r; auto.
  apply (Hk a eq_refl).
Qed.

Lemma good_at_mark_bind {C} h B B' a (k : unit -> M C) p :
  (unvisited h (<[a := true]> (visited p)) <= B')%nat -> (B' <= B)%nat ->
  good h B' (k tt) ->
  good_at h B (bind (mark a) k) p.
Proof.
  intros H1 H2 Hk.
  pose proof (good_at_weaken h B B' (k tt)
                (set_visited p (<[a := true]> (visited p))) Hk H1 H2) as G.
  exact G.
Qed.

Ltac good_step :=
  first
    [ apply good_ret | apply good_gets | apply good_throw | apply good_Print
    | apply good_Indent | apply good_set_depth | apply good_mark
    | apply good_lift; solve [auto with total]
    | apply good_bind_lift; [solve [auto with total] | intros ? ?]
    | apply good_forM_; intros ? ?
    | apply good_bind; [|intros ?]
    | assumption
    | match goal with
      | |- good _ _ (if ?c then _ else _) => destruct c eqn:?
      | |- good _ _ (match ?x with _ => _ end) => destruct x eqn:?
      end ].

Ltac good_auto := repeat good_step.

Lemma printString_loop_good h B fuel : forall quoted,
  (String.length quoted < fuel)%nat -> good h B (printString_loop fuel quoted).
Proof.
  induction fuel as [|f IH]; intros quoted Hlen; [lia|]. simpl.
  unfold ColorPrint. good_auto.
  apply IH.
  match goal with
  | |- context [(?a + ?k + 1)%nat] => set (w := k) in *
  end.
  match goal with H : Text.slice _ _ _ = Some _ |- _ => unfold Text.slice in H end.
  match goal with H : (if ?c then _ else _) = Some _ |- _ =>
    destruct c eqn:Hc; [|discriminate] end.
  apply andb_true_iff in Hc as [_ Hc]. apply Nat.leb_le in Hc.
  assert (G : forall n (s : string), (n <= String.length s)%nat ->
            String.length (Text.drop n s) = (String.length s - n)%nat).
  { clear. induction n as [|n IHn]; intros s Hs; simpl.
    - destruct s; simpl; lia.
    - destruct s as [|c s]; simpl in *; [lia|]. apply IHn. lia. }
  rewrite G by exact Hc. lia.
Qed.

(* ===================================================================== *)
(** * Termination: the weight bounds the fuel *)
(* ===================================================================== *)

Ltac destruct_kinds :=
  repeat match goal with
         | k : reflect.IntKind |- _ => destruct k
         | k : reflect.UintKind |- _ => destruct k
         | k : reflect.FloatKind |- _ => destruct k
         | k : reflect.ComplexKind |- _ => destruct k
         end.

Lemma weight_elem x es : x ∈ es -> (weight x <= sum_list_with weight es)%nat.
Proof. apply (sum_list_with_in x weight es). Qed.

Lemma Indexes_weight h v xs x :
  reflect.Indexes h v = Ok xs -> x ∈ xs ->
  match reflect.it v with
  | reflect.VArray _ _ es => (weight (reflect.it x) <= sum_list_with weight es)%nat
  | reflect.VSlice _ _ p n =>
      exists es, reflect.arrays h !! p = Some es
                 /\ (weight (reflect.it x) < weight_elems es)%nat
  | _ => False
  end.
Proof.
  unfold reflect.Indexes. intros H Hx.
  destruct (reflect.it v); try discriminate.
  - inversion H; subst. apply list_elem_of_fmap in Hx as [y [-> Hy]]. simpl.
    now apply weight_elem.
  - unfold reflect.elements in H. destruct (len =? 0)%nat.
    { simpl in H. inversion H; subst. inversion Hx. }
    destruct (reflect.arrays h !! ptr) as [es|] eqn:E; [|discriminate].
    destruct (len <=? length es)%nat; [|discriminate].
    simpl in H. inversion H; subst.
    apply list_elem_of_fmap in Hx as [y [-> Hy]]. simpl.
    exists es. split; [reflexivity|].
    apply (subseteq_take len es) in Hy.
    pose proof (weight_elem y es Hy). unfold weight_elems. lia.
Qed.

Lemma Fields_weight v all fv :
  reflect.Fields v = Ok all -> fv ∈ all ->
  match reflect.it v with
  | reflect.VStruct _ fs =>
      (weight (reflect.it (snd fv))
       <= sum_list_with (fun fx : reflect.StructField * reflect.val => weight (snd fx)) fs)%nat
  | _ => False
  end.
Proof.
  unfold reflect.Fields. intros H Hx.
  destruct (reflect.it v); try discriminate.
  inversion H; subst. apply list_elem_of_fmap in Hx as [y [-> Hy]]. simpl.
  apply (sum_list_with_in y (fun fx : reflect.StructField * reflect.val => weight (snd fx)) fs Hy).
Qed.

Lemma collect_weight h v ks : forall kvs kv,
  collect h v ks = Ok kvs -> kv ∈ kvs ->
  fst kv ∈ ks /\ reflect.MapIndex h v (fst kv) = Ok (snd kv).
Proof.
  induction ks as [|k ks IH]; intros kvs kv H Hin; simpl in H.
  - inversion H; subst. inversion Hin.
  - destruct (reflect.MapIndex h v k) as [x| |] eqn:E; try discriminate.
    simpl in H. destruct (collect h v ks) as [r| |] eqn:E2; try discriminate.
    simpl in H. inversion H; subst.
    apply elem_of_cons in Hin as [->|Hin].
    + simpl. split; [left|exact E].
    + destruct (IH r kv eq_refl Hin) as [H1 H2]. split; [now right|exact H2].
Qed.

Lemma find_elem_of {A} (f : A -> bool) l x : List.find f l = Some x -> x ∈ l.
Proof. intros H. apply find_some in H as [H _]. now apply list_elem_of_In. Qed.

Lemma sortMap_weight h v kvs kv :
  sortMap h v = Ok kvs -> kv ∈ kvs ->
  match reflect.it v with
  | reflect.VMap _ p =>
      p <> 0 /\
      exists es, reflect.maps h !! p = Some es
                 /\ (weight (reflect.it (fst kv)) < weight_entries es)%nat
                 /\ (weight (reflect.it (snd kv)) < weight_entries es)%nat
  | _ => False
  end.
Proof.
  unfold sortMap, reflect.Kind_. intros H Hin.
  destruct (reflect.it v) eqn:Ev; destruct_kinds; simpl in H; try discriminate.
  destruct (reflect.MapKeys h v) as [ks| |] eqn:EK; try discriminate. simpl in H.
  destruct (collect h v ks) as [l| |] eqn:EC; try discriminate. simpl in H.
  injection H as <-. apply Stable_elem_of in Hin.
  destruct (collect_weight h v ks l kv EC Hin) as [Hk Hv].
  unfold reflect.MapKeys in EK. rewrite Ev in EK.
  unfold reflect.MapIndex in Hv. rewrite Ev in Hv.
  unfold reflect.entries in *.
  destruct (Z.eqb_spec ptr 0) as [->|Hne].
  { simpl in EK. inversion EK; subst. inversion Hk. }
  split; [exact Hne|].
  destruct (reflect.maps h !! ptr) as [es|] eqn:E; [|discriminate].
  exists es. split; [reflexivity|]. simpl in EK, Hv.
  destruct (forallb _ es); [|discriminate]. inversion EK; subst.
  apply list_elem_of_fmap in Hk as [e [He Hin']].
  assert (Hsum : forall e', e' ∈ es ->
            (weight (fst e') + weight (snd e') < weight_entries es)%nat).
  { intros e' He'. unfold weight_entries.
    pose proof (sum_list_with_in e'
      (fun e : reflect.val * reflect.val => (weight (fst e) + weight (snd e))%nat)
      es He'). simpl in *. lia. }
  split.
  - rewrite He. simpl. specialize (Hsum e Hin'). lia.
  - destruct (List.find _ es) as [e'|] eqn:EF.
    + inversion Hv; subst. simpl. apply find_elem_of in EF.
      specialize (Hsum e' EF). lia.
    + inversion Hv; subst. simpl. unfold weight_entries. lia.
Qed.

Lemma Elem_weight h v e :
  reflect.Elem h v = Ok e ->
  match reflect.it v with
  | reflect.VInterface _ x => (weight (reflect.it e) < weight (reflect.it v))%nat
  | reflect.VPtr _ p =>
      (p = 0 /\ reflect.it e = reflect.VInvalid)
      \/ (p <> 0 /\ reflect.cells h !! p = Some (reflect.it e))
  | _ => False
  end.
Proof.
  unfold reflect.Elem. intros H.
  destruct (reflect.it v)
    as [ | ? ? | ? ? ? | ? ? ? | ? ? ? | ? ? ? ? | ? ? | ? ? ? | ? ? ? ? | ? ?
       | ? ? | ? p | ? e0 | ? ? | ? ? | ? ? ]; simpl in H; try discriminate.
  - destruct (p =? 0) eqn:E.
    + apply Z.eqb_eq in E. injection H as <-. left. split; [exact E|reflexivity].
    + apply Z.eqb_neq in E. destruct (reflect.cells h !! p); [|discriminate].
      injection H as <-. right. split; [exact E|reflexivity].
  - injection H as <-. destruct e0; simpl; lia.
Qed.

Section DispatchGood.
Variable env : Env.
Variable h : reflect.Store.
Variable k : nat.
Variable rec : reflect.Value -> M string.
Hypothesis Hrec : forall v B, (weight (reflect.it v) + B < k)%nat -> good h B (rec v).

Lemma raw_good B : good h B (raw env).
Proof.
  unfold raw, fmtOrLocalizedSprintf_int, fmtOrLocalizedSprintf_uint,
    fmtOrLocalizedSprintf_f. good_auto.
Qed.

Lemma typeString_good B : good h B typeString.
Proof. unfold typeString. good_auto. Qed.

Lemma printString_good B : good h B (printString env).
Proof.
  unfold printString, ColorPrint. good_auto.
  apply printString_loop_good. lia.
Qed.

Lemma printTime_good B : good h B (printTime env).
Proof. unfold printTime. good_auto. Qed.

Lemma printStruct_good pp :
  (weight (reflect.it (value pp)) + unvisited h (visited pp) < S k)%nat ->
  good_at h (unvisited h (visited pp)) (printStruct env rec) pp.
Proof.
  intros Hw. pose proof typeString_good. pose proof printTime_good.
  unfold printStruct. apply good_at_gets_bind. unfold id.
  apply (good_at_weaken h _ (unvisited h (visited pp))); [|lia|lia].
  unfold indented, IndentPrint, Println. good_auto.
  apply Hrec.
  match goal with
  | Hf : reflect.Fields _ = Ok ?a, Hin : ?x ∈ List.filter _ ?a |- _ =>
      apply list_elem_of_In, filter_In in Hin; destruct Hin as [Hin _];
      apply list_elem_of_In in Hin;
      pose proof (Fields_weight _ _ _ Hf Hin) as W
  end.
  destruct (reflect.it (value pp)); try contradiction.
  simpl in Hw. lia.
Qed.

Lemma printInterface_good pp :
  reflect.Kind_ (value pp) = reflect.Interface ->
  (weight (reflect.it (value pp)) + unvisited h (visited pp) < S k)%nat ->
  good_at h (unvisited h (visited pp)) (printInterface h rec) pp.
Proof.
  intros HK Hw. pose proof typeString_good.
  unfold printInterface. apply good_at_gets_bind. unfold id.
  apply (good_at_weaken h _ (unvisited h (visited pp))); [|lia|lia].
  unfold nil_. good_auto.
  all: apply Hrec.
  all: match goal with
       | He : reflect.Elem _ _ = Ok ?e |- _ =>
           pose proof (Elem_weight _ _ _ He) as W
       end.
  all: unfold reflect.Kind_ in HK.
  all: destruct (reflect.it (value pp)); destruct_kinds; try discriminate.
  all: lia.
Qed.

Lemma indexed_elem_of {A} (l : list A) : forall i (ie : Z * A),
  ie ∈ indexed i l -> snd ie ∈ l.
Proof.
  induction l as [|x l IH]; intros i ie H; simpl in H; [inversion H|].
  apply elem_of_cons in H as [->|H]; [left|right; eauto].
Qed.

Ltac slice_leaf Hw :=
  apply Hrec;
  repeat match goal with
         | H : _ ∈ indexed _ _ |- _ => apply indexed_elem_of in H
         end;
  match goal with
  | HI : reflect.Indexes _ _ = Ok ?l |- context [weight (reflect.it ?x)] =>
      let W := fresh "W" in
      assert (W : x ∈ l) by (first [assumption | left | right; assumption]);
      apply (Indexes_weight _ _ _ _ HI) in W
  end.

Lemma printSlice_good_array pp :
  reflect.Kind_ (value pp) = reflect.Array ->
  (weight (reflect.it (value pp)) + unvisited h (visited pp) < S k)%nat ->
  good_at h (unvisited h (visited pp)) (printSlice h rec) pp.
Proof.
  intros HK Hw. pose proof typeString_good.
  unfold printSlice. apply good_at_gets_bind. unfold id. rewrite !HK.
  apply (good_at_weaken h _ (unvisited h (visited pp))); [|lia|lia].
  unfold nil_, indented, IndentPrint, Println. good_auto.
  all: slice_leaf Hw.
  all: unfold reflect.Kind_ in HK.
  all: destruct (reflect.it (value pp)); destruct_kinds; try discriminate.
  all: simpl in Hw; lia.
Qed.

Lemma printSlice_good_slice pp :
  reflect.Kind_ (value pp) = reflect.Slice ->
  (weight (reflect.it (value pp)) + unvisited h (visited pp) < S k)%nat ->
  good_at h (unvisited h (visited pp)) (printSlice h rec) pp.
Proof.
  intros HK Hw. pose proof typeString_good.
  set (B := unvisited h (visited pp)) in *.
  unfold printSlice. apply good_at_gets_bind. unfold id. rewrite !HK.
  apply good_at_lift_bind; [auto with total|]. intros isNil _.
  destruct isNil.
  { apply (good_at_weaken h _ B); [|subst B; lia|lia]. unfold nil_. good_auto. }
  apply good_at_lift_bind; [auto with total|]. intros len _.
  destruct (len =? 0)%nat.
  { apply (good_at_weaken h _ B); [|subst B; lia|lia]. good_auto. }
  apply good_at_lift_bind; [auto with total|]. intros ptr Hptr.
  destruct (seen (visited pp) ptr) eqn:Hseen; simpl.
  { apply (good_at_weaken h _ B); [|subst B; lia|lia]. good_auto. }
  apply (good_at_mark_bind h B (unvisited h (<[ptr := true]> (visited pp)))).
  { lia. }
  { subst B. apply unvisited_grows, grows_insert. }
  unfold nil_, indented, IndentPrint, Println. good_auto.
  all: slice_leaf Hw.
  all: unfold reflect.Kind_ in HK; unfold reflect.Pointer in Hptr.
  all: destruct (reflect.it (value pp)); destruct_kinds; try discriminate.
  all: injection Hptr as ->.
  all: destruct W as [es [Harr W]].
  all: pose proof (unvisited_mark_array h _ _ _ Harr Hseen).
  all: simpl in Hw; subst B; lia.
Qed.

Lemma printMap_good pp :
  reflect.Kind_ (value pp) = reflect.Map ->
  (weight (reflect.it (value pp)) + unvisited h (visited pp) < S k)%nat ->
  good_at h (unvisited h (visited pp)) (printMap h rec) pp.
Proof.
  intros HK Hw. pose proof typeString_good.
  set (B := unvisited h (visited pp)) in *.
  unfold printMap. apply good_at_gets_bind. unfold id.
  apply good_at_lift_bind; [auto with total|]. intros len _.
  destruct (len =? 0)%nat.
  { apply (good_at_weaken h _ B); [|subst B; lia|lia]. good_auto. }
  apply good_at_lift_bind; [auto with total|]. intros ptr Hptr.
  destruct (seen (visited pp) ptr) eqn:Hseen; simpl.
  { apply (good_at_weaken h _ B); [|subst B; lia|lia]. good_auto. }
  apply (good_at_mark_bind h B (unvisited h (<[ptr := true]> (visited pp)))).
  { lia. }
  { subst B. apply unvisited_grows, grows_insert. }
  unfold indented, IndentPrint. good_auto.
  all: apply Hrec.
  all: match goal with
       | HS : sortMap _ _ = Ok ?l, Hin : ?x ∈ ?l |- _ =>
           pose proof (sortMap_weight _ _ _ _ HS Hin) as W
       end.
  all: unfold reflect.Kind_ in HK; unfold reflect.Pointer in Hptr.
  all: destruct (reflect.it (value pp)); destruct_kinds; try discriminate.
  all: injection Hptr as ->.
  all: destruct W as [_ [es [Hm [W1 W2]]]].
  all: pose proof (unvisited_mark_map h _ _ _ Hm Hseen).
  all: simpl in Hw; subst B; lia.
Qed.

Lemma printPtr_good pp :
  reflect.Kind_ (value pp) = reflect.Ptr ->
  (weight (reflect.it (value pp)) + unvisited h (visited pp) < S k)%nat ->
  good_at h (unvisited h (visited pp)) (printPtr h rec) pp.
Proof.
  intros HK Hw. pose proof typeString_good.
  set (B := unvisited h (visited pp)) in *.
  unfold printPtr. apply good_at_gets_bind. unfold id.
  apply good_at_lift_bind; [auto with total|]. intros ptr Hptr.
  destruct (seen (visited pp) ptr) eqn:Hseen; simpl.
  { apply (good_at_weaken h _ B); [|subst B; lia|lia].
    unfold elemTypeString. good_auto. }
  destruct (ptr =? 0) eqn:Hz; simpl.
  - apply good_at_gets_bind || idtac.
    apply (good_at_weaken h _ B); [|subst B; lia|lia].
    unfold nil_. good_auto.
    apply Hrec.
    match goal with
    | He : reflect.Elem _ _ = Ok ?e |- _ =>
        pose proof (Elem_weight _ _ _ He) as W
    end.
    unfold reflect.Kind_ in HK; unfold reflect.Pointer in Hptr.
    destruct (reflect.it (value pp)); destruct_kinds; try discriminate.
    injection Hptr as ->. apply Z.eqb_eq in Hz.
    destruct W as [[_ W]|[W _]]; [|congruence].
    match goal with
    | HV : reflect.IsValid _ = true |- _ =>
        unfold reflect.IsValid in HV; rewrite W in HV; discriminate
    end.
  - apply (good_at_mark_bind h B (unvisited h (<[ptr := true]> (visited pp)))).
    { lia. }
    { subst B. apply unvisited_grows, grows_insert. }
    unfold nil_. good_auto.
    apply Hrec.
    match goal with
    | He : reflect.Elem _ _ = Ok ?e |- _ =>
        pose proof (Elem_weight _ _ _ He) as W
    end.
    unfold reflect.Kind_ in HK; unfold reflect.Pointer in Hptr.
    destruct (reflect.it (value pp)); destruct_kinds; try discriminate.
    injection Hptr as ->. apply Z.eqb_neq in Hz.
    destruct W as [[W _]|[_ W]]; [congruence|].
    pose proof (unvisited_mark_cell h _ _ _ W Hseen).
    unfold weight_cell in *. simpl in Hw. subst B. lia.
Qed.

Lemma dispatch_good pp :
  (weight (reflect.it (value pp)) + unvisited h (visited pp) < S k)%nat ->
  good_at h (unvisited h (visited pp)) (dispatch env h rec) pp.
Proof.
  intros Hw. pose proof typeString_good. pose proof raw_good.
  pose proof printString_good.
  unfold dispatch. apply good_at_gets_bind. unfold id.
  apply good_at_lift_bind; [auto with total|]. intros x _.
  destruct (prettyPrinter env x).
  { apply (good_at_weaken h _ (unvisited h (visited pp))); [|lia|lia].
    apply good_forM_. intros [] _; unfold runOp, ColorPrint, IndentPrint; good_auto. }
  destruct (reflect.Kind_ (value pp)) eqn:HK.
  all: try (apply (good_at_weaken h _ (unvisited h (visited pp))); [|lia|lia];
            unfold ColorPrint, nil_, pointerAddr; good_auto; fail).
  - now apply printSlice_good_array.
  - now apply printInterface_good.
  - now apply printMap_good.
  - now apply printPtr_good.
  - now apply printSlice_good_slice.
  - apply (good_at_weaken h _ (unvisited h (visited pp))); [|lia|lia].
    apply printString_good.
  - now apply printStruct_good.
Qed.
End DispatchGood.

Lemma good_at_mono {A} h B1 B2 (m : M A) p :
  good_at h B1 m p -> (B1 <= B2)%nat -> good_at h B2 m p.
Proof.
  unfold good_at. destruct (m p) as [[a q]| |]; auto. lia.
Qed.

(** [Format] returns or panics when its fuel exceeds the weight of the
    object and of the unvisited part of the store. *)
Lemma Format_good env h n : forall v p,
  (weight (reflect.it v) + unvisited h (visited p) < n)%nat ->
  good_at h (unvisited h (visited p)) (Format env h n v) p.
Proof.
  induction n as [|n IH]; intros v p Hw; [lia|].
  assert (Hrec : forall v' B', (weight (reflect.it v') + B' < n)%nat ->
                               good h B' (Format env h n v')).
  { intros v' B' Hv' q Hq.
    apply (good_at_mono h (unvisited h (visited q))); [|exact Hq].
    apply IH. lia. }
  pose proof (dispatch_good env h n (Format env h n) Hrec (subPrinter p v)) as D.
  simpl in D. specialize (D Hw).
  simpl. unfold good_at in *. rewrite Format_body_unfold.
  destruct (dispatch env h (Format env h n) (subPrinter p v)) as [[[] pp']| |];
    auto.
Qed.

Lemma Format_total env h n v p :
  (weight (reflect.it v) + unvisited h (visited p) < n)%nat ->
  total (Format env h n v p).
Proof.
  intros Hw. pose proof (Format_good env h n v p Hw) as G.
  unfold good_at, total in *. destruct (Format env h n v p) as [[a q]| |];
    congruence || contradiction.
Qed.

(* ===================================================================== *)
(** * [Less] on orderable keys *)
(* ===================================================================== *)

Lemma ascii_compare_refl c : Ascii.compare c c = Eq.
Proof. unfold Ascii.compare. apply N.compare_refl. Qed.

Lemma string_compare_refl s : String.compare s s = Eq.
Proof.
  induction s as [|c s IH]; simpl; [reflexivity|].
  now rewrite ascii_compare_refl.
Qed.

Lemma string_compare_trans a : forall b c,
  String.compare a b = Lt -> String.compare b c = Lt -> String.compare a c = Lt.
Proof.
  induction a as [|x a IH]; intros b c Hab Hbc.
  - destruct b; [discriminate|]. destruct c; [discriminate|reflexivity].
  - destruct b as [|y b]; [discriminate|]. destruct c as [|z c]; [discriminate|].
    simpl in *.
    destruct (Ascii.compare x y) eqn:Exy; try discriminate;
      destruct (Ascii.compare y z) eqn:Eyz; try discriminate.
    + apply Ascii.compare_eq_iff in Exy, Eyz. subst.
      rewrite ascii_compare_refl. eauto.
    + apply Ascii.compare_eq_iff in Exy. subst. now rewrite Eyz.
    + apply Ascii.compare_eq_iff in Eyz. subst. now rewrite Exy.
    + unfold Ascii.compare in *.
      rewrite N.compare_lt_iff in *.
      assert (H : (N_of_ascii x < N_of_ascii z)%N) by lia.
      apply N.compare_lt_iff in H. now rewrite H.
Qed.

Lemma string_ltb_total a b : a <> b -> String.ltb a b = true \/ String.ltb b a = true.
Proof.
  intros Hne. unfold String.ltb.
  destruct (String.compare a b) eqn:E.
  - apply String.compare_eq_iff in E. contradiction.
  - now left.
  - right. rewrite String.compare_antisym, E. reflexivity.
Qed.

Lemma SFcompare_refl x : SFeqb x x = true -> SFcompare x x = Some Eq.
Proof.
  unfold SFeqb. destruct (SFcompare x x) as [[]|]; congruence.
Qed.

Lemma SFcompare_antisym x y :
  SFcompare y x = option_map CompOpp (SFcompare x y).
Proof.
  destruct x as [sx|sx| |sx mx ex], y as [sy|sy| |sy my ey]; simpl;
    try reflexivity;
    try (destruct sx; reflexivity); try (destruct sy; reflexivity);
    try (destruct sx, sy; reflexivity).
  destruct sx, sy; simpl; try reflexivity.
  all: rewrite (Z.compare_antisym ex ey).
  all: destruct (ex ?= ey); simpl; try reflexivity.
  all: change (Pos.compare_cont Eq my mx) with (Pos.compare my mx).
  all: change (Pos.compare_cont Eq mx my) with (Pos.compare mx my).
  all: rewrite (Pos.compare_antisym mx my).
  all: destruct (mx ?= my)%positive; reflexivity.
Qed.

Lemma SFltb_total x y :
  SFeqb x x = true -> SFeqb y y = true -> SFeqb x y = false ->
  SFltb x y = true \/ SFltb y x = true.
Proof.
  unfold SFeqb, SFltb. intros Hx Hy Hxy.
  rewrite (SFcompare_antisym x y).
  destruct (SFcompare x y) as [[]|] eqn:E; simpl; auto; try discriminate.
  destruct x, y; simpl in *; try discriminate.
Qed.

Lemma SFltb_irrefl x : SFltb x x = false.
Proof.
  unfold SFltb. destruct (SFcompare x x) as [[]|] eqn:E; auto.
  pose proof (SFcompare_antisym x x) as A. rewrite E in A. discriminate.
Qed.

Lemma SFltb_trans x y z :
  SFltb x y = true -> SFltb y z = true -> SFltb x z = true.
Proof.
  unfold SFltb.
  destruct x as [sx|sx| |sx mx ex], y as [sy|sy| |sy my ey],
           z as [sz|sz| |sz mz ez]; simpl;
    try discriminate;
    try (destruct sx; try discriminate); try (destruct sy; try discriminate);
    try (destruct sz; try discriminate); try reflexivity.
  all: change (Pos.compare_cont Eq ?a ?b) with (Pos.compare a b).
  all: destruct (Z.compare_spec ex ey); try discriminate;
       destruct (Z.compare_spec ey ez); try discriminate;
       destruct (Z.compare_spec ex ez); try lia; try reflexivity; subst.
  all: destruct (Pos.compare_spec mx my); try discriminate;
       destruct (Pos.compare_spec my mz); try discriminate;
       destruct (Pos.compare_spec mx mz); try lia; try reflexivity; simpl;
       try discriminate.
Qed.

Lemma Less_irrefl a : Less a a = false.
Proof.
  unfold Less. destruct (bool_decide _); [reflexivity|].
  destruct (reflect.it a); try reflexivity.
  - destruct b; reflexivity.
  - apply Z.ltb_irrefl.
  - apply Z.ltb_irrefl.
  - destruct (negb (SFeqb x x) || negb (SFeqb x x)); [reflexivity|].
    apply SFltb_irrefl.
  - unfold String.ltb. now rewrite string_compare_refl.
  - apply Nat.ltb_irrefl.
  - apply Nat.ltb_irrefl.
  - apply Z.ltb_irrefl.
Qed.

Ltac less_unfold H :=
  unfold Less in H; simpl in H;
  match type of H with
  | (if ?c then _ else _) = true => destruct c eqn:?; [discriminate|]
  end.

Lemma Less_trans a b c :
  orderable (reflect.it a) = true ->
  Less a b = true -> Less b c = true -> Less a c = true.
Proof.
  intros Ha Hab Hbc.
  destruct a as [sa ea xa], b as [sb eb xb], c as [sc ec xc]. simpl in Ha.
  assert (Hty : reflect.typeOf xa = reflect.typeOf xc).
  { unfold Less in Hab, Hbc. simpl in Hab, Hbc.
    destruct (bool_decide (reflect.typeOf xa <> reflect.typeOf xb)) eqn:E1;
      [discriminate|].
    destruct (bool_decide (reflect.typeOf xb <> reflect.typeOf xc)) eqn:E2;
      [discriminate|].
    apply bool_decide_eq_false in E1, E2.
    destruct (decide (reflect.typeOf xa = reflect.typeOf xb)); [|contradiction].
    destruct (decide (reflect.typeOf xb = reflect.typeOf xc)); [|contradiction].
    congruence. }
  less_unfold Hab. less_unfold Hbc.
  unfold Less. simpl.
  rewrite (bool_decide_eq_false_2 _) by (intros C; exact (C Hty)).
  destruct xa; try discriminate; destruct xb; try discriminate;
    destruct xc; try discriminate.
  - destruct b, b0, b1; simpl in *; congruence.
  - apply Z.ltb_lt in Hab, Hbc. apply Z.ltb_lt. lia.
  - apply Z.ltb_lt in Hab, Hbc. apply Z.ltb_lt. lia.
  - simpl in Ha. rewrite Ha in *. simpl in *.
    destruct (SFeqb x0 x0); simpl in *; [|discriminate].
    destruct (SFeqb x1 x1); simpl in *; [|discriminate].
    eapply SFltb_trans; eauto.
  - unfold String.ltb in *.
    destruct (String.compare s s0) eqn:E1; try discriminate.
    destruct (String.compare s0 s1) eqn:E2; try discriminate.
    now rewrite (string_compare_trans _ _ _ E1 E2).
  - apply Z.ltb_lt in Hab, Hbc. apply Z.ltb_lt. lia.
Qed.

Lemma go_eq_refl_orderable x : orderable x = true -> reflect.go_eq x x = true.
Proof.
  destruct x; simpl; try discriminate; intros H.
  - apply Bool.eqb_reflx.
  - apply Z.eqb_refl.
  - apply Z.eqb_refl.
  - exact H.
  - apply String.eqb_refl.
  - apply Z.eqb_refl.
Qed.

Lemma Less_total a b :
  orderable (reflect.it a) = true -> orderable (reflect.it b) = true ->
  reflect.typeOf (reflect.it a) = reflect.typeOf (reflect.it b) ->
  reflect.go_eq (reflect.it a) (reflect.it b) = false ->
  Less a b = true \/ Less b a = true.
Proof.
  intros Ha Hb Hty Hne.
  destruct a as [sa ea xa], b as [sb eb xb]. simpl in *.
  unfold Less. simpl.
  rewrite !(bool_decide_eq_false_2 _) by (intros C; apply C; congruence).
  destruct xa; try discriminate; destruct xb; try discriminate;
    simpl in Hne, Ha, Hb; destruct_kinds; try discriminate.
  all: try (apply Z.eqb_neq in Hne; rewrite !Z.ltb_lt; lia).
  all: try (rewrite Ha, Hb; simpl; apply SFltb_total; assumption).
  - destruct b, b0; simpl in *; auto; discriminate.
  - apply string_ltb_total. now apply String.eqb_neq.
Qed.

(* ===================================================================== *)
(** * [sortMap] does not depend on the order of the iteration *)
(* ===================================================================== *)

Lemma orderable_keys_of ks :
  orderable_keys ks = true -> exists T, keys_of T ks.
Proof.
  destruct ks as [|k0 r]; intros H.
  - exists None. split; [constructor|reflexivity].
  - exists (reflect.typeOf k0). unfold orderable_keys in H.
    apply andb_true_iff in H as [H1 H2]. split; [|exact H2].
    apply Forall_forall. intros k Hk.
    rewrite forallb_forall in H1. specialize (H1 k (proj1 (list_elem_of_In _ _) Hk)).
    apply andb_true_iff in H1 as [Ho Ht]. apply bool_decide_eq_true in Ht. auto.
Qed.

Lemma keys_of_tail T k ks : keys_of T (k :: ks) -> keys_of T ks.
Proof.
  intros [HF HD]. inversion HF; subst. simpl in HD.
  apply andb_true_iff in HD as [_ HD]. split; assumption.
Qed.

Lemma keys_of_head T k ks k' :
  keys_of T (k :: ks) -> k' ∈ ks -> reflect.go_eq k k' = false.
Proof.
  intros [_ HD] Hin. simpl in HD. apply andb_true_iff in HD as [HD _].
  rewrite forallb_forall in HD.
  specialize (HD k' (proj1 (list_elem_of_In _ _) Hin)).
  now apply negb_true_iff in HD.
Qed.

Lemma find_own T es : forall e,
  keys_of T (List.map fst es) -> e ∈ es ->
  List.find (fun e' : reflect.val * reflect.val => reflect.go_eq (fst e') (fst e)) es
  = Some e.
Proof.
  induction es as [|e0 es IH]; intros e HK Hin; [inversion Hin|].
  simpl. apply elem_of_cons in Hin as [->|Hin].
  - destruct HK as [HF _]. inversion HF as [|? ? [Ho _] _]; subst.
    now rewrite go_eq_refl_orderable.
  - simpl in HK.
    rewrite (keys_of_head T (fst e0) (List.map fst es) (fst e) HK).
    + apply IH; [eapply keys_of_tail; eauto|exact Hin].
    + apply list_elem_of_fmap. eauto.
Qed.

Lemma collect_collected h v t a es T : forall sub,
  reflect.it v = reflect.VMap t a ->
  reflect.entries h a = Ok es ->
  keys_of T (List.map fst es) ->
  (forall e, e ∈ sub -> e ∈ es) ->
  collect h v (List.map (fun e : reflect.val * reflect.val =>
                           reflect.derived (reflect.flagRO v) (fst e)) sub)
  = Ok (List.map (collected (reflect.flagRO v)) sub).
Proof.
  intros sub Hv He HK. induction sub as [|e sub IH]; intros Hsub; simpl.
  - reflexivity.
  - unfold reflect.MapIndex at 1. rewrite Hv, He. simpl.
    rewrite (find_own T es e HK) by (apply Hsub; left). simpl.
    rewrite IH by (intros e' He'; apply Hsub; now right). reflexivity.
Qed.

Lemma collected_strict_total ro T es :
  keys_of T (List.map fst es) ->
  strict_total sortedMap_Less (List.map (collected ro) es)
  /\ NoDup (List.map (collected ro) es).
Proof.
  induction es as [|e es IH]; intros HK.
  - split; [split; intros; exfalso; eapply not_elem_of_nil; eauto|constructor].
  - pose proof (keys_of_tail _ _ _ HK) as HK'. destruct (IH HK') as [ST ND].
    assert (Hord : forall x, x ∈ List.map (collected ro) (e :: es) ->
              orderable (reflect.it (fst x)) = true
              /\ reflect.typeOf (reflect.it (fst x)) = T).
    { intros x Hx. apply list_elem_of_fmap in Hx as [e' [-> He']].
      destruct HK as [HF _]. rewrite Forall_forall in HF.
      apply (HF (fst e')). apply list_elem_of_fmap. eauto. }
    assert (Hhead : forall y, y ∈ List.map (collected ro) es ->
              reflect.go_eq (fst e) (reflect.it (fst y)) = false).
    { intros y Hy. apply list_elem_of_fmap in Hy as [e' [-> He']]. simpl.
      apply (keys_of_head T _ (List.map fst es)); [exact HK|].
      apply list_elem_of_fmap. eauto. }
    split; [split|].
    + intros x _. apply Less_irrefl.
    + intros x y z Hx Hy Hz. unfold sortedMap_Less.
      apply Less_trans. apply (Hord x Hx).
    + intros x y Hx Hy Hne. unfold sortedMap_Less.
      destruct (Hord x Hx) as [Ox Tx]. destruct (Hord y Hy) as [Oy Ty].
      simpl in Hx, Hy.
      apply elem_of_cons in Hx as [->|Hx]; apply elem_of_cons in Hy as [->|Hy].
      * contradiction.
      * apply Less_total; [exact Ox|exact Oy|congruence|simpl; now apply Hhead].
      * destruct (Less_total (fst (collected ro e)) (fst x)) as [C|C];
          [exact Oy|exact Ox|congruence|simpl; now apply Hhead|auto|auto].
      * now apply (st_total _ _ ST).
    + simpl. apply NoDup_cons. split; [|exact ND].
      intros Hin. pose proof (Hhead _ Hin) as G. simpl in G.
      rewrite go_eq_refl_orderable in G; [discriminate|].
      apply (Hord (collected ro e)). left.
Qed.

Lemma keys_valid T ks :
  keys_of T ks ->
  forallb (fun k => match k with reflect.VInvalid => false | _ => true end) ks = true.
Proof.
  intros [HF _]. apply forallb_forall. intros k Hk.
  rewrite Forall_forall in HF.
  destruct (HF k (proj2 (list_elem_of_In _ _) Hk)) as [Ho _].
  destruct k; try reflexivity. discriminate.
Qed.

Lemma sortMap_entries h v t a es T :
  reflect.it v = reflect.VMap t a ->
  reflect.entries h a = Ok es ->
  keys_of T (List.map fst es) ->
  sortMap h v
  = Ok (sort.Stable sortedMap_Less (List.map (collected (reflect.flagRO v)) es)).
Proof.
  intros Hv He HK. unfold sortMap, reflect.Kind_. rewrite Hv. simpl.
  unfold reflect.MapKeys. rewrite Hv, He. simpl.
  assert (E : forallb (fun e : reflect.val * reflect.val =>
                 match fst e with reflect.VInvalid => false | _ => true end) es = true).
  { pose proof (keys_valid T _ HK) as G. rewrite forallb_forall in *.
    intros e Hin. apply (G (fst e)). now apply in_map. }
  rewrite E. cbn [res_bind].
  rewrite (collect_collected h v t a es T es Hv He HK) by auto.
  reflexivity.
Qed.

Section SameMaps.
Variables h1 h2 : reflect.Store.
Hypothesis Hsame : same_maps h1 h2.

Lemma same_entries a :
  match reflect.entries h1 a, reflect.entries h2 a with
  | Ok es1, Ok es2 =>
      es1 ≡ₚ es2
      /\ (exists T, keys_of T (List.map fst es1))
      /\ (exists T, keys_of T (List.map fst es2))
  | Panic m1, Panic m2 => m1 = m2
  | _, _ => False
  end.
Proof.
  destruct Hsame as (_ & _ & HM). specialize (HM a).
  unfold reflect.entries. destruct (a =? 0).
  { split; [reflexivity|]. split; exists None; split; constructor. }
  destruct (reflect.maps h1 !! a), (reflect.maps h2 !! a); try contradiction.
  - destruct HM as (HP & O1 & O2).
    split; [exact HP|]. split; now apply orderable_keys_of.
  - reflexivity.
Qed.

Lemma same_Len : reflect.Len h1 = reflect.Len h2.
Proof.
  apply functional_extensionality. intros v. unfold reflect.Len.
  destruct (reflect.it v); try reflexivity.
  pose proof (same_entries ptr) as E.
  destruct (reflect.entries h1 ptr), (reflect.entries h2 ptr);
    try contradiction; simpl.
  - destruct E as [E _]. now rewrite E.
  - now subst.
Qed.

Lemma same_sortMap : sortMap h1 = sortMap h2.
Proof.
  apply functional_extensionality. intros v.
  destruct (reflect.it v) eqn:Ev;
    try (unfold sortMap, reflect.Kind_; rewrite Ev; destruct_kinds; reflexivity).
  pose proof (same_entries ptr) as E.
  destruct (reflect.entries h1 ptr) as [es1| |] eqn:E1,
           (reflect.entries h2 ptr) as [es2| |] eqn:E2; try contradiction.
  - destruct E as (HP & [T1 K1] & [T2 K2]).
    rewrite (sortMap_entries h1 v t ptr es1 T1 Ev E1 K1).
    rewrite (sortMap_entries h2 v t ptr es2 T2 Ev E2 K2).
    f_equal.
    destruct (collected_strict_total (reflect.flagRO v) T1 es1 K1) as [ST ND].
    apply Stable_unique; auto. now apply Permutation_map.
  - subst. unfold sortMap, reflect.Kind_, reflect.MapKeys. rewrite Ev. simpl.
    now rewrite E1, E2.
Qed.

Lemma same_elements : reflect.elements h1 = reflect.elements h2.
Proof.
  destruct Hsame as (HA & _ & _).
  apply functional_extensionality. intros p.
  apply functional_extensionality. intros n.
  unfold reflect.elements. now rewrite HA.
Qed.

Lemma same_Indexes : reflect.Indexes h1 = reflect.Indexes h2.
Proof.
  apply functional_extensionality. intros v. unfold reflect.Indexes.
  now rewrite same_elements.
Qed.

Lemma same_Elem : reflect.Elem h1 = reflect.Elem h2.
Proof.
  destruct Hsame as (_ & HC & _).
  apply functional_extensionality. intros v. unfold reflect.Elem.
  now rewrite HC.
Qed.

Lemma same_groupSizeOf : groupSizeOf h1 = groupSizeOf h2.
Proof.
  apply functional_extensionality. intros p. unfold groupSizeOf.
  assert (E : stringGroupSize h1 = stringGroupSize h2).
  { apply functional_extensionality. intros i. unfold stringGroupSize.
    now rewrite same_elements. }
  now rewrite E.
Qed.

(** The output of [Format] is the same in both stores. *)
Lemma Format_same_maps env n : Format env h1 n = Format env h2 n.
Proof.
  induction n as [|n IH]; [reflexivity|].
  simpl. rewrite IH.
  unfold Format_body, dispatch, printMap, printSlice, printInterface, printPtr,
    elemTypeString.
  rewrite same_Len, same_sortMap, same_Indexes, same_Elem, same_groupSizeOf.
  reflexivity.
Qed.
End SameMaps.

(* ===================================================================== *)
(** * Plain text *)
(* ===================================================================== *)

Lemma digit_cases d : 0 <= d < 16 ->
  d = 0 \/ d = 1 \/ d = 2 \/ d = 3 \/ d = 4 \/ d = 5 \/ d = 6 \/ d = 7 \/ d = 8
  \/ d = 9 \/ d = 10 \/ d = 11 \/ d = 12 \/ d = 13 \/ d = 14 \/ d = 15.
Proof. lia. Qed.

Lemma lower_digit_plain d : 0 <= d < 16 -> Text.tw_special (Text.lower_digit d) = false.
Proof.
  intros H. apply digit_cases in H.
  repeat (destruct H as [->|H]; [reflexivity|]). subst. reflexivity.
Qed.

Lemma upper_digit_plain d : 0 <= d < 16 -> Text.tw_special (Text.upper_digit d) = false.
Proof.
  intros H. apply digit_cases in H.
  repeat (destruct H as [->|H]; [reflexivity|]). subst. reflexivity.
Qed.

Lemma digits_loop_plain digit base fuel : forall n acc,
  0 < base <= 16 ->
  (forall d, 0 <= d < 16 -> Text.tw_special (digit d) = false) ->
  Text.plain acc = true ->
  Text.plain (Text.digits_loop fuel digit base n acc) = true.
Proof.
  induction fuel as [|f IH]; intros n acc Hb Hd Ha; simpl; [exact Ha|].
  assert (Hc : Text.plain (String (digit (n mod base)) acc) = true).
  { simpl. rewrite Ha, Hd; [reflexivity|].
    pose proof (Z.mod_pos_bound n base). lia. }
  destruct (n / base =? 0); [exact Hc|]. now apply IH.
Qed.

Lemma digits_plain digit base n :
  0 < base <= 16 ->
  (forall d, 0 <= d < 16 -> Text.tw_special (digit d) = false) ->
  Text.plain (Text.digits digit base n) = true.
Proof. intros. unfold Text.digits. now apply digits_loop_plain. Qed.

Lemma Repeat_plain s n : Text.plain s = true -> Text.plain (Text.Repeat s n) = true.
Proof.
  intros Hs. induction n as [|n IH]; simpl; [reflexivity|].
  now rewrite plain_app, Hs, IH.
Qed.

Lemma pad_left_plain c w s :
  Text.tw_special c = false -> Text.plain s = true ->
  Text.plain (Text.pad_left c w s) = true.
Proof.
  intros Hc Hs. unfold Text.pad_left. rewrite plain_app, Hs, Repeat_plain; auto.
  simpl. now rewrite Hc.
Qed.

Lemma fmt_d_uint_plain n : Text.plain (Text.fmt_d_uint n) = true.
Proof. apply digits_plain; [lia|apply lower_digit_plain]. Qed.

Lemma fmt_d_int_plain n : Text.plain (Text.fmt_d_int n) = true.
Proof.
  unfold Text.fmt_d_int. destruct (n <? 0).
  - rewrite plain_app. simpl. apply digits_plain; [lia|apply lower_digit_plain].
  - apply digits_plain; [lia|apply lower_digit_plain].
Qed.

Lemma fmt_x_plain n : Text.plain (Text.fmt_x n) = true.
Proof. apply digits_plain; [lia|apply lower_digit_plain]. Qed.

Lemma fmt_0x_plain w n : Text.plain (Text.fmt_0x w n) = true.
Proof. apply pad_left_plain; [reflexivity|apply fmt_x_plain]. Qed.

Lemma fmt_0X_plain w n : Text.plain (Text.fmt_0X w n) = true.
Proof.
  apply pad_left_plain; [reflexivity|].
  apply digits_plain; [lia|apply upper_digit_plain].
Qed.

Lemma group3_plain s : Text.plain s = true -> Text.plain (Text.group3 s) = true.
Proof.
  induction s as [|c s IH]; intros H; simpl in *; [reflexivity|].
  apply andb_true_iff in H as [Hc Hs]. rewrite Hc. simpl.
  match goal with |- context [if ?b then _ else _] => destruct b end.
  - rewrite plain_app. simpl. auto.
  - auto.
Qed.

Lemma localized_d_uint_plain n : Text.plain (Text.localized_d_uint n) = true.
Proof. apply group3_plain, fmt_d_uint_plain. Qed.

Lemma localized_d_int_plain n : Text.plain (Text.localized_d_int n) = true.
Proof.
  unfold Text.localized_d_int. destruct (n <? 0).
  - rewrite plain_app. simpl. apply group3_plain, fmt_d_uint_plain.
  - apply group3_plain, fmt_d_uint_plain.
Qed.

Lemma ansi_plain n : Text.plain (ansi n) = true.
Proof.
  unfold ansi. rewrite !plain_app, fmt_d_uint_plain. reflexivity.
Qed.

Lemma ColorizeText_plain s c : Text.plain s = true -> Text.plain (ColorizeText s c) = true.
Proof.
  intros Hs. unfold ColorizeText.
  destruct (_ && _); [exact Hs|].
  rewrite !plain_app, Hs, ansi_plain.
  repeat match goal with |- context [if ?b then _ else _] => destruct b end;
    rewrite ?ansi_plain; reflexivity.
Qed.

Lemma Colorize_plain p s c : Text.plain s = true -> Text.plain (Colorize p s c) = true.
Proof.
  intros Hs. unfold Colorize. destruct (colorScheme p); [|exact Hs].
  now apply ColorizeText_plain.
Qed.

Lemma drop_plain n : forall s, Text.plain s = true -> Text.plain (Text.drop n s) = true.
Proof.
  induction n as [|n IH]; intros s Hs; simpl.
  - destruct s; exact Hs.
  - destruct s as [|c s]; [exact Hs|]. simpl in Hs.
    apply andb_true_iff in Hs as [_ Hs]. now apply IH.
Qed.

Lemma digitRun_plain s : Text.plain s = true -> Text.plain (re.digitRun s) = true.
Proof.
  induction s as [|c s IH]; intros Hs; simpl in *; [reflexivity|].
  apply andb_true_iff in Hs as [Hc Hs].
  destruct (re.isDigit c); [|reflexivity]. simpl. now rewrite Hc, IH.
Qed.

Lemma Split_plain sep s : Text.plain s = true ->
  Forall (fun x => Text.plain x = true) (Text.Split s sep).
Proof.
  induction s as [|c s IH]; intros Hs; simpl in *.
  - repeat constructor.
  - apply andb_true_iff in Hs as [Hc Hs]. specialize (IH Hs).
    destruct (Ascii.eqb c sep).
    + constructor; [reflexivity|exact IH].
    + destruct (Text.Split s sep) as [|x r]; [repeat constructor; simpl; now rewrite Hc|].
      inversion IH; subst. constructor; [simpl; now rewrite Hc|assumption].
Qed.

Lemma colorizeType_plain p t : Text.plain t = true -> Text.plain (colorizeType p t) = true.
Proof.
  intros Ht. unfold colorizeType.
  destruct (re.slicePrefix t) eqn:E1.
  - pose proof (drop_plain 2 t Ht) as H2.
    destruct (re.arrayPrefix (Text.drop 2 t)) as [num|] eqn:E2.
    + assert (Hn : Text.plain num = true).
      { unfold re.arrayPrefix in E2.
        destruct (Text.drop 2 t) as [|c r]; [discriminate|].
        destruct c as [[] [] [] [] [] [] [] []]; try discriminate.
        simpl in H2.
        destruct (Text.drop _ r) as [|c' r']; [discriminate|].
        destruct c' as [[] [] [] [] [] [] [] []]; try discriminate.
        destruct (_ && _); [|discriminate]. injection E2 as <-.
        now apply digitRun_plain. }
      pose proof (drop_plain (2 + String.length num) _ H2) as H3.
      destruct (re.qualified _) as [[a b]|] eqn:E3.
      * unfold re.qualified in E3. pose proof (Split_plain "."%char _ H3) as HS.
        destruct (Text.Split _ _) as [|x [|y [|z r]]]; try discriminate.
        destruct (_ && _); [|discriminate]. injection E3 as <- <-.
        inversion HS as [|? ? Hx HS']; subst. inversion HS' as [|? ? Hy _]; subst.
        rewrite !plain_app. rewrite (Colorize_plain p num), Hx, (Colorize_plain p y); auto.
      * rewrite !plain_app. rewrite (Colorize_plain p num), Colorize_plain; auto.
    + destruct (re.qualified _) as [[a b]|] eqn:E3.
      * unfold re.qualified in E3. pose proof (Split_plain "."%char _ H2) as HS.
        destruct (Text.Split _ _) as [|x [|y [|z r]]]; try discriminate.
        destruct (_ && _); [|discriminate]. injection E3 as <- <-.
        inversion HS as [|? ? Hx HS']; subst. inversion HS' as [|? ? Hy _]; subst.
        rewrite !plain_app. rewrite Hx, (Colorize_plain p y); auto.
      * rewrite !plain_app. rewrite Colorize_plain; auto.
  - destruct (re.arrayPrefix t) as [num|] eqn:E2.
    + assert (Hn : Text.plain num = true).
      { unfold re.arrayPrefix in E2.
        destruct t as [|c r]; [discriminate|].
        destruct c as [[] [] [] [] [] [] [] []]; try discriminate.
        simpl in Ht.
        destruct (Text.drop _ r) as [|c' r']; [discriminate|].
        destruct c' as [[] [] [] [] [] [] [] []]; try discriminate.
        destruct (_ && _); [|discriminate]. injection E2 as <-.
        now apply digitRun_plain. }
      pose proof (drop_plain (2 + String.length num) _ Ht) as H3.
      destruct (re.qualified _) as [[a b]|] eqn:E3.
      * unfold re.qualified in E3. pose proof (Split_plain "."%char _ H3) as HS.
        destruct (Text.Split _ _) as [|x [|y [|z r]]]; try discriminate.
        destruct (_ && _); [|discriminate]. injection E3 as <- <-.
        inversion HS as [|? ? Hx HS']; subst. inversion HS' as [|? ? Hy _]; subst.
        rewrite !plain_app. rewrite (Colorize_plain p num), Hx, (Colorize_plain p y); auto.
      * rewrite !plain_app. rewrite (Colorize_plain p num), Colorize_plain; auto.
    + destruct (re.qualified _) as [[a b]|] eqn:E3.
      * unfold re.qualified in E3. pose proof (Split_plain "."%char _ Ht) as HS.
        destruct (Text.Split _ _) as [|x [|y [|z r]]]; try discriminate.
        destruct (_ && _); [|discriminate]. injection E3 as <- <-.
        inversion HS as [|? ? Hx HS']; subst. inversion HS' as [|? ? Hy _]; subst.
        rewrite !plain_app. rewrite Hx, (Colorize_plain p y); auto.
      * rewrite !plain_app. rewrite Colorize_plain; auto.
Qed.

(* ===================================================================== *)
(** * Digits *)
(* ===================================================================== *)

Lemma digit_value_lower d : 0 <= d < 16 -> digit_value (Text.lower_digit d) = Some d.
Proof.
  intros H. apply digit_cases in H.
  repeat (destruct H as [->|H]; [reflexivity|]). subst. reflexivity.
Qed.

Lemma parse_from_app base s1 : forall acc s2,
  parse_from base acc (s1 ++ s2) = parse_from base (parse_from base acc s1) s2.
Proof.
  induction s1 as [|c s1 IH]; intros acc s2; [reflexivity|].
  rewrite sapp_cons. simpl. destruct (digit_value c); apply IH.
Qed.

(** The digit loop writes the digits of [n], most significant first, and
    as many as [n] needs. *)
Lemma digits_loop_spec base fuel : forall n acc,
  2 <= base <= 16 -> 0 <= n < 2 ^ Z.of_nat fuel ->
  exists ds,
    Text.digits_loop fuel Text.lower_digit base n acc = ds ++ acc
    /\ (forall a, parse_from base a ds = a * base ^ Z.of_nat (String.length ds) + n)
    /\ (forall k, (1 <= k)%nat -> n < base ^ Z.of_nat k ->
                  (String.length ds <= k)%nat).
Proof.
  induction fuel as [|f IH]; intros n acc Hb Hn.
  - simpl in Hn. assert (n = 0) by lia. subst. exists "". simpl.
    split; [reflexivity|]. split; [intros; lia|intros; lia].
  - simpl Text.digits_loop.
    assert (Hmod : 0 <= n mod base < base) by (apply Z.mod_pos_bound; lia).
    assert (Hdm : n = base * (n / base) + n mod base) by (apply Z.div_mod; lia).
    assert (Hdiv : 0 <= n / base) by (apply Z.div_pos; lia).
    destruct (Z.eqb_spec (n / base) 0) as [E|E].
    + exists (Text.str (Text.lower_digit (n mod base))).
      split; [reflexivity|]. split.
      * intros a. simpl. rewrite digit_value_lower by lia.
        simpl. rewrite E in Hdm. lia.
      * intros k Hk _. simpl. lia.
    + assert (Hf : 0 <= n / base < 2 ^ Z.of_nat f).
      { split; [exact Hdiv|].
        rewrite Nat2Z.inj_succ, Z.pow_succ_r in Hn by lia.
        apply Z.div_lt_upper_bound; [lia|].
        assert (0 < 2 ^ Z.of_nat f) by (apply Z.pow_pos_nonneg; lia). nia. }
      destruct (IH (n / base) (String (Text.lower_digit (n mod base)) acc) Hb Hf)
        as (ds & E1 & E2 & E3).
      exists (ds ++ Text.str (Text.lower_digit (n mod base))).
      split; [rewrite E1, sapp_assoc; reflexivity|]. split.
      * intros a. rewrite parse_from_app, E2. simpl.
        rewrite digit_value_lower by lia. rewrite slength_app. simpl.
        rewrite Nat2Z.inj_add. simpl Z.of_nat.
        rewrite Z.pow_add_r by lia. lia.
      * intros k Hk Hlt. rewrite slength_app. simpl.
        destruct k as [|k]; [lia|]. destruct k as [|k].
        { simpl in Hlt. exfalso. apply E. apply Z.div_small. lia. }
        assert (String.length ds <= S k)%nat; [|lia].
        apply E3; [lia|].
        rewrite (Nat2Z.inj_succ (S k)), Z.pow_succ_r in Hlt by lia.
        apply Z.div_lt_upper_bound; lia.
Qed.

Lemma digits_spec base n :
  2 <= base <= 16 -> 0 <= n ->
  parse base (Text.digits Text.lower_digit base n) = n
  /\ (forall k, (1 <= k)%nat -> n < base ^ Z.of_nat k ->
                (String.length (Text.digits Text.lower_digit base n) <= k)%nat).
Proof.
  intros Hb Hn. unfold Text.digits, parse.
  assert (Hf : 0 <= n < 2 ^ Z.of_nat (S (Z.to_nat (Z.log2 n)))).
  { split; [exact Hn|]. rewrite Nat2Z.inj_succ, Z2Nat.id by apply Z.log2_nonneg.
    destruct (Z.eq_dec n 0) as [->|Hne]; [reflexivity|].
    apply Z.log2_spec. lia. }
  destruct (digits_loop_spec base _ n "" Hb Hf) as (ds & E1 & E2 & E3).
  rewrite E1, sapp_nil_r. split; [rewrite E2; lia|exact E3].
Qed.

Lemma Repeat_length s n : String.length (Text.Repeat s n) = (n * String.length s)%nat.
Proof.
  induction n as [|n IH]; simpl; [reflexivity|]. rewrite slength_app, IH. lia.
Qed.

Lemma parse_from_zeros base n : forall s,
  parse_from base 0 (Text.Repeat "0" n ++ s) = parse_from base 0 s.
Proof.
  induction n as [|n IH]; intros s; [reflexivity|].
  simpl Text.Repeat. rewrite sapp_assoc. simpl. apply IH.
Qed.

(** [%0wx] of a number below [16^w] has exactly [w] digits, and they
    denote the number. *)
Lemma fmt_0x_spec w n :
  (1 <= w)%nat -> 0 <= n < 16 ^ Z.of_nat w ->
  String.length (Text.fmt_0x w n) = w /\ parse 16 (Text.fmt_0x w n) = n.
Proof.
  intros Hw Hn. unfold Text.fmt_0x, Text.fmt_x, Text.pad_left.
  destruct (digits_spec 16 n ltac:(lia) ltac:(lia)) as [P L].
  specialize (L w Hw (proj2 Hn)). split.
  - rewrite slength_app, Repeat_length. simpl. lia.
  - unfold parse. rewrite parse_from_zeros. exact P.
Qed.

Lemma fmt_d_uint_spec n : 0 <= n -> parse 10 (Text.fmt_d_uint n) = n.
Proof. intros Hn. apply digits_spec; lia. Qed.

(* ===================================================================== *)
(** * Values that are one token *)
(* ===================================================================== *)

Lemma set_visited_same p : set_visited p (visited p) = p.
Proof. destruct p; reflexivity. Qed.

(** A value that is printed as one token. *)
Lemma Format_token env h n p v text color :
  (forall rec, dispatch env h rec (subPrinter p v)
               = (let* r := raw env in ColorPrint r color) (subPrinter p v)) ->
  raw env (subPrinter p v) = Ok (text, subPrinter p v) ->
  Format env h (S n) v p = Ok (typeset (Colorize p text color), p).
Proof.
  intros HD HR. simpl. rewrite Format_body_unfold, HD.
  unfold bind. rewrite HR. unfold ColorPrint, bind, gets.
  destruct (Print_typeset (Colorize (subPrinter p v) text color) (subPrinter p v)
              eq_refl eq_refl) as (pp' & E1 & E2 & E3).
  rewrite E1, E2, E3. simpl.
  rewrite (Colorize_ext (subPrinter p v) p eq_refl), set_visited_same.
  reflexivity.
Qed.

Lemma uint_text_plain p k x : Text.plain (uint_text p k x) = true.
Proof.
  unfold uint_text.
  destruct (sized k) as [[w b]|]; destruct (decimalUint p);
    try destruct (_ && _); try destruct (thousandsSeparator p);
    rewrite ?plain_app, ?localized_d_uint_plain, ?fmt_d_uint_plain,
      ?fmt_0x_plain, ?fmt_x_plain; reflexivity.
Qed.

Lemma int_text_plain p x : Text.plain (int_text p x) = true.
Proof.
  unfold int_text. destruct (thousandsSeparator p);
    [apply localized_d_int_plain|apply fmt_d_int_plain].
Qed.

Lemma Format_uint env h n p t k x :
  prettyPrinter env (reflect.VUint t k x) = None ->
  Format env h (S n) (reflect.ValueOf (reflect.VUint t k x)) p
  = Ok (Colorize p (uint_text p k x) IntegerColor, p).
Proof.
  intros HP.
  rewrite <- (typeset_plain (Colorize p (uint_text p k x) IntegerColor))
    by (apply Colorize_plain, uint_text_plain).
  apply Format_token.
  - intros rec. rewrite (dispatch_kind env h rec _ (reflect.VUint t k x)); auto.
    destruct k; reflexivity.
  - unfold raw, uint_text, bind, gets, ret, id, fmtOrLocalizedSprintf_uint.
    simpl. destruct k; simpl; destruct (decimalUint p); simpl;
      unfold gets, ret; simpl; try destruct (thousandsSeparator p); reflexivity.
Qed.

Lemma Format_int env h n p t k x :
  prettyPrinter env (reflect.VInt t k x) = None ->
  Format env h (S n) (reflect.ValueOf (reflect.VInt t k x)) p
  = Ok (Colorize p (int_text p x) IntegerColor, p).
Proof.
  intros HP.
  rewrite <- (typeset_plain (Colorize p (int_text p x) IntegerColor))
    by (apply Colorize_plain, int_text_plain).
  apply Format_token.
  - intros rec. rewrite (dispatch_kind env h rec _ (reflect.VInt t k x)); auto.
    destruct k; reflexivity.
  - unfold raw, int_text, bind, gets, ret, id, fmtOrLocalizedSprintf_int.
    simpl. reflexivity.
Qed.

(* ===================================================================== *)
(** * Large sequences, integers and the frame of [Format] *)
(* ===================================================================== *)

Lemma parse_from_group3 base s : forall acc,
  parse_from base acc (Text.group3 s) = parse_from base acc s.
Proof.
  induction s as [|c s IH]; intros acc; [reflexivity|].
  simpl Text.group3.
  match goal with |- context [if ?b then _ else _] => destruct b end.
  - change ("," ++ Text.group3 s) with (String ","%char (Text.group3 s)).
    simpl. destruct (digit_value c); apply IH.
  - simpl. destruct (digit_value c); apply IH.
Qed.

Lemma printSlice_elided h rec pp x t len :
  value pp = reflect.ValueOf x ->
  reflect.named x = Some t -> sequence_length x = Some len ->
  1024 < Z.of_nat len ->
  printSlice h rec pp =
  Print (colorizeType pp (reflect.tString t) ++ "{...}")
        (set_visited pp (marked x (visited pp))).
Proof.
  intros Hv Hn Hs Hlen.
  assert (Hl0 : (len =? 0)%nat = false) by (apply Nat.eqb_neq; lia).
  apply Z.ltb_lt in Hlen.
  destruct x; try discriminate; simpl in Hn, Hs; injection Hn as <-.
  - injection Hs as <-.
    unfold printSlice. munfold. rewrite Hv. cbn.
    rewrite Hl0, Hlen. unfold typeString. munfold. rewrite Hv. cbn.
    unfold marked. simpl. now rewrite set_visited_same.
  - destruct (ptr =? 0) eqn:Hptr; [discriminate|]. injection Hs as <-.
    unfold printSlice. munfold. rewrite Hv. cbn. rewrite Hptr, Hl0.
    unfold typeString. munfold. unfold marked. simpl.
    destruct (seen (visited pp) ptr) eqn:Hseen.
    + rewrite Hv. cbn.
      assert (E : <[ptr:=true]> (visited pp) = visited pp).
      { apply insert_id. unfold seen in Hseen.
        destruct (visited pp !! ptr) as [[]|]; simpl in Hseen; congruence. }
      rewrite E. now rewrite set_visited_same.
    + rewrite Hlen. cbn. rewrite Hv. cbn. reflexivity.
Qed.

(** C9.  A sequence of more than 1024 elements is rendered as its type
    followed by [{...}]: that is the only text [Format] writes, whatever
    the elements are and with fuel for no element; the type is the text
    itself when it has no tab or line break. *)
Theorem large_sequence_elided env h n p x t len :
  reflect.named x = Some t -> sequence_length x = Some len ->
  prettyPrinter env x = None ->
  1024 < Z.of_nat len ->
  Format env h (S n) (reflect.ValueOf x) p
  = Ok (typeset (colorizeType p (reflect.tString t) ++ "{...}"),
        set_visited p (marked x (visited p)))
  /\ (Text.plain (reflect.tString t) = true ->
      Format env h 1 (reflect.ValueOf x) p
      = Ok (colorizeType p (reflect.tString t) ++ "{...}",
            set_visited p (marked x (visited p)))).
Proof.
  intros Hn Hs Hpp Hlen.
  assert (G : forall m, Format env h (S m) (reflect.ValueOf x) p
              = Ok (typeset (colorizeType p (reflect.tString t) ++ "{...}"),
                    set_visited p (marked x (visited p)))).
  { intros m. simpl. rewrite Format_body_unfold.
    assert (Hx : x <> reflect.VInvalid) by (intros ->; discriminate).
    rewrite (dispatch_kind env h _ _ x); auto.
    2:{ simpl. rewrite Interface_ValueOf by exact Hx.
        destruct x; try discriminate; reflexivity. }
    assert (HK : reflect.Kind_ (value (subPrinter p (reflect.ValueOf x))) = reflect.Array
                 \/ reflect.Kind_ (value (subPrinter p (reflect.ValueOf x))) = reflect.Slice).
    { destruct x; try discriminate; simpl; auto. }
    assert (E : printSlice h (Format env h m) (subPrinter p (reflect.ValueOf x))
                = Print (colorizeType (subPrinter p (reflect.ValueOf x)) (reflect.tString t) ++ "{...}")
                    (set_visited (subPrinter p (reflect.ValueOf x))
                       (marked x (visited (subPrinter p (reflect.ValueOf x)))))).
    { apply (printSlice_elided h _ _ x t len); auto. }
    destruct HK as [HK|HK]; rewrite HK, E.
    all: destruct (Print_typeset
             (colorizeType (subPrinter p (reflect.ValueOf x)) (reflect.tString t) ++ "{...}")
             (set_visited (subPrinter p (reflect.ValueOf x))
                (marked x (visited (subPrinter p (reflect.ValueOf x)))))
             eq_refl eq_refl) as (pp' & E1 & E2 & E3).
    all: rewrite E1, E2, E3.
    all: rewrite (colorizeType_ext _ p) by reflexivity; reflexivity. }
  split; [apply G|].
  intros Hplain. rewrite G. rewrite typeset_plain; [reflexivity|].
  rewrite plain_app, colorizeType_plain by exact Hplain. reflexivity.
Qed.

Lemma large_sequence_elided_witness :
  Format plain_env (Ex.many_store 1025) 1 (reflect.ValueOf (Ex.many 1025))
    (Ex.printer false false false)
  = Ok ("[]int{...}",
        set_visited (Ex.printer false false false) (<[300 := true]> ∅)).
Proof.
  apply (large_sequence_elided plain_env (Ex.many_store 1025) 0
           (Ex.printer false false false) (Ex.many 1025) Ex.t_ints 1025);
    [reflexivity | reflexivity | reflexivity | lia | reflexivity].
Defined.

(** C6.  An unsigned integer of 8, 16, 32 or 64 bits is rendered as [0x]
    and exactly 2, 4, 8 or 16 hexadecimal digits that denote it, and in
    decimal when decimal is preferred; a signed integer is rendered in
    decimal whatever the flag is.  Thousands separators come with the
    localized printer. *)
Theorem unsigned_hex_signed_decimal env h n p t k x w bits :
  prettyPrinter env (reflect.VUint t k x) = None ->
  sized k = Some (w, bits) -> 0 <= x < 2 ^ bits ->
  Format env h (S n) (reflect.ValueOf (reflect.VUint t k x)) p
  = Ok (Colorize p
          (if decimalUint p then
             if thousandsSeparator p && negb (Nat.eqb w 2)
             then Text.localized_d_uint x else Text.fmt_d_uint x
           else "0x" ++ Text.fmt_0x w x) IntegerColor, p)
  /\ String.length (Text.fmt_0x w x) = w
  /\ parse 16 (Text.fmt_0x w x) = x
  /\ parse 10 (Text.fmt_d_uint x) = x
  /\ parse 10 (Text.localized_d_uint x) = x
  /\ forall t' k' y,
       prettyPrinter env (reflect.VInt t' k' y) = None ->
       Format env h (S n) (reflect.ValueOf (reflect.VInt t' k' y)) p
       = Ok (Colorize p
               (if thousandsSeparator p then Text.localized_d_int y
                else Text.fmt_d_int y) IntegerColor, p).
Proof.
  intros Hpp Hk Hx.
  assert (Hw : (1 <= w)%nat /\ 2 ^ bits = 16 ^ Z.of_nat w).
  { destruct k; simpl in Hk; try discriminate; injection Hk as <- <-;
      split; try lia; reflexivity. }
  destruct Hw as [Hw Hpow]. rewrite Hpow in Hx.
  destruct (fmt_0x_spec w x Hw Hx) as [L P].
  split; [|split; [exact L|split; [exact P|split; [|split]]]].
  - rewrite (Format_uint env h n p t k x Hpp). unfold uint_text. now rewrite Hk.
  - apply fmt_d_uint_spec. lia.
  - unfold Text.localized_d_uint, parse. rewrite parse_from_group3.
    apply fmt_d_uint_spec. lia.
  - intros t' k' y Hy. now rewrite (Format_int env h n p t' k' y Hy).
Qed.

Lemma unsigned_hex_signed_decimal_witness :
  Format plain_env Ex.empty 1 (reflect.ValueOf (Ex.uint8 255))
    (Ex.printer false false false)
  = Ok ("0xff", Ex.printer false false false)
  /\ Format plain_env Ex.empty 1 (reflect.ValueOf (Ex.uint8 255))
       (Ex.printer true false false)
     = Ok ("255", Ex.printer true false false).
Proof.
  split.
  - apply (unsigned_hex_signed_decimal plain_env Ex.empty 0
             (Ex.printer false false false) Ex.t_uint8 reflect.KUint8 255 2 8);
      [reflexivity | reflexivity | lia].
  - apply (unsigned_hex_signed_decimal plain_env Ex.empty 0
             (Ex.printer true false false) Ex.t_uint8 reflect.KUint8 255 2 8);
      [reflexivity | reflexivity | lia].
Defined.

(** A signed integer with the flag for decimal off, and the widths of the
    other unsigned kinds. *)
Lemma integers_rendered :
  text_of (Format plain_env Ex.empty 1 (reflect.ValueOf (Ex.int (-255)))
             (Ex.printer false false false)) = Ok "-255"
  /\ text_of (Format plain_env Ex.empty 1
                (reflect.ValueOf (reflect.VUint (reflect.MkNamed "uint16" "")
                                    reflect.KUint16 255))
                (Ex.printer false false false)) = Ok "0x00ff"
  /\ text_of (Format plain_env Ex.empty 1
                (reflect.ValueOf (reflect.VUint (reflect.MkNamed "uint32" "")
                                    reflect.KUint32 255))
                (Ex.printer false false false)) = Ok "0x000000ff"
  /\ text_of (Format plain_env Ex.empty 1
                (reflect.ValueOf (reflect.VUint (reflect.MkNamed "uint64" "")
                                    reflect.KUint64 255))
                (Ex.printer false false false)) = Ok "0x00000000000000ff".
Proof. repeat split; vm_compute; reflexivity. Qed.

(** C10.  [Format] leaves the printer it is called on as it was, but for
    the visited set, which has grown: the buffer, the column aligner and
    the depth are the same, and so is what [String] returns. *)
Theorem Format_frame_effect env h n v p s p' :
  Format env h n v p = Ok (s, p') ->
  Buffer p' = Buffer p /\ tw p' = tw p /\ depth p' = depth p
  /\ p' = set_visited p (visited p')
  /\ grows (visited p) (visited p')
  /\ fst (Printer_String p') = fst (Printer_String p).
Proof.
  intros H. destruct (Format_frame env h n v p s p' H) as [E G].
  rewrite E. destruct p; simpl. repeat split; auto.
Qed.

Lemma Format_frame_effect_witness :
  fst (Printer_String (writing "Boot" (Ex.printer false false false))) = "Boot"
  /\ fst (Printer_String
            (set_visited (writing "Boot" (Ex.printer false false false))
               (<[100 := true]> ∅)))
     = fst (Printer_String (writing "Boot" (Ex.printer false false false))).
Proof.
  split; [reflexivity|].
  apply (Format_frame_effect plain_env Ex.self_store 3 (reflect.ValueOf Ex.self)
           (writing "Boot" (Ex.printer false false false))
           ("map[string]interface {}{" ++ Text.str Text.LF
            ++ "    " ++ Text.str Text.QUOTE ++ "self" ++ Text.str Text.QUOTE
            ++ ": map[string]interface {}{...}," ++ Text.str Text.LF ++ "}")).
  vm_compute. reflexivity.
Defined.

(* ===================================================================== *)
(** * Cycles *)
(* ===================================================================== *)

Lemma bind_Ok {A B} (m : M A) (k : A -> M B) p b p' :
  bind m k p = Ok (b, p') ->
  exists a q, m p = Ok (a, q) /\ k a q = Ok (b, p').
Proof.
  unfold bind. destruct (m p) as [[a q]| |]; try discriminate. eauto.
Qed.

Lemma seen_true_insert v a : seen v a = true -> <[a := true]> v = v.
Proof.
  intros H. apply insert_id. unfold seen in H.
  destruct (v !! a) as [[]|]; simpl in H; congruence.
Qed.

Section Elision.
Variable env : Env.
Variable h : reflect.Store.

(** A container that was visited is not traversed again. *)
Lemma dispatch_elided rec pp x a m :
  value pp = reflect.ValueOf x ->
  prettyPrinter env x = None -> identity x = Some a ->
  elision h pp x = Some m -> seen (visited pp) a = true ->
  dispatch env h rec pp = Print m pp.
Proof.
  intros Hv Hpp Hid Hel Hseen.
  assert (Hx : x <> reflect.VInvalid) by (intros ->; discriminate).
  rewrite (dispatch_kind env h rec pp x); auto.
  2:{ rewrite Hv, Interface_ValueOf by exact Hx.
      destruct x; try discriminate; reflexivity. }
  rewrite Hv.
  destruct x; try discriminate; simpl in Hid, Hel; injection Hid as ->; simpl.
  - (* slice *)
    destruct (a =? 0) eqn:Ha; [discriminate|].
    destruct (len =? 0)%nat eqn:Hl; [discriminate|]. simpl in Hel.
    injection Hel as <-.
    unfold printSlice. munfold. rewrite Hv. cbn. rewrite Ha, Hl, Hseen.
    unfold typeString. munfold. rewrite Hv. reflexivity.
  - (* map *)
    destruct (reflect.maps h !! a) as [[|e es]|] eqn:Hm; try discriminate.
    destruct (a =? 0) eqn:Ha; [discriminate|]. injection Hel as <-.
    unfold printMap. munfold. rewrite Hv. cbn.
    unfold reflect.entries. rewrite Ha, Hm. cbn. rewrite Hseen.
    unfold typeString. munfold. rewrite Hv. reflexivity.
  - (* pointer *)
    destruct (a =? 0) eqn:Ha; [discriminate|].
    destruct (reflect.cells h !! a) as [y|] eqn:Hc; [|discriminate].
    destruct (reflect.named y) as [t'|] eqn:Hy; [|discriminate].
    injection Hel as <-.
    unfold printPtr. munfold. rewrite Hv. cbn. rewrite Hseen.
    unfold elemTypeString. munfold. rewrite Hv. cbn. rewrite Ha, Hc.
    unfold reflect.Type_String. cbn. rewrite Hy. reflexivity.
Qed.

Variable rec : reflect.Value -> M string.
Hypothesis Hrec : forall v, keeps (rec v).

(** A container that is traversed is visited afterwards. *)
Lemma dispatch_marks pp x a m u pp' :
  value pp = reflect.ValueOf x ->
  prettyPrinter env x = None -> identity x = Some a ->
  elision h pp x = Some m ->
  dispatch env h rec pp = Ok (u, pp') ->
  seen (visited pp') a = true.
Proof.
  intros Hv Hpp Hid Hel HD.
  destruct (seen (visited pp) a) eqn:Hseen.
  { apply (keeps_dispatch env h rec Hrec pp u pp' HD). exact Hseen. }
  assert (Hx : x <> reflect.VInvalid) by (intros ->; discriminate).
  rewrite (dispatch_kind env h rec pp x) in HD; auto.
  2:{ rewrite Hv, Interface_ValueOf by exact Hx.
      destruct x; try discriminate; reflexivity. }
  rewrite Hv in HD.
  assert (Hafter : forall (k : M unit) q,
            keeps k -> k (set_visited pp (<[a := true]> (visited pp))) = Ok (u, q) ->
            seen (visited q) a = true).
  { intros k q Hk Hq. apply (Hk _ _ _ Hq). simpl.
    rewrite seen_insert, Z.eqb_refl. reflexivity. }
  pose proof (keeps_typeString) as KT.
  destruct x; try discriminate; simpl in Hid, Hel, HD; injection Hid as ->.
  - (* slice *)
    destruct (a =? 0) eqn:Ha; [discriminate|].
    destruct (len =? 0)%nat eqn:Hl; [discriminate|].
    unfold printSlice in HD.
    apply bind_Ok in HD as (p0 & q0 & E0 & HD). injection E0 as <- <-.
    unfold id in HD. rewrite Hv in HD. cbn in HD.
    rewrite Ha in HD.
    apply bind_Ok in HD as (l & q2 & E2 & HD). injection E2 as <- <-.
    rewrite Hl in HD.
    apply bind_Ok in HD as (ptr & q3 & E3 & HD). injection E3 as <- <-.
    rewrite Hseen in HD. cbn in HD.
    revert HD. apply Hafter.
    unfold indented, IndentPrint, Println, nil_. keeps_auto.
    all: apply Hrec.
  - (* map *)
    destruct (reflect.maps h !! a) as [[|e es]|] eqn:Hm; try discriminate.
    destruct (a =? 0) eqn:Ha; [discriminate|].
    unfold printMap in HD.
    apply bind_Ok in HD as (p0 & q0 & E0 & HD). injection E0 as <- <-.
    unfold id in HD. rewrite Hv in HD. cbn in HD.
    unfold reflect.entries in HD. rewrite Ha, Hm in HD. cbn in HD.
    rewrite Hseen in HD. cbn in HD.
    revert HD. apply Hafter.
    unfold indented, IndentPrint. keeps_auto.
    all: apply Hrec.
  - (* pointer *)
    destruct (a =? 0) eqn:Ha; [discriminate|].
    unfold printPtr in HD.
    apply bind_Ok in HD as (p0 & q0 & E0 & HD). injection E0 as <- <-.
    unfold id in HD. rewrite Hv in HD. cbn in HD.
    rewrite Hseen, Ha in HD. cbn in HD.
    revert HD. apply Hafter.
    unfold nil_. keeps_auto.
    all: apply Hrec.
Qed.
End Elision.

Lemma elision_subPrinter h p v x : elision h (subPrinter p v) x = elision h p x.
Proof.
  unfold elision.
  destruct x; try reflexivity;
    rewrite ?(colorizeType_ext (subPrinter p v) p) by reflexivity; reflexivity.
Qed.

(** C5.  Cycle safety.  With fuel above the weight of the object and of
    the containers that were not visited, [Format] comes to an end; the
    visited set it returns holds every identity it held before; a map or
    slice that is not empty and a pointer that is not nil is in the set
    once it has been rendered, and when it is met again it is rendered as
    its type followed by [{...}] without being traversed and with the
    printer unchanged. *)
Theorem cycle_safety env h p x :
  (forall n, (weight x + unvisited h (visited p) < n)%nat ->
             total (Format env h n (reflect.ValueOf x) p))
  /\ (forall n s p', Format env h n (reflect.ValueOf x) p = Ok (s, p') ->
                     grows (visited p) (visited p'))
  /\ (forall a m,
        prettyPrinter env x = None -> identity x = Some a ->
        elision h p x = Some m ->
        (forall n s p', Format env h n (reflect.ValueOf x) p = Ok (s, p') ->
                        seen (visited p') a = true)
        /\ (seen (visited p) a = true ->
            forall n, Format env h (S n) (reflect.ValueOf x) p = Ok (typeset m, p))).
Proof.
  split; [|split].
  - intros n Hn. apply Format_total. exact Hn.
  - intros n s p' H. apply (Format_frame env h n _ _ _ _ H).
  - intros a m Hpp Hid Hel. split.
    + intros [|n] s p' H; simpl in H; [discriminate|].
      rewrite Format_body_unfold in H.
      destruct (dispatch env h (Format env h n) (subPrinter p (reflect.ValueOf x)))
        as [[[] pp']| |] eqn:E; try discriminate.
      injection H as _ <-. simpl.
      assert (Hrec : forall v, keeps (Format env h n v)).
      { intros v q b q' Hq. apply (Format_frame env h n _ _ _ _ Hq). }
      apply (dispatch_marks env h (Format env h n) Hrec
               (subPrinter p (reflect.ValueOf x)) x a m tt pp'
               eq_refl Hpp Hid); [|exact E].
      now rewrite elision_subPrinter.
    + intros Hseen n. simpl. rewrite Format_body_unfold.
      rewrite (dispatch_elided env h _ _ x a m); auto.
      destruct (Print_typeset m (subPrinter p (reflect.ValueOf x)) eq_refl eq_refl)
        as (pp' & E1 & E2 & E3).
      rewrite E1, E2, E3. simpl. now rewrite set_visited_same.
Qed.

Lemma cycle_safety_witness :
  total (Format plain_env Ex.self_store 3 (reflect.ValueOf Ex.self)
           (Ex.printer false false false)).
Proof.
  apply (proj1 (cycle_safety plain_env Ex.self_store (Ex.printer false false false)
                  Ex.self)).
  vm_compute. lia.
Defined.

(** A map that holds itself and a node that points to itself are rendered
    with the marker at the place of the cycle. *)
Lemma self_reference_rendered :
  (exists p', Format plain_env Ex.self_store 3 (reflect.ValueOf Ex.self)
                (Ex.printer false false false)
              = Ok ("map[string]interface {}{" ++ Text.str Text.LF
                    ++ "    " ++ Text.str Text.QUOTE ++ "self" ++ Text.str Text.QUOTE
                    ++ ": map[string]interface {}{...}," ++ Text.str Text.LF ++ "}", p'))
  /\ (exists p', Format plain_env Ex.node_store 3 (reflect.ValueOf Ex.node)
                   (Ex.printer false false false)
                 = Ok ("&main.Node{" ++ Text.str Text.LF
                       ++ "    Next: &main.Node{...}," ++ Text.str Text.LF ++ "}", p')).
Proof. split; eexists; vm_compute; reflexivity. Qed.

(* ===================================================================== *)
(** * The order of the entries of a map *)
(* ===================================================================== *)

Lemma SFeqb_isNaN x : SFeqb x x = negb (Spec.isNaN x).
Proof.
  unfold SFeqb. destruct x as [s|s| |s m e]; try destruct s; simpl; try reflexivity.
  all: rewrite ?Z.compare_refl, ?Pos.compare_refl, ?Pos.compare_cont_refl; simpl;
    rewrite ?Pos.compare_refl; reflexivity.
Qed.



(** [Less] on the keys of the examples: 1 before 2, two arrays of one
    length tied, an integer and a string tied. *)
Lemma Less_examples :
  Less (reflect.ValueOf (Ex.int 1)) (reflect.ValueOf (Ex.int 2)) = true
  /\ Less (reflect.ValueOf (Ex.key 1)) (reflect.ValueOf (Ex.key 2)) = false
  /\ Less (reflect.ValueOf (Ex.key 2)) (reflect.ValueOf (Ex.key 1)) = false
  /\ Less (reflect.ValueOf (Ex.int 1)) (reflect.ValueOf (Ex.str "a")) = false
  /\ Less (reflect.ValueOf (Ex.str "a")) (reflect.ValueOf (Ex.int 1)) = false.
Proof. repeat split; vm_compute; reflexivity. Qed.



Lemma counts_same_maps :
  same_maps (Ex.store_of Ex.counts_12) (Ex.store_of Ex.counts_21).
Proof.
  split; [reflexivity|]. split; [reflexivity|]. intros a. simpl.
  destruct (decide (a = 100)) as [->|Ha].
  - rewrite !lookup_singleton_eq. split; [apply perm_swap|].
    split; vm_compute; reflexivity.
  - rewrite !lookup_singleton_ne by congruence. exact I.
Qed.


(** The map of integers is rendered with its keys in ascending order,
    whatever the order of its iteration is. *)
Lemma counts_rendered :
  text_of (Format plain_env (Ex.store_of Ex.counts_21) 4 (reflect.ValueOf Ex.counts)
             (Ex.printer false false false))
  = Ok ("map[int]string{" ++ Text.str Text.LF
        ++ "    1:  " ++ Text.str Text.QUOTE ++ "a" ++ Text.str Text.QUOTE ++ ","
        ++ Text.str Text.LF
        ++ "    2:  " ++ Text.str Text.QUOTE ++ "b" ++ Text.str Text.QUOTE ++ ","
        ++ Text.str Text.LF ++ "}").
Proof. vm_compute. reflexivity. Qed.

(* ===================================================================== *)
(** * Where [Format] panics *)
(* ===================================================================== *)

(** C1.  [Format] does not return for every value.  Of a struct with an
    unexported field, printed with the option for exported fields off, the
    field cannot be turned into an interface; neither can the zero Value,
    which [Format(nil)] makes; an array of strings is no [[]string]; and
    the group size of a slice of empty strings divides by zero.  With the
    option on, the struct is rendered. *)
Theorem Format_panics :
  (forall n,
     Format plain_env Ex.empty (S (S n)) (reflect.ValueOf Ex.hidden)
       (Ex.printer false false false)
     = Panic "reflect.Value.Interface: cannot return value obtained from unexported field or method")
  /\ (forall n,
        Format plain_env Ex.empty (S n) reflect.zero (Ex.printer false false false)
        = Panic "reflect: call of reflect.Value.Interface on zero Value")
  /\ (forall n,
        Format plain_env Ex.empty (S n) (reflect.ValueOf Ex.pair)
          (Ex.printer false false false)
        = Panic "interface conversion: interface {} is not []string")
  /\ (forall n,
        Format plain_env Ex.blank_store (S n) (reflect.ValueOf Ex.blank)
          (Ex.printer false false false)
        = Panic "runtime error: integer divide by zero")
  /\ (forall n,
        text_of (Format plain_env Ex.empty (S n) (reflect.ValueOf Ex.hidden)
                   (Ex.printer false true false))
        = Ok "main.T{}").
Proof.
  repeat split; intros n; vm_compute; reflexivity.
Qed.

(* ===================================================================== *)
(** * The group size of a slice of strings *)
(* ===================================================================== *)

Lemma longest_fold strs : forall acc,
  0 <= acc ->
  fold_left (fun acc e =>
               res_bind acc (fun max =>
                 match e with
                 | reflect.VString _ s =>
                     let l := Text.slen s in Ok (if max <? l then l else max)
                 | _ => @reflect.fault Z
                 end)) (string_elems strs) (Ok acc)
  = Ok (Z.max acc (longest strs)).
Proof.
  induction strs as [|s strs IH]; intros acc Hacc; simpl.
  - f_equal. lia.
  - assert (Hl : 0 <= longest strs).
    { clear. induction strs; simpl; lia. }
    destruct (acc <? Text.slen s) eqn:E.
    + apply Z.ltb_lt in E. rewrite IH by lia. f_equal. lia.
    + apply Z.ltb_ge in E. rewrite IH by lia. f_equal. lia.
Qed.

Lemma longest_nonneg strs : 0 <= longest strs.
Proof. induction strs; simpl; lia. Qed.

Lemma string_elems_length strs : List.length (string_elems strs) = List.length strs.
Proof. apply length_map. Qed.

Lemma elements_strings h ptr strs :
  reflect.arrays h !! ptr = Some (string_elems strs) ->
  reflect.elements h ptr (List.length strs) = Ok (string_elems strs).
Proof.
  intros H. unfold reflect.elements.
  destruct strs as [|s strs]; [reflexivity|].
  change (Nat.eqb (List.length (s :: strs)) 0) with false. cbv iota.
  rewrite H, string_elems_length, Nat.leb_refl.
  rewrite <- (string_elems_length (s :: strs)), firstn_all. reflexivity.
Qed.

Lemma stringGroupSize_longest h ptr strs :
  reflect.arrays h !! ptr = Some (string_elems strs) ->
  stringGroupSize h (strings_at ptr strs) = Ok (longest strs).
Proof.
  intros H. unfold stringGroupSize, strings_at.
  rewrite (elements_strings h ptr strs H). simpl res_bind.
  rewrite longest_fold by lia. f_equal. pose proof (longest_nonneg strs). lia.
Qed.

Lemma groupSizeOf_strings h pp ptr strs :
  value pp = reflect.ValueOf (strings_at ptr strs) ->
  reflect.arrays h !! ptr = Some (string_elems strs) ->
  groupSizeOf h pp
  = if longest strs =? 0 then Panic "runtime error: integer divide by zero"
    else Ok (Z.quot 36 (longest strs)).
Proof.
  intros Hv H. unfold groupSizeOf. rewrite Hv.
  change (res_bind (stringGroupSize h (strings_at ptr strs))
            (fun max => if max =? 0 then Panic "runtime error: integer divide by zero"
                        else Ok (Z.quot 36 max))
          = if longest strs =? 0 then Panic "runtime error: integer divide by zero"
            else Ok (Z.quot 36 (longest strs))).
  rewrite (stringGroupSize_longest h ptr strs H). reflexivity.
Qed.

(** C4.  The group size of a slice of strings is 36 divided by the length
    of the longest string when a string is not empty.  When all strings
    are empty, the division is by zero: the group size and with it
    [Format] of the slice panic, for a slice that is not nil, not empty,
    of at most 1024 strings and not visited. *)
Theorem string_group_size env h n p ptr strs :
  reflect.arrays h !! ptr = Some (string_elems strs) ->
  ptr <> 0 -> strs <> [] -> Z.of_nat (List.length strs) <= 1024 ->
  seen (visited p) ptr = false ->
  prettyPrinter env (strings_at ptr strs) = None ->
  (0 < longest strs ->
   groupSizeOf h (subPrinter p (reflect.ValueOf (strings_at ptr strs)))
   = Ok (36 / longest strs))
  /\ (longest strs = 0 ->
      groupSizeOf h (subPrinter p (reflect.ValueOf (strings_at ptr strs)))
      = Panic "runtime error: integer divide by zero"
      /\ Format env h (S n) (reflect.ValueOf (strings_at ptr strs)) p
         = Panic "runtime error: integer divide by zero").
Proof.
  intros Harr Hptr Hne Hlen Hseen Hpp.
  pose proof (groupSizeOf_strings h (subPrinter p (reflect.ValueOf (strings_at ptr strs)))
                ptr strs eq_refl Harr) as G.
  split.
  - intros Hpos. rewrite G.
    destruct (longest strs =? 0) eqn:E; [apply Z.eqb_eq in E; lia|].
    f_equal. apply Z.quot_div_nonneg; lia.
  - intros H0. rewrite H0 in G. simpl in G. split; [exact G|].
    simpl. rewrite Format_body_unfold.
    rewrite (dispatch_kind env h _ _ (strings_at ptr strs)); [|reflexivity|exact Hpp].
    simpl.
    assert (Hp0 : (ptr =? 0) = false) by (apply Z.eqb_neq; exact Hptr).
    assert (Hl0 : Nat.eqb (List.length strs) 0 = false).
    { destruct strs; [congruence|reflexivity]. }
    assert (Hbig : (1024 <? Z.of_nat (List.length strs)) = false)
      by (apply Z.ltb_ge; exact Hlen).
    unfold printSlice. munfold. cbn.
    rewrite Hp0, Hl0. cbn. rewrite Hseen. cbn. rewrite Hbig.
    rewrite (elements_strings h ptr strs Harr). cbn [res_bind].
    rewrite longest_fold by lia. rewrite H0. reflexivity.
Qed.

Lemma string_group_size_witness :
  Format plain_env Ex.blank_store 1 (reflect.ValueOf (strings_at 64 [""]))
    (Ex.printer false false false)
  = Panic "runtime error: integer divide by zero".
Proof.
  apply (string_group_size plain_env Ex.blank_store 0 (Ex.printer false false false)
           64 [""]); try reflexivity; try lia; try discriminate.
Defined.

(** Three strings of four bytes are grouped by nine and fit one line. *)
Lemma strings_rendered :
  text_of (Format plain_env
             (reflect.MkStore ∅ {[ 64 := string_elems ["boot"; "0001"; "0002"] ]} ∅)
             3 (reflect.ValueOf (strings_at 64 ["boot"; "0001"; "0002"]))
             (Ex.printer false false false))
  = Ok ("{" ++ Text.str Text.QUOTE ++ "boot" ++ Text.str Text.QUOTE ++ ", "
        ++ Text.str Text.QUOTE ++ "0001" ++ Text.str Text.QUOTE ++ ", "
        ++ Text.str Text.QUOTE ++ "0002" ++ Text.str Text.QUOTE ++ "}").
Proof. vm_compute. reflexivity. Qed.

(* ===================================================================== *)
(** * What a printer has written *)
(* ===================================================================== *)

Lemma Write_app a : forall b w,
  tabwriter.Write (a ++ b) w
  = (fst (tabwriter.Write a w) ++ fst (tabwriter.Write b (snd (tabwriter.Write a w))),
     snd (tabwriter.Write b (snd (tabwriter.Write a w)))).
Proof.
  induction a as [|c a IH]; intros b w.
  - rewrite sapp_nil_l. simpl. rewrite sapp_nil_l.
    destruct (tabwriter.Write b w); reflexivity.
  - rewrite sapp_cons. simpl.
    destruct (tabwriter.writeByte c w) as [o1 w1].
    rewrite IH.
    destruct (tabwriter.Write a w1) as [o2 w2]. simpl.
    destruct (tabwriter.Write b w2) as [o3 w3]. simpl.
    now rewrite sapp_assoc.
Qed.

Lemma Print_writing s t q : Print t (writing s q) = Ok (tt, writing (s ++ t) q).
Proof.
  unfold Print, writing. simpl. rewrite Write_app.
  destruct (tabwriter.Write s tabwriter.reset) as [o1 w1]. simpl.
  destruct (tabwriter.Write t w1) as [o2 w2]. reflexivity.
Qed.

Lemma String_writing s q : fst (Printer_String (writing s q)) = typeset s.
Proof.
  unfold Printer_String, writing, typeset. simpl.
  destruct (tabwriter.Write s tabwriter.reset) as [o w]. simpl.
  destruct (tabwriter.flush w) as [o' w']. reflexivity.
Qed.

Lemma Indent_writing s q :
  0 <= depth q ->
  Indent (writing s q)
  = Ok (Text.Repeat (Text.str Text.TAB) (Z.to_nat (depth q)), writing s q).
Proof.
  intros H. unfold Indent. simpl.
  destruct (depth q <? 0) eqn:E; [apply Z.ltb_lt in E; lia|reflexivity].
Qed.

(** The loop of [printSlice] over the groups writes the rows. *)
Section Grouped.
Variable rec : reflect.Value -> M string.
Variable q : Printer.
Variable text : reflect.Value -> string.
Variable g : Z.
Variable len : nat.
Hypothesis Hdepth : 0 <= depth q.

Lemma grouped_loop es :
  (forall e s, e ∈ es -> rec e (writing s q) = Ok (text e, writing s q)) ->
  forall i s,
    forM_ (indexed i es) (fun ie =>
      let i := fst ie in
      (if Z.rem i g =? 0 then let* ind := Indent in Print ind else ret tt) ;;
      (let* s := rec (snd ie) in Print (s ++ ",")) ;;
      if (Z.rem (i + 1) g =? 0) || (i + 1 =? Z.of_nat len)
      then Print (Text.str Text.LF) else Print " ") (writing s q)
    = Ok (tt, writing
                (s ++ rows (Text.Repeat (Text.str Text.TAB) (Z.to_nat (depth q)))
                           g len i (List.map text es)) q).
Proof.
  induction es as [|e es IH]; intros Hrec i s.
  - simpl. now rewrite sapp_nil_r.
  - simpl indexed. simpl forM_. simpl List.map. simpl rows.
    unfold bind at 1. unfold bind at 1. cbn [fst snd].
    assert (E1 : (if Z.rem i g =? 0 then let* ind := Indent in Print ind else ret tt)
                   (writing s q)
                 = Ok (tt, writing
                             (s ++ (if Z.rem i g =? 0
                                    then Text.Repeat (Text.str Text.TAB)
                                           (Z.to_nat (depth q))
                                    else "")) q)).
    { destruct (Z.rem i g =? 0).
      - unfold bind. rewrite Indent_writing by exact Hdepth. apply Print_writing.
      - unfold ret. now rewrite sapp_nil_r. }
    rewrite E1. unfold bind at 1. unfold bind at 1.
    rewrite Hrec by (left). rewrite Print_writing.
    assert (E2 : forall s',
               (if (Z.rem (i + 1) g =? 0) || (i + 1 =? Z.of_nat len)
                then Print (Text.str Text.LF) else Print " ") (writing s' q)
               = Ok (tt, writing
                           (s' ++ (if (Z.rem (i + 1) g =? 0) || (i + 1 =? Z.of_nat len)
                                   then Text.str Text.LF else " ")) q)).
    { intros s'. destruct (_ || _); apply Print_writing. }
    rewrite E2. rewrite IH by (intros e' s' He'; apply Hrec; now right).
    rewrite !sapp_assoc. reflexivity.
Qed.
End Grouped.

(* ===================================================================== *)
(** * The groups of a sequence *)
(* ===================================================================== *)

Lemma uint_elems_length te k xs : List.length (uint_elems te k xs) = List.length xs.
Proof. apply length_map. Qed.

Lemma elements_uints h ptr te k xs :
  xs <> [] ->
  reflect.arrays h !! ptr = Some (uint_elems te k xs) ->
  reflect.elements h ptr (List.length xs) = Ok (uint_elems te k xs).
Proof.
  intros Hne H. unfold reflect.elements.
  destruct xs as [|x xs]; [congruence|].
  change (Nat.eqb (List.length (x :: xs)) 0) with false. cbv iota.
  rewrite H, uint_elems_length, Nat.leb_refl.
  rewrite <- (uint_elems_length te k (x :: xs)), firstn_all. reflexivity.
Qed.

(** A slice that is rendered in groups. *)
Section Groups.
Variable h : reflect.Store.
Variable rec : reflect.Value -> M string.
Variable text : reflect.Value -> string.

Lemma printSlice_grouped p t elem ptr len es g :
  let v := reflect.ValueOf (reflect.VSlice t elem ptr len) in
  let q := set_visited (subPrinter p v) (<[ptr := true]> (visited p)) in
  groupSizeOf h (subPrinter p v) = Ok g ->
  reflect.elements h ptr len = Ok es ->
  ptr <> 0 -> seen (visited p) ptr = false -> depth p = 0 ->
  0 < g <= Z.of_nat len -> Z.of_nat len <= 1024 ->
  (forall e s, e ∈ List.map (reflect.derived false) es ->
               rec e (writing s (set_depth q 1))
               = Ok (text e, writing s (set_depth q 1))) ->
  printSlice h rec (subPrinter p v)
  = Ok (tt, writing ("{" ++ Text.str Text.LF
                     ++ rows (Text.str Text.TAB) g len 0
                          (List.map text (List.map (reflect.derived false) es))
                     ++ "}") q).
Proof.
  intros v q HG Hes Hptr Hseen Hdepth Hg Hlen Hrec.
  assert (Hp0 : (ptr =? 0) = false) by (apply Z.eqb_neq; exact Hptr).
  assert (Hl0 : Nat.eqb len 0 = false) by (apply Nat.eqb_neq; lia).
  assert (Hbig : (1024 <? Z.of_nat len) = false) by (apply Z.ltb_ge; exact Hlen).
  assert (Hin : (Z.of_nat len <? g) = false) by (apply Z.ltb_ge; lia).
  assert (Hpos : (0 <? g) = true) by (apply Z.ltb_lt; lia).
  pose proof (grouped_loop rec (set_depth q 1) text g len ltac:(simpl; lia)
                (List.map (reflect.derived false) es) Hrec 0
                ("{" ++ Text.str Text.LF)) as L.
  unfold printSlice. munfold.
  change (reflect.Kind_ (value (subPrinter p v))) with reflect.Slice. cbv iota.
  change (reflect.IsNil (value (subPrinter p v))) with (@Ok bool (ptr =? 0)).
  rewrite Hp0. cbv iota beta.
  change (reflect.Len h (value (subPrinter p v))) with (@Ok nat len).
  cbv iota beta. rewrite Hl0.
  change (reflect.Pointer (value (subPrinter p v))) with (@Ok Z ptr).
  cbv iota beta.
  change (visited (subPrinter p v)) with (visited p). rewrite Hseen.
  cbn [andb]. unfold mark, modify. cbv iota beta. rewrite Hbig, HG.
  cbv iota beta.
  change (reflect.Indexes h (value (subPrinter p v)))
    with (res_bind (reflect.elements h ptr len)
            (fun es => Ok (List.map (reflect.derived false) es))).
  rewrite Hes. cbn [res_bind]. cbv iota beta. rewrite Hin, Hpos.
  unfold Println.
  change (set_visited (subPrinter p v) (<[ptr:=true]> (visited (subPrinter p v))))
    with (writing "" q).
  rewrite Print_writing, sapp_nil_l.
  unfold indented, modify, bind.
  change (set_depth (writing ("{" ++ Text.str Text.LF) q)
            (wrap_int (depth (writing ("{" ++ Text.str Text.LF) q) + 1)))
    with (writing ("{" ++ Text.str Text.LF)
            (set_depth q (wrap_int (depth p + 1)))).
  rewrite Hdepth. change (wrap_int (0 + 1)) with 1.
  unfold bind, ret in L. cbv beta zeta in L. rewrite L.
  change (set_depth
            (writing (("{" ++ Text.str Text.LF)
                      ++ rows (Text.Repeat (Text.str Text.TAB)
                                 (Z.to_nat (depth (set_depth q 1))))
                           g len 0 (List.map text (List.map (reflect.derived false) es)))
               (set_depth q 1))
            (wrap_int
               (depth
                  (writing (("{" ++ Text.str Text.LF)
                            ++ rows (Text.Repeat (Text.str Text.TAB)
                                       (Z.to_nat (depth (set_depth q 1))))
                                 g len 0
                                 (List.map text (List.map (reflect.derived false) es)))
                     (set_depth q 1)) - 1)))
    with (writing (("{" ++ Text.str Text.LF)
                   ++ rows (Text.str Text.TAB) g len 0
                        (List.map text (List.map (reflect.derived false) es)))
            (set_depth q 0)).
  assert (Eq : set_depth q 0 = q).
  { unfold q, subPrinter, set_visited, set_depth. simpl. now rewrite Hdepth. }
  rewrite Eq. unfold IndentPrint, bind.
  rewrite Indent_writing by (unfold q; simpl; lia).
  assert (Ed : depth q = 0) by (unfold q; simpl; exact Hdepth).
  rewrite Ed. change (Text.Repeat (Text.str Text.TAB) (Z.to_nat 0)) with "".
  rewrite Print_writing, sapp_nil_l, !sapp_assoc. reflexivity.
Qed.
End Groups.

(** A row behind a tab makes a line of two cells, which is kept until the
    text is flushed. *)
Lemma Write_row R ls :
  Text.plain R = true ->
  tabwriter.Write (Text.str Text.TAB ++ R ++ Text.str Text.LF)
    (tabwriter.MkWriter "" "" 0 false ls [])
  = ("", tabwriter.MkWriter "" "" 0 false (ls ++ [row_cells R])%list []).
Proof.
  intros HR.
  change (Text.str Text.TAB ++ R ++ Text.str Text.LF)
    with (Text.str Text.TAB ++ (R ++ Text.str Text.LF)).
  rewrite Write_app.
  change (tabwriter.Write (Text.str Text.TAB) (tabwriter.MkWriter "" "" 0 false ls []))
    with ("", tabwriter.MkWriter "" "" 0 false ls [tabwriter.Cell "" 0 true]).
  cbn [fst snd].
  rewrite Write_app, (Write_plain R); [|assumption|reflexivity]. cbn [fst snd].
  cbn [tabwriter.buf tabwriter.pend tabwriter.cwidth tabwriter.lines tabwriter.line].
  rewrite !sapp_nil_l. reflexivity.
Qed.

(** Two rows behind a tab each come out behind four spaces. *)
Lemma typeset_two_rows R1 R2 :
  Text.plain R1 = true -> Text.plain R2 = true ->
  typeset ("{" ++ Text.str Text.LF ++ Text.str Text.TAB ++ R1 ++ Text.str Text.LF
           ++ Text.str Text.TAB ++ R2 ++ Text.str Text.LF ++ "}")
  = "{" ++ Text.str Text.LF ++ "    " ++ R1 ++ Text.str Text.LF
    ++ "    " ++ R2 ++ Text.str Text.LF ++ "}".
Proof.
  intros H1 H2. unfold typeset.
  assert (E : "{" ++ Text.str Text.LF ++ Text.str Text.TAB ++ R1 ++ Text.str Text.LF
              ++ Text.str Text.TAB ++ R2 ++ Text.str Text.LF ++ "}"
              = ("{" ++ Text.str Text.LF)
                ++ (Text.str Text.TAB ++ R1 ++ Text.str Text.LF)
                ++ (Text.str Text.TAB ++ R2 ++ Text.str Text.LF) ++ "}").
  { rewrite !sapp_assoc. reflexivity. }
  rewrite E. clear E.
  rewrite Write_app.
  change (tabwriter.Write ("{" ++ Text.str Text.LF) tabwriter.reset)
    with ("{" ++ Text.str Text.LF, tabwriter.MkWriter "" "" 0 false [] []).
  cbn [fst snd].
  rewrite Write_app, (Write_row R1) by assumption. cbn [fst snd].
  rewrite Write_app, (Write_row R2) by assumption. cbn [fst snd].
  change (tabwriter.Write "}"
            (tabwriter.MkWriter "" "" 0 false (([] ++ [row_cells R1]) ++ [row_cells R2]) []))
    with ("", tabwriter.MkWriter "}" "}" 0 false [row_cells R1; row_cells R2] []).
  cbn [fst snd].
  unfold tabwriter.flush. cbn.
  unfold tabwriter.writeLine, row_cells. cbn.
  rewrite !sapp_nil_r, !sapp_nil_l, !sapp_assoc. reflexivity.
Qed.

Lemma row_plain texts :
  Forall (fun e => Text.plain e = true) texts -> Text.plain (row texts) = true.
Proof.
  induction 1 as [|e r He Hr IH]; [reflexivity|].
  destruct r as [|e' r'].
  - simpl. now rewrite plain_app, He.
  - change (row (e :: e' :: r')) with (e ++ ", " ++ row (e' :: r')).
    now rewrite !plain_app, He, IH.
Qed.

Lemma uint_texts_plain p k xs :
  Forall (fun e => Text.plain e = true)
         (List.map (fun x => Colorize p (uint_text p k x) IntegerColor) xs).
Proof.
  apply Forall_forall. intros e He. apply list_elem_of_fmap in He as (x & -> & _).
  apply Colorize_plain, uint_text_plain.
Qed.

Lemma groupSizeOf_uint h p t k ptr len :
  0 < uint_group k ->
  groupSizeOf h (subPrinter p (reflect.ValueOf
                   (reflect.VSlice t (reflect.kind_of_uint k) ptr len)))
  = Ok (uint_group k).
Proof. destruct k; simpl; intros H; try lia; reflexivity. Qed.

Lemma Format_uint_slice env h n p t te k ptr xs :
  reflect.arrays h !! ptr = Some (uint_elems te k xs) ->
  ptr <> 0 -> seen (visited p) ptr = false -> depth p = 0 ->
  prettyPrinter env (reflect.VSlice t (reflect.kind_of_uint k) ptr (List.length xs))
  = None ->
  (forall x, prettyPrinter env (reflect.VUint te k x) = None) ->
  0 < uint_group k <= Z.of_nat (List.length xs) ->
  Z.of_nat (List.length xs) <= 1024 ->
  Format env h (S (S n))
    (reflect.ValueOf (reflect.VSlice t (reflect.kind_of_uint k) ptr (List.length xs))) p
  = Ok (typeset ("{" ++ Text.str Text.LF
                 ++ rows (Text.str Text.TAB) (uint_group k) (List.length xs) 0
                      (List.map (fun x => Colorize p (uint_text p k x) IntegerColor) xs)
                 ++ "}"),
        set_visited p (<[ptr := true]> (visited p))).
Proof.
  intros Harr Hptr Hseen Hdepth Hpp Hel Hg Hlen.
  assert (Hne : xs <> []).
  { intros ->. simpl in Hg. lia. }
  set (v := reflect.ValueOf
              (reflect.VSlice t (reflect.kind_of_uint k) ptr (List.length xs))).
  change (Format env h (S (S n)) v p)
    with (Format_body env h (Format env h (S n)) v p).
  rewrite Format_body_unfold.
  rewrite (dispatch_kind env h _ _
             (reflect.VSlice t (reflect.kind_of_uint k) ptr (List.length xs)));
    [|reflexivity|exact Hpp].
  change (reflect.Kind_ (value (subPrinter p v))) with reflect.Slice. cbv iota.
  subst v.
  rewrite (printSlice_grouped h (Format env h (S n)) (uint_element p) p t
             (reflect.kind_of_uint k) ptr (List.length xs) (uint_elems te k xs)
             (uint_group k)); try assumption.
  - rewrite String_writing. simpl visited.
    unfold uint_elems. rewrite !map_map. reflexivity.
  - apply groupSizeOf_uint. lia.
  - apply (elements_uints h ptr te k xs Hne Harr).
  - intros e s He.
    apply list_elem_of_fmap in He as (y & -> & Hy).
    apply list_elem_of_fmap in Hy as (x & -> & _).
    change (reflect.derived false (reflect.VUint te k x))
      with (reflect.ValueOf (reflect.VUint te k x)).
    rewrite (Format_uint env h n _ te k x (Hel x)). reflexivity.
Qed.




(* ===================================================================== *)
(** * The fields of a struct *)
(* ===================================================================== *)

(** The filter of [printStruct] is the one of the specification. *)
Lemma keepField_survives eo fv :
  keepField eo fv = survives eo (fst fv) (reflect.it (snd fv)).
Proof.
  destruct fv as [f v]. unfold keepField, survives, omitempty, suppressed, exported,
    directives. cbn [fst snd].
  destruct (String.eqb (reflect.fTag f) "") eqn:Et.
  - apply String.eqb_eq in Et. rewrite Et. cbn.
    destruct eo, (String.eqb (reflect.fPkgPath f) ""); reflexivity.
  - cbn [negb].
    destruct (Text.Split (reflect.fTag f) ",") as [|a [|b [|c r]]]; cbn;
      destruct eo, (String.eqb (reflect.fPkgPath f) ""); cbn; try reflexivity;
      try (destruct (String.eqb a "-"); reflexivity);
      destruct (String.eqb b "omitempty"), (valueIsZero (reflect.it v)),
        (String.eqb a "-"); reflexivity.
Qed.

(** [Format] does not read what the printer has written. *)
Lemma Format_writing env h n v s q :
  Format env h n v (writing s q)
  = match Format env h n v q with
    | Ok (t, q') => Ok (t, writing s q')
    | Panic msg => Panic msg
    | OutOfFuel => OutOfFuel
    end.
Proof.
  destruct n as [|n]; [reflexivity|]. simpl. rewrite !Format_body_unfold.
  change (subPrinter (writing s q) v) with (subPrinter q v).
  destruct (dispatch env h (Format env h n) (subPrinter q v)) as [[[] pp']| |];
    reflexivity.
Qed.

Lemma field_line_ext p q l :
  colorScheme p = colorScheme q -> field_line p l = field_line q l.
Proof. intros E. unfold field_line. now rewrite (Colorize_ext p q E). Qed.

Section Fields.
Variable rec : reflect.Value -> M string.
Hypothesis Hwriting : forall v s q,
  rec v (writing s q)
  = match rec v q with
    | Ok (t, q') => Ok (t, writing s q')
    | Panic msg => Panic msg
    | OutOfFuel => OutOfFuel
    end.
Hypothesis Hframe : forall v q t q',
  rec v q = Ok (t, q') -> q' = set_visited q (visited q').

Lemma fields_loop (fields : list (reflect.StructField * reflect.Value)) :
  forall q s ss q',
    depth q = 1 ->
    formats rec (List.map snd fields) q = Ok (ss, q') ->
    forM_ fields (fun fv =>
      let* colorizedFieldName :=
        gets (fun p => Colorize p (fieldName (fst fv)) FieldNameColor) in
      let* v := rec (snd fv) in
      IndentPrint (colorizedFieldName ++ ":" ++ Text.str Text.TAB ++ v
                   ++ "," ++ Text.str Text.LF)) (writing s q)
    = Ok (tt, writing
                (s ++ Text.concat
                        (List.map (field_line q) (combine (List.map fst fields) ss)))
                q').
Proof.
  induction fields as [|fv r IH]; intros q s ss q' Hd HF.
  - simpl in HF. injection HF as <- <-. simpl. now rewrite sapp_nil_r.
  - simpl in HF. unfold bind in HF at 1.
    destruct (rec (snd fv) q) as [[t q1]| |] eqn:E1; try discriminate.
    unfold bind in HF at 1.
    destruct (formats rec (List.map snd r) q1) as [[ss' q2]| |] eqn:E2;
      try discriminate.
    injection HF as <- <-.
    pose proof (Hframe _ _ _ _ E1) as Hq1.
    assert (Hd1 : depth q1 = 1) by (rewrite Hq1; exact Hd).
    assert (Hc1 : colorScheme q = colorScheme q1) by (rewrite Hq1; reflexivity).
    simpl forM_. unfold bind at 1. unfold bind at 1. unfold gets at 1.
    unfold bind at 1. rewrite Hwriting, E1.
    unfold IndentPrint, bind. rewrite Indent_writing by lia. rewrite Hd1.
    rewrite Print_writing.
    rewrite (IH q1 _ ss' q2 Hd1 E2).
    simpl List.map. simpl combine. simpl List.map. simpl Text.concat.
    f_equal. f_equal. f_equal.
    rewrite (map_ext (field_line q1) (field_line q))
      by (intros l; symmetry; apply field_line_ext; exact Hc1).
    unfold field_line at 2. cbn [fst snd].
    change (Text.Repeat (Text.str Text.TAB) (Z.to_nat 1)) with (Text.str Text.TAB).
    change (Colorize (writing s q) (fieldName (fst fv)) FieldNameColor)
      with (Colorize q (fieldName (fst fv)) FieldNameColor).
    rewrite !sapp_assoc. reflexivity.
Qed.
End Fields.

Lemma special_false t :
  special t = false ->
  (String.eqb (reflect.tString t) "time.Time" && String.eqb (reflect.tPkgPath t) "time")
  = false
  /\ String.eqb (reflect.tString t) "big.Int" = false
  /\ String.eqb (reflect.tString t) "big.Float" = false.
Proof.
  unfold special. intros H.
  apply orb_false_elim in H as [H H3]. apply orb_false_elim in H as [H1 H2]. auto.
Qed.

Lemma formats_frame rec :
  (forall v q t q', rec v q = Ok (t, q') -> q' = set_visited q (visited q')) ->
  forall vs q ss q',
    formats rec vs q = Ok (ss, q') ->
    q' = set_visited q (visited q') /\ List.length ss = List.length vs.
Proof.
  intros Hframe. induction vs as [|v r IH]; intros q ss q' HF; simpl in HF.
  - injection HF as <- <-. split; [destruct q|]; reflexivity.
  - unfold bind in HF at 1.
    destruct (rec v q) as [[t q1]| |] eqn:E1; try discriminate.
    unfold bind in HF at 1.
    destruct (formats rec r q1) as [[ss' q2]| |] eqn:E2; try discriminate.
    injection HF as <- <-.
    destruct (IH _ _ _ E2) as [Hq2 Hl]. pose proof (Hframe _ _ _ _ E1) as Hq1.
    split; [|simpl; now rewrite Hl].
    rewrite Hq2. rewrite Hq1 at 1. reflexivity.
Qed.

Section Struct.
Variable env : Env.
Variable h : reflect.Store.
Variable rec : reflect.Value -> M string.
Hypothesis Hwriting : forall v s q,
  rec v (writing s q)
  = match rec v q with
    | Ok (t, q') => Ok (t, writing s q')
    | Panic msg => Panic msg
    | OutOfFuel => OutOfFuel
    end.
Hypothesis Hframe : forall v q t q',
  rec v q = Ok (t, q') -> q' = set_visited q (visited q').

Lemma printStruct_fields p t fs ss q' :
  let v := reflect.ValueOf (reflect.VStruct t fs) in
  let q := subPrinter p v in
  let kept := List.filter (keepField (exportedOnly p))
                (List.map (fun fx => (fst fx, reflect.Field v fx)) fs) in
  special t = false -> depth p = 0 ->
  formats rec (List.map snd kept) (set_depth q 1) = Ok (ss, q') ->
  printStruct env rec q
  = Ok (tt, writing (struct_text p t (combine (List.map fst kept) ss))
              (set_depth q' 0)).
Proof.
  intros v q kept Hs Hd HF.
  destruct (special_false t Hs) as (S1 & S2 & S3).
  unfold printStruct. munfold.
  change (reflect.CanInterface (value q)) with (@Ok bool true).
  change (reflect.Type_String (value q)) with (@Ok string (reflect.tString t)).
  change (reflect.Type_PkgPath (value q)) with (@Ok string (reflect.tPkgPath t)).
  cbv iota beta. cbn [andb]. rewrite S1, S2, S3.
  change (reflect.Fields (value q))
    with (@Ok _ (List.map (fun fx : reflect.StructField * reflect.val =>
                             (fst fx, reflect.Field v fx)) fs)).
  cbv iota beta. change (exportedOnly q) with (exportedOnly p). fold kept.
  destruct kept as [|fv r] eqn:Ek.
  - simpl in HF. injection HF as <- <-. simpl.
    unfold typeString. munfold.
    change (reflect.Type_String (value q)) with (@Ok string (reflect.tString t)).
    cbv iota beta.
    change q with (writing "" q) at 2. rewrite Print_writing, sapp_nil_l.
    change (colorizeType q (reflect.tString t)) with (colorizeType p (reflect.tString t)).
    f_equal. f_equal. f_equal.
    unfold q, subPrinter, set_depth, set_visited. simpl. now rewrite Hd.
  - change (Nat.eqb (List.length (fv :: r)) 0) with false. cbv iota.
    unfold typeString. munfold.
    change (reflect.Type_String (value q)) with (@Ok string (reflect.tString t)).
    cbv iota beta. unfold Println.
    change q with (writing "" q) at 2. rewrite Print_writing, sapp_nil_l.
    unfold indented, modify, bind.
    match goal with
    | |- context [forM_ ?l ?f (set_depth (writing ?s q) ?d)] =>
        change (forM_ l f (set_depth (writing s q) d))
          with (forM_ l f (writing s (set_depth q (wrap_int (depth p + 1)))))
    end.
    rewrite Hd. change (wrap_int (0 + 1)) with 1.
    pose proof (fields_loop rec Hwriting Hframe (fv :: r) (set_depth q 1)
                  (colorizeType q (reflect.tString t) ++ "{" ++ Text.str Text.LF)
                  ss q' eq_refl HF) as L.
    unfold bind, gets in L. cbv beta zeta in L.
    unfold bind, gets. rewrite sapp_assoc. rewrite L.
    destruct (formats_frame rec Hframe _ _ _ _ HF) as [Hq' Hlen].
    assert (Hd' : depth q' = 1) by (rewrite Hq'; reflexivity).
    match goal with
    | |- context [set_depth (writing ?s q') ?d] =>
        change (set_depth (writing s q') d)
          with (writing s (set_depth q' (wrap_int (depth q' - 1))))
    end.
    rewrite Hd'. change (wrap_int (1 - 1)) with 0.
    unfold IndentPrint, bind. rewrite Indent_writing by (simpl; lia).
    change (Text.Repeat (Text.str Text.TAB) (Z.to_nat (depth (set_depth q' 0))))
      with "".
    rewrite Print_writing, sapp_nil_l.
    destruct ss as [|s0 ss0]; [discriminate Hlen|].
    f_equal. f_equal. f_equal.
    rewrite (map_ext (field_line (set_depth q 1)) (field_line p))
      by (intros l; apply field_line_ext; reflexivity).
    unfold struct_text. simpl combine.
    change (colorizeType q (reflect.tString t)) with (colorizeType p (reflect.tString t)).
    rewrite !sapp_assoc. reflexivity.
Qed.
End Struct.



(** The same struct with the count zero has no field left. *)
Lemma record_zero_rendered :
  text_of (Format plain_env Ex.empty 2 (reflect.ValueOf (Ex.record 0))
             (Ex.printer false false false))
  = Ok "main.T{}".
Proof. vm_compute. reflexivity. Qed.

(* ===================================================================== *)
(** * Strings *)
(* ===================================================================== *)

Lemma code_byte_bound c : 0 <= Text.code c < 256.
Proof.
  unfold Text.code. pose proof (N_ascii_bounded c) as H. lia.
Qed.

Lemma eqb_code c d : Ascii.eqb c d = true -> Text.code c = Text.code d.
Proof. intros H. apply Ascii.eqb_eq in H. now subst. Qed.

(** A byte from 32 to 126 that is no backslash, and a byte from 128 to
    244, is written as it is. *)
Lemma raw_byte c :
  (32 <= Text.code c <= 126 /\ Text.code c <> 92) \/ 128 <= Text.code c <= 244 ->
  Ascii.eqb c Text.BACKSLASH = false /\ Text.tw_special c = false.
Proof.
  intros H. split.
  - destruct (Ascii.eqb c Text.BACKSLASH) eqn:E; [|reflexivity].
    apply eqb_code in E. change (Text.code Text.BACKSLASH) with 92 in E. lia.
  - unfold Text.tw_special.
    repeat match goal with
           | |- context [Ascii.eqb c ?d] =>
               let E := fresh "E" in
               destruct (Ascii.eqb c d) eqn:E;
               [apply eqb_code in E;
                match type of E with
                | _ = ?r => let v := eval vm_compute in r in change r with v in E
                end; exfalso; lia|]
           end; reflexivity.
Qed.

Lemma first_spec c sz lo hi :
  utf8.first c = Some (sz, lo, hi) ->
  194 <= c <= 244 /\ 128 <= lo /\ hi <= 191.
Proof.
  unfold utf8.first.
  repeat match goal with
         | |- context [if ?b then _ else _] => destruct b eqn:?
         end; intros H; inversion H; subst; lia.
Qed.

Lemma quoted_high c q :
  128 <= Text.code c <= 244 -> quoted_body q -> quoted_body (String c q).
Proof.
  intros H Hq. destruct (raw_byte c (or_intror H)) as [B S].
  now apply quoted_raw.
Qed.

Lemma take_cons n c s : Text.take (S n) (String c s) = String c (Text.take n s).
Proof. reflexivity. Qed.

Lemma take_0 s : Text.take 0 s = "".
Proof. destruct s; reflexivity. Qed.

(** The bytes of a rune that [DecodeRune] accepts are from 128 to 244. *)
Lemma DecodeRune_quoted c0 r0 r w q :
  128 <= Text.code c0 ->
  utf8.DecodeRune (String c0 r0) = (r, w) ->
  (Nat.eqb w 1) && (r =? utf8.RuneError) = false ->
  quoted_body q ->
  quoted_body (Text.take w (String c0 r0) ++ q).
Proof.
  intros H0 HD Hw Hq. unfold utf8.DecodeRune in HD.
  destruct (Text.code c0 <? 128) eqn:E0; [apply Z.ltb_lt in E0; lia|].
  assert (Bad : (utf8.RuneError, 1%nat) = (r, w) -> False).
  { intros E. injection E as <- <-. discriminate Hw. }
  destruct (utf8.first (Text.code c0)) as [[[sz lo] hi]|] eqn:F;
    [|now apply Bad in HD].
  destruct (first_spec _ _ _ _ F) as (Hc0 & Hlo & Hhi).
  destruct (String.length (String c0 r0) <? sz)%nat; [now apply Bad in HD|].
  destruct r0 as [|c1 r1]; [now apply Bad in HD|].
  destruct ((Text.code c1 <? lo) || (hi <? Text.code c1)) eqn:E1;
    [now apply Bad in HD|].
  apply orb_false_elim in E1 as [E1a E1b].
  apply Z.ltb_ge in E1a, E1b.
  assert (H1 : 128 <= Text.code c1 <= 244) by lia.
  destruct (sz <=? 2)%nat.
  { injection HD as <- <-. rewrite !take_cons, take_0, !sapp_cons, sapp_nil_l.
    apply quoted_high; [lia|]. now apply quoted_high. }
  destruct r1 as [|c2 r2]; [now apply Bad in HD|].
  unfold utf8.cont in HD.
  destruct ((128 <=? Text.code c2) && (Text.code c2 <=? 191)) eqn:E2;
    [|now apply Bad in HD].
  apply andb_true_iff in E2 as [E2a E2b]. apply Z.leb_le in E2a, E2b.
  simpl negb in HD. cbv iota in HD.
  destruct (sz <=? 3)%nat.
  { injection HD as <- <-. rewrite !take_cons, take_0, !sapp_cons, sapp_nil_l.
    apply quoted_high; [lia|]. apply quoted_high; [lia|].
    apply quoted_high; [lia|]. exact Hq. }
  destruct r2 as [|c3 r3]; [now apply Bad in HD|].
  destruct ((128 <=? Text.code c3) && (Text.code c3 <=? 191)) eqn:E3;
    [|now apply Bad in HD].
  apply andb_true_iff in E3 as [E3a E3b]. apply Z.leb_le in E3a, E3b.
  simpl negb in HD. cbv iota in HD.
  injection HD as <- <-. rewrite !take_cons, take_0, !sapp_cons, sapp_nil_l.
  apply quoted_high; [lia|]. apply quoted_high; [lia|].
  apply quoted_high; [lia|]. apply quoted_high; [lia|]. exact Hq.
Qed.

Lemma nibble_plain d : Text.tw_special (Text.lower_digit (Z.land d 15)) = false.
Proof.
  apply lower_digit_plain.
  assert (H : 0 <= Z.land d 15 /\ Z.land d 15 <= 15).
  { split; [apply Z.land_nonneg; right; lia|].
    change 15 with (Z.ones 4) at 1. rewrite Z.land_ones by lia.
    pose proof (Z.mod_pos_bound d (2 ^ 4) ltac:(lia)). lia. }
  lia.
Qed.

Lemma hexN_length n r : String.length (strconv.hexN n r) = n.
Proof.
  induction n as [|n IH]; [reflexivity|].
  change (strconv.hexN (S n) r)
    with (String (Text.lower_digit (Z.land (Z.shiftr r (4 * Z.of_nat n)) 15))
                 (strconv.hexN n r)).
  simpl. now rewrite IH.
Qed.

Lemma hexN_plain n r : Text.plain (strconv.hexN n r) = true.
Proof.
  induction n as [|n IH]; [reflexivity|].
  change (strconv.hexN (S n) r)
    with (String (Text.lower_digit (Z.land (Z.shiftr r (4 * Z.of_nat n)) 15))
                 (strconv.hexN n r)).
  simpl. now rewrite nibble_plain, IH.
Qed.

Lemma hex2_plain b : 0 <= b < 256 -> Text.plain (strconv.hex2 b) = true.
Proof.
  intros H. unfold strconv.hex2.
  change (Text.plain (String (Text.lower_digit (Z.shiftr b 4))
                        (String (Text.lower_digit (Z.land b 15)) "")) = true).
  simpl. rewrite nibble_plain, lower_digit_plain; [reflexivity|].
  rewrite Z.shiftr_div_pow2 by lia. split.
  - apply Z.div_pos; lia.
  - apply Z.div_lt_upper_bound; lia.
Qed.

Lemma land_255 r : 0 <= Z.land r 255 < 256.
Proof.
  split; [apply Z.land_nonneg; right; lia|].
  change 255 with (Z.ones 8). rewrite Z.land_ones by lia.
  apply Z.mod_pos_bound. lia.
Qed.

Lemma quoted_hex2 b q :
  0 <= b < 256 -> quoted_body q -> quoted_body (("\x" ++ strconv.hex2 b) ++ q).
Proof.
  intros Hb Hq. rewrite sapp_assoc.
  apply (quoted_esc "x" (strconv.hex2 b) q); [reflexivity| |exact Hq].
  change (Text.plain (String "x" (strconv.hex2 b)))
    with (Text.plain (strconv.hex2 b)).
  now apply hex2_plain.
Qed.

Lemma quoted_letter c q :
  escape_digits c = 0%nat -> Text.tw_special c = false ->
  quoted_body q -> quoted_body (String Text.BACKSLASH (String c q)).
Proof.
  intros Hc Hs Hq. rewrite <- (sapp_nil_l q).
  apply (quoted_esc c "" q); [now rewrite Hc| |exact Hq].
  simpl. now rewrite Hs.
Qed.

(** [strconv.Quote] writes, between the quotes, bytes that stand for
    themselves and escape sequences. *)
Lemma quote_loop_body tbl fuel : forall s,
  quoted_body (strconv.quote_loop tbl fuel s).
Proof.
  induction fuel as [|fuel IH]; intros s; [constructor|].
  destruct s as [|c0 s']; [constructor|].
  cbn [strconv.quote_loop].
  pose proof (code_byte_bound c0) as Hb.
  destruct (Text.code c0 <? 128) eqn:E0.
  - (* one byte of ASCII *)
    apply Z.ltb_lt in E0. cbn [Nat.eqb andb].
    change (Text.code c0 =? utf8.RuneError) with (Text.code c0 =? 65533).
    destruct (Text.code c0 =? 65533) eqn:ER; [apply Z.eqb_eq in ER; lia|].
    unfold strconv.appendEscapedRune.
    destruct ((Text.code c0 =? 34) || (Text.code c0 =? 92)) eqn:EQ.
    { apply orb_true_iff in EQ as [EQ|EQ]; apply Z.eqb_eq in EQ; rewrite EQ;
        apply quoted_letter; try reflexivity; apply IH. }
    apply orb_false_elim in EQ as [E34 E92]. apply Z.eqb_neq in E34, E92.
    unfold strconv.IsPrint. rewrite (proj2 (Z.ltb_lt _ _) E0).
    destruct ((32 <=? Text.code c0) && (Text.code c0 <=? 126)) eqn:EP.
    { apply andb_true_iff in EP as [P1 P2]. apply Z.leb_le in P1, P2.
      rewrite take_cons, take_0, sapp_cons, sapp_nil_l.
      destruct (raw_byte c0) as [B S]; [left; lia|].
      apply quoted_raw; auto. }
    repeat match goal with
           | |- context [if ?b then _ else _] => destruct b
           end;
      try (apply quoted_letter; [reflexivity|reflexivity|apply IH]).
    + apply quoted_hex2; [apply land_255|apply IH].
    + rewrite sapp_assoc.
      apply (quoted_esc "u" (strconv.hexN 4 utf8.RuneError) _);
        [reflexivity|reflexivity|apply IH].
    + rewrite sapp_assoc.
      apply (quoted_esc "u" (strconv.hexN 4 (Text.code c0)) _);
        [apply hexN_length| |apply IH].
      change (Text.plain (strconv.hexN 4 (Text.code c0)) = true). apply hexN_plain.
    + rewrite sapp_assoc.
      apply (quoted_esc "U" (strconv.hexN 8 (Text.code c0)) _);
        [apply hexN_length| |apply IH].
      change (Text.plain (strconv.hexN 8 (Text.code c0)) = true). apply hexN_plain.
  - (* a rune of several bytes, or a byte that is none *)
    apply Z.ltb_ge in E0.
    destruct (utf8.DecodeRune (String c0 s')) as [r width] eqn:ED.
    destruct ((Nat.eqb width 1) && (r =? utf8.RuneError)) eqn:EW.
    { apply quoted_hex2; [lia|apply IH]. }
    unfold strconv.appendEscapedRune.
    repeat match goal with
           | |- context [if ?b then _ else _] => destruct b eqn:?
           end;
      try (apply quoted_letter; [reflexivity|reflexivity|apply IH]).
    + match goal with
      | H : (r =? 34) || (r =? 92) = true |- _ =>
          apply orb_true_iff in H as [H|H]; apply Z.eqb_eq in H; subst r
      end; apply quoted_letter; try reflexivity; apply IH.
    + apply (DecodeRune_quoted c0 s' r width _ E0 ED EW). apply IH.
    + apply quoted_hex2; [apply land_255|apply IH].
    + rewrite sapp_assoc.
      apply (quoted_esc "u" (strconv.hexN 4 utf8.RuneError) _);
        [reflexivity|reflexivity|apply IH].
    + rewrite sapp_assoc.
      apply (quoted_esc "u" (strconv.hexN 4 r) _); [apply hexN_length| |apply IH].
      change (Text.plain (strconv.hexN 4 r) = true). apply hexN_plain.
    + rewrite sapp_assoc.
      apply (quoted_esc "U" (strconv.hexN 8 r) _); [apply hexN_length| |apply IH].
      change (Text.plain (strconv.hexN 8 r) = true). apply hexN_plain.
Qed.

Lemma quoted_body_plain q : quoted_body q -> Text.plain q = true.
Proof.
  induction 1 as [|c q B S _ IH|c e q L P _ IH]; [reflexivity| |].
  - simpl. now rewrite S, IH.
  - change (Text.plain (String Text.BACKSLASH (String c e ++ q)) = true).
    change (Text.plain (String c e ++ q) = true). now rewrite plain_app, P, IH.
Qed.

Lemma take_app_exact e : forall q, Text.take (String.length e) (e ++ q) = e.
Proof.
  induction e as [|c e IH]; intros q.
  - rewrite sapp_nil_l. apply take_0.
  - rewrite sapp_cons. simpl. now rewrite IH.
Qed.

Lemma drop_app_exact e : forall q, Text.drop (String.length e) (e ++ q) = q.
Proof.
  induction e as [|c e IH]; intros q.
  - rewrite sapp_nil_l. destruct q; reflexivity.
  - rewrite sapp_cons. simpl. apply IH.
Qed.

Lemma take_drop n : forall s, Text.take n s ++ Text.drop n s = s.
Proof.
  induction n as [|n IH]; intros s.
  - rewrite take_0. destruct s; reflexivity.
  - destruct s as [|c s]; [reflexivity|]. simpl Text.take. simpl Text.drop.
    rewrite sapp_cons. now rewrite IH.
Qed.

Lemma slice_cons c q lo hi X :
  Text.slice q lo hi = Some X -> Text.slice (String c q) (S lo) (S hi) = Some X.
Proof.
  unfold Text.slice. simpl String.length.
  destruct ((lo <=? hi)%nat && (hi <=? String.length q)%nat) eqn:E; [|discriminate].
  intros H. apply andb_true_iff in E as [E1 E2].
  apply Nat.leb_le in E1, E2.
  rewrite (proj2 (Nat.leb_le (S lo) (S hi))) by lia.
  rewrite (proj2 (Nat.leb_le (S hi) (S (String.length q)))) by lia.
  simpl. exact H.
Qed.

(** The digits the loop of [printString] skips after the letter. *)
Lemma escape_width c :
  (if Ascii.eqb c "x" then 3%nat
   else if Ascii.eqb c "u" then 5%nat
   else if Ascii.eqb c "U" then 9%nat
   else if re.isDigit c then 3%nat
   else 1%nat) = S (escape_digits c).
Proof.
  unfold escape_digits.
  destruct (Ascii.eqb c "x"), (Ascii.eqb c "u"), (Ascii.eqb c "U"), (re.isDigit c);
    reflexivity.
Qed.

(** The first backslash of a quoted text starts an escape sequence that is
    all there. *)
Lemma body_split q :
  quoted_body q ->
  forall pos, Text.IndexByte q Text.BACKSLASH = Some pos ->
  exists c e q',
    Text.index q (pos + 1) = Some c
    /\ Text.slice q pos (pos + S (escape_digits c) + 1)
       = Some (String Text.BACKSLASH (String c e))
    /\ Text.drop (pos + S (escape_digits c) + 1) q = q'
    /\ q = Text.take pos q ++ String Text.BACKSLASH (String c e) ++ q'
    /\ quoted_body q' /\ (String.length q' < String.length q)%nat
    /\ Text.plain (Text.take pos q) = true
    /\ Text.plain (String c e) = true.
Proof.
  induction 1 as [|c q B S Hq IH|c e q L P Hq _]; intros pos HI.
  - discriminate HI.
  - simpl in HI. rewrite B in HI.
    destruct (Text.IndexByte q Text.BACKSLASH) as [pos'|] eqn:E; [|discriminate].
    injection HI as <-.
    destruct (IH pos' eq_refl) as (c' & e' & q' & I1 & I2 & I3 & I4 & I5 & I6 & I7 & I8).
    exists c', e', q'. repeat split.
    + exact I1.
    + apply (slice_cons c) in I2. exact I2.
    + exact I3.
    + rewrite take_cons, sapp_cons. now rewrite <- I4.
    + exact I5.
    + simpl. lia.
    + rewrite take_cons. simpl. now rewrite S, I7.
    + exact I8.
  - simpl in HI. injection HI as <-.
    exists c, e, q. repeat split.
    + unfold Text.slice. simpl String.length. rewrite slength_app, <- L.
      rewrite (proj2 (Nat.leb_le _ _)) by lia.
      rewrite (proj2 (Nat.leb_le _ _)) by lia.
      cbn [andb]. f_equal.
      replace (0 + S (String.length e) + 1 - 0)%nat with (S (S (String.length e))) by lia.
      simpl Text.drop. rewrite !take_cons. now rewrite take_app_exact.
    + replace (0 + S (escape_digits c) + 1)%nat with (S (S (String.length e))) by lia.
      simpl. apply drop_app_exact.
    + exact Hq.
    + simpl. rewrite slength_app. lia.
    + exact P.
Qed.

Lemma ColorPrint_writing t c w base :
  ColorPrint t c (writing w base) = Ok (tt, writing (w ++ Colorize base t c) base).
Proof. unfold ColorPrint, bind, gets. apply Print_writing. Qed.

Lemma Colorize_off p t c : colorScheme p = None -> Colorize p t c = t.
Proof. intros H. unfold Colorize. now rewrite H. Qed.

(** The loop of [printString] prints a quoted text to its end: the same
    text on all printers with the same colors, and with no colors the text
    itself. *)
Lemma printString_loop_quoted fuel : forall q p0,
  quoted_body q -> (String.length q < fuel)%nat ->
  exists X,
    (forall w base,
       colorScheme base = colorScheme p0 ->
       printString_loop fuel q (writing w base) = Ok (tt, writing (w ++ X) base))
    /\ Text.plain X = true
    /\ (colorScheme p0 = None -> X = q).
Proof.
  induction fuel as [|fuel IH]; intros q p0 Hq Hlt; [lia|].
  destruct (Nat.eqb (String.length q) 0) eqn:E0.
  { exists "". destruct q; [|discriminate E0].
    split; [|auto]. intros w base _. cbn [printString_loop]. simpl.
    unfold ret. now rewrite sapp_nil_r. }
  destruct (Text.IndexByte q Text.BACKSLASH) as [pos|] eqn:EI.
  2:{ exists (Colorize p0 q StringColor). split; [|split].
      - intros w base Hb. cbn [printString_loop]. rewrite E0, EI.
        rewrite ColorPrint_writing, (Colorize_ext base p0 Hb). reflexivity.
      - apply Colorize_plain, quoted_body_plain, Hq.
      - intros Hc. now apply Colorize_off. }
  destruct (body_split q Hq pos EI)
    as (c & e & q' & I1 & I2 & I3 & I4 & I5 & I6 & I7 & I8).
  destruct (IH q' p0 I5 ltac:(lia)) as (X' & L & PX & CX).
  exists ((if Nat.eqb pos 0 then ""
           else Colorize p0 (Text.take pos q) StringColor)
          ++ Colorize p0 (String Text.BACKSLASH (String c e)) EscapedCharColor
          ++ X').
  split; [|split].
  - intros w base Hb. cbn [printString_loop]. rewrite E0, EI.
    rewrite I1. cbv zeta. rewrite escape_width, I2, I3.
    unfold bind at 1.
    assert (E1 : (if Nat.eqb pos 0 then ret tt
                  else ColorPrint (Text.take pos q) StringColor) (writing w base)
                 = Ok (tt, writing
                             (w ++ (if Nat.eqb pos 0 then ""
                                    else Colorize p0 (Text.take pos q) StringColor))
                             base)).
    { destruct (Nat.eqb pos 0).
      - unfold ret. now rewrite sapp_nil_r.
      - rewrite ColorPrint_writing, (Colorize_ext base p0 Hb). reflexivity. }
    rewrite E1. unfold bind. rewrite ColorPrint_writing, (Colorize_ext base p0 Hb).
    rewrite (L _ base Hb). rewrite !sapp_assoc. reflexivity.
  - rewrite !plain_app, PX.
    rewrite Colorize_plain
      by (change (Text.plain (String c e) = true); exact I8).
    destruct (Nat.eqb pos 0); [reflexivity|].
    now rewrite Colorize_plain by exact I7.
  - intros Hc. rewrite (CX Hc), !(Colorize_off p0) by exact Hc.
    assert (E : (if Nat.eqb pos 0 then "" else Text.take pos q) = Text.take pos q).
    { destruct (Nat.eqb pos 0) eqn:Ep; [|reflexivity].
      apply Nat.eqb_eq in Ep. subst pos. now rewrite take_0. }
    rewrite E. symmetry. exact I4.
Qed.

Lemma Quote_slice tbl s :
  Text.slice (strconv.Quote tbl s) 1 (String.length (strconv.Quote tbl s) - 1)
  = Some (strconv.quote_loop tbl (String.length s) s).
Proof.
  unfold strconv.Quote. set (b := strconv.quote_loop tbl (String.length s) s).
  change (Text.str Text.QUOTE ++ b ++ Text.str Text.QUOTE)
    with (String Text.QUOTE (b ++ Text.str Text.QUOTE)).
  unfold Text.slice. simpl String.length. rewrite slength_app. simpl String.length.
  rewrite (proj2 (Nat.leb_le _ _)) by lia.
  rewrite (proj2 (Nat.leb_le _ _)) by lia.
  cbn [andb]. f_equal. simpl Text.drop.
  replace (S (String.length b + 1) - 1 - 1)%nat with (String.length b) by lia.
  apply take_app_exact.
Qed.

(** The text of a string is the same on all printers with the same
    colors. *)
Lemma Format_quoted env t s p0 :
  prettyPrinter env (reflect.VString t s) = None ->
  exists text,
    (forall h n p,
       colorScheme p = colorScheme p0 ->
       Format env h (S n) (reflect.ValueOf (reflect.VString t s)) p = Ok (text, p))
    /\ Text.plain text = true
    /\ (colorScheme p0 = None -> text = strconv.Quote (IsPrint_table env) s).
Proof.
  intros Hpp.
  set (v := reflect.ValueOf (reflect.VString t s)).
  set (q := strconv.quote_loop (IsPrint_table env) (String.length s) s).
  destruct (printString_loop_quoted (S (String.length q)) q p0
              (quote_loop_body _ _ _) ltac:(lia))
    as (X & L & PX & CX).
  exists (Colorize p0 (Text.str Text.QUOTE) StringQuotationColor ++ X
          ++ Colorize p0 (Text.str Text.QUOTE) StringQuotationColor).
  assert (HP : Text.plain (Colorize p0 (Text.str Text.QUOTE) StringQuotationColor ++ X
                           ++ Colorize p0 (Text.str Text.QUOTE) StringQuotationColor)
               = true).
  { rewrite !plain_app, PX, !Colorize_plain by reflexivity. reflexivity. }
  split; [|split; [exact HP|]].
  - intros h n p Hp.
    assert (Hb : colorScheme (subPrinter p v) = colorScheme p0) by exact Hp.
    simpl Format. rewrite Format_body_unfold.
    rewrite (dispatch_kind env h _ _ (reflect.VString t s)); [|reflexivity|exact Hpp].
    change (reflect.Kind_ (value (subPrinter p v))) with reflect.String. cbv iota.
    unfold printString. unfold bind at 1. unfold gets at 1. unfold id.
    change (reflect.it (value (subPrinter p v))) with (reflect.VString t s).
    cbv iota. rewrite Quote_slice. fold q.
    unfold bind.
    change (subPrinter p v) with (writing "" (subPrinter p v)) at 1.
    rewrite ColorPrint_writing, (L _ _ Hb), ColorPrint_writing.
    rewrite String_writing.
    change (visited (writing _ (subPrinter p v))) with (visited p).
    rewrite set_visited_same.
    rewrite !sapp_nil_l, !sapp_assoc.
    rewrite !(Colorize_ext (subPrinter p v) p0) by exact Hb.
    now rewrite typeset_plain by exact HP.
  - intros Hc. rewrite (CX Hc), !Colorize_off by exact Hc. reflexivity.
Qed.

(** X1.  [Format] of a string does not fail; the text is plain, and with no
    colors it is the string as [strconv.Quote] quotes it. *)
Theorem Format_string env h n p t s :
  prettyPrinter env (reflect.VString t s) = None ->
  exists text,
    Format env h (S n) (reflect.ValueOf (reflect.VString t s)) p = Ok (text, p)
    /\ Text.plain text = true
    /\ (colorScheme p = None -> text = strconv.Quote (IsPrint_table env) s).
Proof.
  intros Hpp. destruct (Format_quoted env t s p Hpp) as (text & F & P & Q).
  exists text. split; [apply F; reflexivity|]. split; assumption.
Qed.

Lemma Format_string_witness :
  Format plain_env Ex.empty 1 (reflect.ValueOf (Ex.str "ArchLinux"))
    (Ex.printer true true true)
  = Ok (Text.str Text.QUOTE ++ "ArchLinux" ++ Text.str Text.QUOTE,
        Ex.printer true true true).
Proof.
  destruct (Format_string plain_env Ex.empty 0 (Ex.printer true true true)
              Ex.t_string "ArchLinux" eq_refl) as (text & E & _ & Q).
  change (Ex.str "ArchLinux") with (reflect.VString Ex.t_string "ArchLinux").
  rewrite E, (Q eq_refl). reflexivity.
Defined.

(* ===================================================================== *)
(** * The name of a type *)
(* ===================================================================== *)

Lemma Split_nonempty s sep : Text.Split s sep <> [].
Proof.
  destruct s as [|c r]; simpl; [discriminate|].
  destruct (Ascii.eqb c sep); [discriminate|].
  destruct (Text.Split r sep); discriminate.
Qed.

Lemma Split_single sep : forall s b, Text.Split s sep = [b] -> s = b.
Proof.
  induction s as [|c r IH]; intros b H; simpl in H.
  - now injection H.
  - destruct (Ascii.eqb c sep).
    + injection H as _ H. now apply Split_nonempty in H.
    + destruct (Text.Split r sep) as [|p ps] eqn:E;
        [destruct (Split_nonempty _ _ E)|].
      injection H as <- ->. now rewrite (IH p eq_refl).
Qed.

Lemma Split_pair sep : forall s a b,
  Text.Split s sep = [a; b] -> s = a ++ String sep b.
Proof.
  induction s as [|c r IH]; intros a b H; simpl in H; [discriminate|].
  destruct (Ascii.eqb c sep) eqn:Ec.
  - apply Ascii.eqb_eq in Ec. subst c. injection H as <- H.
    now rewrite (Split_single sep r b H).
  - destruct (Text.Split r sep) as [|p ps] eqn:E;
      [destruct (Split_nonempty _ _ E)|].
    injection H as <- ->. rewrite sapp_cons. now rewrite <- (IH p b eq_refl).
Qed.

Lemma digitRun_prefix : forall s,
  Text.take (String.length (re.digitRun s)) s = re.digitRun s.
Proof.
  induction s as [|c r IH]; [reflexivity|]. simpl.
  destruct (re.isDigit c); [|reflexivity]. simpl. now rewrite IH.
Qed.

Lemma drop_S n : forall s c rest,
  Text.drop n s = String c rest -> Text.drop (S n) s = rest.
Proof.
  induction n as [|n IH]; intros s c rest H.
  - destruct s; simpl in H; [discriminate|]. now injection H as _ <-.
  - destruct s as [|d s]; simpl in H; [discriminate|]. simpl. now apply IH in H.
Qed.

Lemma slicePrefix_join t : re.slicePrefix t = true -> "[]" ++ Text.drop 2 t = t.
Proof.
  unfold re.slicePrefix.
  destruct t as [|a t]; [discriminate|].
  destruct a as [[] [] [] [] [] [] [] []]; try discriminate.
  destruct t as [|b r]; [discriminate|].
  destruct b as [[] [] [] [] [] [] [] []]; try discriminate.
  reflexivity.
Qed.

Lemma arrayPrefix_join t num :
  re.arrayPrefix t = Some num ->
  "[" ++ num ++ "]" ++ Text.drop (2 + String.length num) t = t.
Proof.
  unfold re.arrayPrefix.
  destruct t as [|a r]; [discriminate|].
  destruct a as [[] [] [] [] [] [] [] []]; try discriminate.
  destruct (Text.drop (String.length (re.digitRun r)) r) as [|b rest] eqn:E;
    [discriminate|].
  destruct b as [[] [] [] [] [] [] [] []]; try discriminate.
  destruct (re.nonempty (re.digitRun r) && re.nonempty rest && re.noLF rest);
    [|discriminate].
  intros H. injection H as <-.
  change (Text.drop (2 + String.length (re.digitRun r)) (String "[" r))
    with (Text.drop (S (String.length (re.digitRun r))) r).
  rewrite (drop_S _ _ _ _ E).
  change ("[" ++ re.digitRun r ++ "]" ++ rest)
    with (String "[" (re.digitRun r ++ String "]" rest)).
  f_equal. rewrite <- E, <- digitRun_prefix at 1. apply take_drop.
Qed.

Lemma qualified_join t a b : re.qualified t = Some (a, b) -> a ++ "." ++ b = t.
Proof.
  unfold re.qualified.
  destruct (Text.Split t ".") as [|x [|y [|z r]]] eqn:E; try discriminate.
  destruct (re.nonempty x && re.nonempty y); [|discriminate].
  intros H. injection H as <- <-. symmetry. apply (Split_pair _ _ _ _ E).
Qed.

(** X2.  With no colors, [colorizeType] returns the name of the type as it is,
    but for a slice of arrays: the prefix of the array takes the place of
    the one of the slice. *)
Theorem colorizeType_off p t :
  colorScheme p = None ->
  colorizeType p t
  = if re.slicePrefix t
       && match re.arrayPrefix (Text.drop 2 t) with Some _ => true | None => false end
    then Text.drop 2 t
    else t.
Proof.
  intros Hc. unfold colorizeType.
  assert (Q : forall u,
             match re.qualified u with
             | Some (a, b) => a ++ "." ++ Colorize p b StructNameColor
             | None => Colorize p u StructNameColor
             end = u).
  { intros u. destruct (re.qualified u) as [[a b]|] eqn:E.
    - rewrite (Colorize_off p _ _ Hc). now apply qualified_join.
    - now apply Colorize_off. }
  destruct (re.slicePrefix t) eqn:ES.
  - destruct (re.arrayPrefix (Text.drop 2 t)) as [num|] eqn:EA.
    + rewrite Q, (Colorize_off p _ _ Hc). cbn [andb].
      rewrite !sapp_assoc. now apply arrayPrefix_join.
    + rewrite Q. cbn [andb]. now apply slicePrefix_join.
  - cbn [andb]. destruct (re.arrayPrefix t) as [num|] eqn:EA.
    + rewrite Q, (Colorize_off p _ _ Hc). rewrite !sapp_assoc.
      now apply arrayPrefix_join.
    + rewrite Q. apply sapp_nil_l.
Qed.

Lemma colorizeType_off_witness :
  colorizeType (Ex.printer false false false) "[]efibootctl.BootIndex"
  = "[]efibootctl.BootIndex"
  /\ colorizeType (Ex.printer false false false) "[][3]int" = "[3]int".
Proof.
  split.
  - rewrite (colorizeType_off (Ex.printer false false false)
               "[]efibootctl.BootIndex" eq_refl). reflexivity.
  - rewrite (colorizeType_off (Ex.printer false false false) "[][3]int" eq_refl).
    reflexivity.
Defined.

(* ===================================================================== *)
(** * A container that is rendered again *)
(* ===================================================================== *)

Lemma Format_marks env h n x a m p s p' :
  prettyPrinter env x = None -> identity x = Some a -> elision h p x = Some m ->
  Format env h n (reflect.ValueOf x) p = Ok (s, p') ->
  seen (visited p') a = true.
Proof.
  intros Hpp Hid Hel H. destruct n as [|n]; simpl in H; [discriminate|].
  rewrite Format_body_unfold in H.
  destruct (dispatch env h (Format env h n) (subPrinter p (reflect.ValueOf x)))
    as [[[] pp']| |] eqn:E; try discriminate.
  injection H as _ <-. simpl.
  assert (Hrec : forall v, keeps (Format env h n v)).
  { intros v q b q' Hq. apply (Format_frame env h n _ _ _ _ Hq). }
  apply (dispatch_marks env h (Format env h n) Hrec
           (subPrinter p (reflect.ValueOf x)) x a m tt pp' eq_refl Hpp Hid);
    [|exact E].
  now rewrite elision_subPrinter.
Qed.

Lemma Format_elided env h n x a m p :
  prettyPrinter env x = None -> identity x = Some a -> elision h p x = Some m ->
  seen (visited p) a = true ->
  Format env h (S n) (reflect.ValueOf x) p = Ok (typeset m, p).
Proof.
  intros Hpp Hid Hel Hseen. simpl. rewrite Format_body_unfold.
  rewrite (dispatch_elided env h _ _ x a m); auto.
  destruct (Print_typeset m (subPrinter p (reflect.ValueOf x)) eq_refl eq_refl)
    as (pp' & E1 & E2 & E3).
  rewrite E1, E2, E3. simpl. now rewrite set_visited_same.
Qed.

Lemma elision_ext h p q x : colorScheme p = colorScheme q -> elision h p x = elision h q x.
Proof.
  intros E. unfold elision.
  destruct x; try reflexivity; rewrite ?(colorizeType_ext p q) by exact E; try reflexivity.
  destruct (ptr =? 0); [reflexivity|].
  destruct (reflect.cells h !! ptr) as [y|]; [|reflexivity].
  destruct (reflect.named y); [|reflexivity].
  now rewrite (colorizeType_ext p q).
Qed.

(** X3.  The visited set lasts as long as the printer: a map or slice that is
    not empty, or a pointer that is not nil, that one call of [Format] has
    rendered is rendered by the next call on the printer it returned as
    the marker with [{...}], whatever it holds. *)
Theorem Format_again env h n m p x a el s p' :
  prettyPrinter env x = None -> identity x = Some a -> elision h p x = Some el ->
  Format env h n (reflect.ValueOf x) p = Ok (s, p') ->
  Format env h (S m) (reflect.ValueOf x) p' = Ok (typeset el, p').
Proof.
  intros Hpp Hid Hel H.
  pose proof (Format_marks env h n x a el p s p' Hpp Hid Hel H) as Hs.
  destruct (Format_frame env h n _ _ _ _ H) as [Ep _].
  apply (Format_elided env h m x a el p' Hpp Hid); [|exact Hs].
  rewrite <- Hel. apply elision_ext. rewrite Ep. reflexivity.
Qed.

Lemma Format_again_witness :
  Format plain_env Ex.bytes20_store 1 (reflect.ValueOf Ex.bytes20)
    (set_visited (Ex.printer true false false) (<[400 := true]> ∅))
  = Ok ("[]uint8{...}",
        set_visited (Ex.printer true false false) (<[400 := true]> ∅)).
Proof.
  apply (Format_again plain_env Ex.bytes20_store 2 0 (Ex.printer true false false)
           Ex.bytes20 400 "[]uint8{...}"
           ("{" ++ Text.str Text.LF
            ++ "    0, 1, 2, 3, 4, 5, 6, 7, 8, 9, 10, 11, 12, 13, 14, 15,"
            ++ Text.str Text.LF
            ++ "    16, 17, 18, 19," ++ Text.str Text.LF ++ "}"));
    [reflexivity | reflexivity | reflexivity | vm_compute; reflexivity].
Defined.

(* ===================================================================== *)
(** * Containers that are nil or empty *)
(* ===================================================================== *)

(** A value for which the printer prints one text. *)
Lemma Format_prints env h n v p m :
  dispatch env h (Format env h n) (subPrinter p v) = Print m (subPrinter p v) ->
  Format env h (S n) v p = Ok (typeset m, p).
Proof.
  intros H. simpl. rewrite Format_body_unfold, H.
  destruct (Print_typeset m (subPrinter p v) eq_refl eq_refl) as (pp' & E1 & E2 & E3).
  rewrite E1, E2, E3. simpl. now rewrite set_visited_same.
Qed.

(** X4.  A nil slice is rendered as its type and [(nil)]; a slice or array with
    no element, and a map with no entry, nil or not, as its type and [{}].
    None of them enters the visited set. *)
Theorem nil_and_empty env h n p :
  (forall t elem len,
     prettyPrinter env (reflect.VSlice t elem 0 len) = None ->
     Format env h (S n) (reflect.ValueOf (reflect.VSlice t elem 0 len)) p
     = Ok (typeset (colorizeType p (reflect.tString t)
                    ++ "(" ++ Colorize p "nil" NilColor ++ ")"), p))
  /\ (forall t elem ptr,
        ptr <> 0 -> prettyPrinter env (reflect.VSlice t elem ptr 0) = None ->
        Format env h (S n) (reflect.ValueOf (reflect.VSlice t elem ptr 0)) p
        = Ok (typeset (colorizeType p (reflect.tString t) ++ "{}"), p))
  /\ (forall t elem,
        prettyPrinter env (reflect.VArray t elem []) = None ->
        Format env h (S n) (reflect.ValueOf (reflect.VArray t elem [])) p
        = Ok (typeset (colorizeType p (reflect.tString t) ++ "{}"), p))
  /\ (forall t ptr,
        reflect.entries h ptr = Ok [] ->
        prettyPrinter env (reflect.VMap t ptr) = None ->
        Format env h (S n) (reflect.ValueOf (reflect.VMap t ptr)) p
        = Ok (typeset (colorizeType p (reflect.tString t) ++ "{}"), p)).
Proof.
  repeat split.
  - intros t elem len Hpp. apply Format_prints.
    rewrite (dispatch_kind env h _ _ (reflect.VSlice t elem 0 len));
      [|reflexivity|exact Hpp].
    reflexivity.
  - intros t elem ptr Hptr Hpp. apply Format_prints.
    rewrite (dispatch_kind env h _ _ (reflect.VSlice t elem ptr 0));
      [|reflexivity|exact Hpp].
    simpl. unfold printSlice. munfold. cbn.
    rewrite (proj2 (Z.eqb_neq ptr 0) Hptr). reflexivity.
  - intros t elem Hpp. apply Format_prints.
    rewrite (dispatch_kind env h _ _ (reflect.VArray t elem []));
      [|reflexivity|exact Hpp].
    reflexivity.
  - intros t ptr He Hpp. apply Format_prints.
    rewrite (dispatch_kind env h _ _ (reflect.VMap t ptr));
      [|reflexivity|exact Hpp].
    simpl. unfold printMap. munfold. cbn. rewrite He. reflexivity.
Qed.

(** The three cases on the slices and the map of an empty store. *)
Lemma nil_and_empty_rendered :
  text_of (Format plain_env Ex.empty 1
             (reflect.ValueOf (reflect.VSlice Ex.t_ints reflect.Int 0 0))
             (Ex.printer false false false)) = Ok "[]int(nil)"
  /\ text_of (Format plain_env Ex.empty 1
                (reflect.ValueOf (reflect.VSlice Ex.t_ints reflect.Int 300 0))
                (Ex.printer false false false)) = Ok "[]int{}"
  /\ text_of (Format plain_env Ex.empty 1
                (reflect.ValueOf (reflect.VMap Ex.t_counts 0))
                (Ex.printer false false false)) = Ok "map[int]string{}".
Proof. repeat split; vm_compute; reflexivity. Qed.

(* ===================================================================== *)
(** * Pointers and interfaces *)
(* ===================================================================== *)

Lemma alike_subPrinter p q v : alike p q -> subPrinter p v = subPrinter q v.
Proof.
  intros (E1 & E2 & E3 & E4 & E5 & E6).
  unfold subPrinter, NewPrinter, set_depth, set_visited. simpl.
  now rewrite E1, E2, E3, E4, E5, E6.
Qed.

(** [Format] reads the options, the depth and the visited set of the
    printer, and nothing else. *)
Lemma Format_alike env h n v p q :
  alike p q -> Format env h n v p = carried p (Format env h n v q).
Proof.
  intros H. destruct n as [|n]; [reflexivity|]. simpl.
  rewrite !Format_body_unfold, (alike_subPrinter p q v H).
  destruct (dispatch env h (Format env h n) (subPrinter q v)) as [[[] pp']| |];
    reflexivity.
Qed.

Lemma Format_nil_pointer env h n p t :
  seen (visited p) 0 = false ->
  prettyPrinter env (reflect.VPtr t 0) = None ->
  Format env h (S n) (reflect.ValueOf (reflect.VPtr t 0)) p
  = Ok (typeset ("(" ++ colorizeType p (reflect.tString t) ++ ")("
                 ++ Colorize p "nil" NilColor ++ ")"), p).
Proof.
  intros Hseen Hpp. apply Format_prints.
  rewrite (dispatch_kind env h _ _ (reflect.VPtr t 0)); [|reflexivity|exact Hpp].
  simpl. unfold printPtr. munfold. cbn. rewrite Hseen. reflexivity.
Qed.

(** X5.  A pointer that is not nil and was not visited is rendered as [&] and
    what it refers to, rendered with the pointer visited; a nil pointer as
    its type and [nil]; an interface as the value it holds, a nil
    interface as [nil]. *)
Theorem pointers_and_interfaces env h n p :
  (forall t a x,
     a <> 0 -> reflect.cells h !! a = Some x -> x <> reflect.VInvalid ->
     seen (visited p) a = false ->
     prettyPrinter env (reflect.VPtr t a) = None ->
     Format env h (S n) (reflect.ValueOf (reflect.VPtr t a)) p
     = retext (fun s => typeset ("&" ++ s))
         (Format env h n (reflect.ValueOf x)
            (set_visited p (<[a := true]> (visited p)))))
  /\ (forall t,
        seen (visited p) 0 = false ->
        prettyPrinter env (reflect.VPtr t 0) = None ->
        Format env h (S n) (reflect.ValueOf (reflect.VPtr t 0)) p
        = Ok (typeset ("(" ++ colorizeType p (reflect.tString t) ++ ")("
                       ++ Colorize p "nil" NilColor ++ ")"), p))
  /\ (forall t x,
        x <> reflect.VInvalid -> prettyPrinter env x = None ->
        Format env h (S n) (reflect.ValueOf (reflect.VInterface t x)) p
        = retext typeset (Format env h n (reflect.ValueOf x) p))
  /\ (forall t,
        Format env h (S n) (reflect.ValueOf (reflect.VInterface t reflect.VInvalid)) p
        = Ok (typeset (Colorize p "nil" NilColor), p)).
Proof.
  repeat split.
  - intros t a x Ha Hx Hv Hseen Hpp.
    set (v := reflect.ValueOf (reflect.VPtr t a)).
    set (q := set_visited (subPrinter p v) (<[a := true]> (visited p))).
    assert (HA : alike q (set_visited p (<[a := true]> (visited p)))).
    { repeat split. }
    change (Format env h (S n) v p) with (Format_body env h (Format env h n) v p).
    rewrite Format_body_unfold.
    rewrite (dispatch_kind env h _ _ (reflect.VPtr t a)); [|reflexivity|exact Hpp].
    change (reflect.Kind_ (value (subPrinter p v))) with reflect.Ptr. cbv iota.
    unfold printPtr, mark, modify. munfold.
    change (reflect.Pointer (value (subPrinter p v))) with (@Ok Z a). cbv iota beta.
    change (visited (subPrinter p v)) with (visited p). rewrite Hseen.
    rewrite (proj2 (Z.eqb_neq a 0) Ha). cbn [negb].
    cbv iota beta.
    change (reflect.Elem h (value (subPrinter p v)))
      with (if a =? 0 then Ok reflect.zero
            else match reflect.cells h !! a with
                 | Some x => Ok (reflect.ValueOf x)
                 | None => @reflect.fault reflect.Value
                 end).
    rewrite (proj2 (Z.eqb_neq a 0) Ha), Hx. cbv iota beta.
    assert (HV : reflect.IsValid (reflect.ValueOf x) = true).
    { destruct x; try reflexivity. congruence. }
    rewrite HV.
    change (set_visited (subPrinter p v) (<[a:=true]> (visited (subPrinter p v))))
      with q.
    rewrite (Format_alike env h n (reflect.ValueOf x) q _ HA).
    destruct (Format env h n (reflect.ValueOf x)
                (set_visited p (<[a := true]> (visited p)))) as [[s p']| |] eqn:EF;
      try reflexivity.
    unfold carried, retext. cbv iota beta.
    change (set_visited q (visited p')) with (writing "" (set_visited q (visited p'))).
    rewrite Print_writing, String_writing, sapp_nil_l. simpl visited.
    destruct (Format_frame env h n _ _ _ _ EF) as [Ep _].
    rewrite Ep at 2. reflexivity.
  - intros t Hseen Hpp. apply Format_nil_pointer; assumption.
  - intros t x Hv Hpp.
    set (v := reflect.ValueOf (reflect.VInterface t x)).
    assert (HA : alike (subPrinter p v) p) by (repeat split).
    change (Format env h (S n) v p) with (Format_body env h (Format env h n) v p).
    rewrite Format_body_unfold.
    assert (HI : reflect.Interface_ (value (subPrinter p v)) = Ok x).
    { reflexivity. }
    rewrite (dispatch_kind env h _ _ x HI Hpp).
    change (reflect.Kind_ (value (subPrinter p v))) with reflect.Interface. cbv iota.
    unfold printInterface. munfold.
    assert (HE : reflect.Elem h (value (subPrinter p v)) = Ok (reflect.ValueOf x)).
    { simpl. destruct x; reflexivity. }
    rewrite HE. cbv iota beta.
    assert (HK : reflect.Kind_ (reflect.ValueOf x) <> reflect.Invalid).
    { destruct x; simpl; try discriminate; try congruence;
        match goal with k : _ |- _ => destruct k; discriminate end. }
    assert (HV : reflect.IsValid (reflect.ValueOf x) = true).
    { destruct x; try reflexivity. congruence. }
    destruct (reflect.Kind_ (reflect.ValueOf x)) eqn:EK; try congruence.
    all: rewrite HV, (Format_alike env h n (reflect.ValueOf x) _ p HA).
    all: destruct (Format env h n (reflect.ValueOf x) p) as [[s p']| |] eqn:EF;
      try reflexivity.
    all: unfold carried, retext; cbv iota beta.
    all: change (set_visited (subPrinter p v) (visited p'))
           with (writing "" (set_visited (subPrinter p v) (visited p'))).
    all: rewrite Print_writing, String_writing, sapp_nil_l; simpl visited.
    all: destruct (Format_frame env h n _ _ _ _ EF) as [Ep _].
    all: rewrite Ep at 2; reflexivity.
  - intros t. apply Format_prints.
    rewrite (dispatch_kind env h _ _ reflect.VInvalid); reflexivity.
Qed.

(** A pointer to a pointer to nothing, in an interface. *)
Lemma pointers_rendered :
  text_of (Format plain_env
             (reflect.MkStore ∅ ∅ {[ 8 := reflect.VPtr Ex.t_node 0 ]}) 3
             (reflect.ValueOf
                (reflect.VInterface Ex.t_any
                   (reflect.VPtr (reflect.MkNamed "**main.Node" "") 8)))
             (Ex.printer false false false))
  = Ok "&(*main.Node)(nil)".
Proof. vm_compute. reflexivity. Qed.

(* ===================================================================== *)
(** * The nil address is never marked *)
(* ===================================================================== *)

Lemma clean_ret {A} (a : A) : clean (ret a).
Proof. intros p a' p' E H. inversion E; subst. exact H. Qed.
Lemma clean_gets {A} (f : Printer -> A) : clean (gets f).
Proof. intros p a' p' E H. inversion E; subst. exact H. Qed.
Lemma clean_throw {A} msg : clean (@throw A msg).
Proof. intros p a' p' E H. discriminate. Qed.
Lemma clean_starve {A} : clean (@starve A).
Proof. intros p a' p' E H. discriminate. Qed.
Lemma clean_lift {A} (r : Res A) : clean (lift r).
Proof.
  intros p a' p' E H. unfold lift in E. destruct r; inversion E; subst. exact H.
Qed.
Lemma clean_Print s : clean (Print s).
Proof.
  intros p a' p' E H. unfold Print in E.
  destruct (tabwriter.Write s (tw p)). inversion E; subst. exact H.
Qed.
Lemma clean_Indent : clean Indent.
Proof.
  intros p a' p' E H. unfold Indent in E.
  destruct (depth p <? 0); inversion E; subst. exact H.
Qed.
Lemma clean_set_depth f : clean (modify (fun p => set_depth p (f p))).
Proof. intros p a' p' E H. inversion E; subst. exact H. Qed.
Lemma clean_mark a : a <> 0 -> clean (mark a).
Proof.
  intros Ha p a' p' E H. inversion E; subst. simpl.
  unfold seen in *. rewrite lookup_insert_ne by exact Ha. exact H.
Qed.
Lemma clean_bind {A C} (m : M A) (k : A -> M C) :
  clean m -> (forall a, clean (k a)) -> clean (bind m k).
Proof.
  intros Hm Hk p c p' E H. unfold bind in E.
  destruct (m p) as [[a q]| |] eqn:E1; try discriminate.
  apply (Hk a q c p' E). apply (Hm p a q E1 H).
Qed.
Lemma clean_bind_lift {A C} (r : Res A) (k : A -> M C) :
  (forall a, r = Ok a -> clean (k a)) -> clean (bind (lift r) k).
Proof.
  intros Hk p c p' E H. unfold bind, lift in E.
  destruct r; try discriminate. apply (Hk a eq_refl p c p' E H).
Qed.
Lemma clean_forM_ {A} (l : list A) (f : A -> M unit) :
  (forall x, clean (f x)) -> clean (forM_ l f).
Proof.
  intros Hf. induction l as [|x l IH]; simpl.
  - apply clean_ret.
  - apply clean_bind; [apply Hf|]. intros _. exact IH.
Qed.

Lemma clean_at_gets_bind {A C} (f : Printer -> A) (k : A -> M C) p :
  clean_at (k (f p)) p -> clean_at (bind (gets f) k) p.
Proof. intros H. exact H. Qed.

Lemma clean_at_lift_bind {A C} (r : Res A) (k : A -> M C) p :
  (forall a, r = Ok a -> clean_at (k a) p) -> clean_at (bind (lift r) k) p.
Proof.
  intros Hk c p' E H. unfold bind, lift in E.
  destruct r; try discriminate. apply (Hk a eq_refl c p' E H).
Qed.

Ltac clean_step :=
  first
    [ apply clean_ret | apply clean_gets | apply clean_throw | apply clean_starve
    | apply clean_Print | apply clean_Indent | apply clean_set_depth
    | apply clean_lift
    | apply clean_mark; assumption
    | apply clean_forM_; intros ?
    | apply clean_bind_lift; intros ? ?
    | apply clean_bind; [|intros ?]
    | assumption
    | match goal with H : forall v, clean (_ v) |- _ => apply H end
    | match goal with
      | |- clean (if ?c then _ else _) => destruct c eqn:?
      | |- clean (match ?x with _ => _ end) => destruct x eqn:?
      | |- clean_at (if ?c then _ else _) _ => destruct c eqn:?
      | |- clean_at (match ?x with _ => _ end) _ => destruct x eqn:?
      end ].

Ltac clean_auto := repeat clean_step.

Lemma clean_at_of {A} (m : M A) p : clean m -> clean_at m p.
Proof. intros H. apply H. Qed.

Ltac by_clean := apply clean_at_of; solve [clean_auto].

Lemma printString_loop_clean fuel : forall quoted,
  clean (printString_loop fuel quoted).
Proof.
  induction fuel as [|f IH]; intros quoted; simpl.
  - apply clean_starve.
  - unfold ColorPrint. clean_auto.
Qed.

Section Clean.
Variable env : Env.
Variable h : reflect.Store.
Variable rec : reflect.Value -> M string.
Hypothesis rec_clean : forall v, clean (rec v).

Lemma typeString_clean : clean typeString.
Proof. unfold typeString. clean_auto. Qed.

Lemma raw_clean : clean (raw env).
Proof.
  unfold raw, fmtOrLocalizedSprintf_int, fmtOrLocalizedSprintf_uint,
    fmtOrLocalizedSprintf_f.
  intros p. apply clean_at_gets_bind. unfold id.
  destruct (reflect.it (value p)) eqn:E; clean_auto.
Qed.

Lemma printString_clean : clean (printString env).
Proof.
  unfold printString, ColorPrint. clean_auto; apply printString_loop_clean.
Qed.

Lemma printStruct_clean : clean (printStruct env rec).
Proof.
  unfold printStruct, printTime, indented, IndentPrint, Println.
  pose proof typeString_clean. clean_auto.
Qed.

Lemma printInterface_clean : clean (printInterface h rec).
Proof.
  unfold printInterface, nil_. pose proof typeString_clean. clean_auto.
Qed.

Lemma printPtr_clean : clean (printPtr h rec).
Proof.
  unfold printPtr, elemTypeString, nil_. pose proof typeString_clean.
  clean_auto.
  apply clean_mark.
  match goal with H : negb (_ =? 0) = true |- _ =>
    apply negb_true_iff, Z.eqb_neq in H; exact H end.
Qed.

Lemma printMap_clean p :
  reflect.Kind_ (value p) = reflect.Map -> clean_at (printMap h rec) p.
Proof.
  intros K. unfold printMap. apply clean_at_gets_bind. unfold id.
  apply clean_at_lift_bind. intros len HL.
  pose proof typeString_clean.
  destruct (Nat.eqb len 0) eqn:E0; [by_clean|].
  apply clean_at_lift_bind. intros ptr HP.
  assert (Hptr : ptr <> 0).
  { unfold reflect.Kind_ in K. unfold reflect.Len in HL.
    unfold reflect.Pointer in HP.
    destruct (reflect.it (value p)); try discriminate.
    inversion HP; subst. intros ->. unfold reflect.entries in HL.
    simpl in HL. inversion HL; subst. discriminate. }
  unfold indented, IndentPrint. by_clean.
Qed.

Lemma printSlice_clean p : clean_at (printSlice h rec) p.
Proof.
  unfold printSlice. apply clean_at_gets_bind. unfold id.
  pose proof typeString_clean.
  destruct (reflect.Kind_ (value p)) eqn:K;
    try (unfold nil_, indented, IndentPrint, Println; by_clean).
  apply clean_at_lift_bind. intros isNil HN.
  destruct isNil; [unfold nil_; by_clean|].
  apply clean_at_lift_bind. intros len HL.
  destruct (Nat.eqb len 0) eqn:E0; [by_clean|].
  apply clean_at_lift_bind. intros ptr HP.
  assert (Hptr : ptr <> 0).
  { unfold reflect.IsNil in HN. unfold reflect.Pointer in HP.
    destruct (reflect.it (value p)); try discriminate;
      inversion HP; subst; inversion HN as [HN']; apply Z.eqb_neq; exact HN'. }
  unfold indented, IndentPrint, Println. by_clean.
Qed.

Lemma dispatch_clean p : clean_at (dispatch env h rec) p.
Proof.
  unfold dispatch. apply clean_at_gets_bind. unfold id.
  apply clean_at_lift_bind. intros x Hx.
  destruct (prettyPrinter env x) as [ops|].
  - apply clean_at_of, clean_forM_. intros op. destruct op; simpl;
      unfold ColorPrint, IndentPrint; clean_auto.
  - pose proof typeString_clean. pose proof raw_clean.
    destruct (reflect.Kind_ (value p)) eqn:K;
      try (unfold ColorPrint, pointerAddr, nil_; by_clean).
    all: first [ apply printString_clean | apply printStruct_clean
               | apply printInterface_clean | apply printPtr_clean
               | apply printSlice_clean | apply (printMap_clean p K) ].
Qed.

Lemma Format_body_clean v : clean (Format_body env h rec v).
Proof.
  intros p s p' E H. unfold Format_body in E.
  fold (subPrinter p v) in E.
  destruct (dispatch env h rec (subPrinter p v)) as [[u q]| |] eqn:D;
    try discriminate.
  pose proof (dispatch_clean (subPrinter p v) u q D H) as C.
  unfold Printer_String in E. destruct (tabwriter.flush (tw q)).
  inversion E; subst. exact C.
Qed.
End Clean.

Lemma Format_clean env h n : forall v, clean (Format env h n v).
Proof.
  induction n as [|n IH]; intros v; simpl.
  - apply clean_starve.
  - apply Format_body_clean. exact IH.
Qed.

(** X6.  [Format] never marks the nil address as visited: when it was not marked
    before a call that returns, it is not marked after it, and a nil pointer
    is then rendered as its type and [nil], not as a reference that was seen
    before. *)
Theorem nil_never_marked env h n v p s p' :
  seen (visited p) 0 = false ->
  Format env h n v p = Ok (s, p') ->
  seen (visited p') 0 = false
  /\ (forall m t,
        prettyPrinter env (reflect.VPtr t 0) = None ->
        Format env h (S m) (reflect.ValueOf (reflect.VPtr t 0)) p'
        = Ok (typeset ("(" ++ colorizeType p' (reflect.tString t) ++ ")("
                       ++ Colorize p' "nil" NilColor ++ ")"), p')).
Proof.
  intros H E.
  assert (C : seen (visited p') 0 = false) by exact (Format_clean env h n v p s p' E H).
  split; [exact C|]. intros m t Hpp. apply Format_nil_pointer; assumption.
Qed.

(** After a pointer to a nil pointer was rendered, a nil pointer is. *)
Lemma nil_never_marked_witness :
  Format plain_env (reflect.MkStore ∅ ∅ {[ 8 := reflect.VPtr Ex.t_node 0 ]}) 1
    (reflect.ValueOf (reflect.VPtr Ex.t_node 0))
    (set_visited (Ex.printer false false false) (<[8 := true]> ∅))
  = Ok ("(*main.Node)(nil)",
        set_visited (Ex.printer false false false) (<[8 := true]> ∅)).
Proof.
  assert (H1 : seen (visited (Ex.printer false false false)) 0 = false)
    by reflexivity.
  assert (H2 : Format plain_env
                 (reflect.MkStore ∅ ∅ {[ 8 := reflect.VPtr Ex.t_node 0 ]}) 2
                 (reflect.ValueOf (reflect.VPtr (reflect.MkNamed "**main.Node" "") 8))
                 (Ex.printer false false false)
               = Ok ("&(*main.Node)(nil)",
                     set_visited (Ex.printer false false false) (<[8 := true]> ∅)))
    by (vm_compute; reflexivity).
  pose proof (proj2 (nil_never_marked _ _ _ _ _ _ _ H1 H2) 0%nat Ex.t_node eq_refl) as W.
  etransitivity; [exact W|]. vm_compute. reflexivity.
Defined.

(* ===================================================================== *)
(** * Sequences on one line *)
(* ===================================================================== *)

Lemma concat_cons sep x r :
  String.concat sep (x :: r)
  = x ++ String.concat "" (List.map (fun y => sep ++ y) r).
Proof.
  revert x. induction r as [|y r IH]; intros x.
  - simpl. now rewrite sapp_nil_r.
  - change (String.concat sep (x :: y :: r)) with (x ++ sep ++ String.concat sep (y :: r)).
    rewrite IH. simpl List.map.
    destruct r as [|z r].
    + simpl. now rewrite !sapp_nil_r.
    + change (String.concat "" ((sep ++ y) :: List.map (fun y0 => sep ++ y0) (z :: r)))
        with ((sep ++ y) ++ "" ++ String.concat "" (List.map (fun y0 => sep ++ y0) (z :: r))).
      rewrite sapp_nil_l, !sapp_assoc. reflexivity.
Qed.

Lemma concat_plain sep texts :
  Text.plain sep = true -> Forall (fun s => Text.plain s = true) texts ->
  Text.plain (String.concat sep texts) = true.
Proof.
  intros Hs H. induction H as [|x r Hx Hr IH]; [reflexivity|].
  destruct r as [|y r]; [exact Hx|].
  change (String.concat sep (x :: y :: r)) with (x ++ sep ++ String.concat sep (y :: r)).
  rewrite !plain_app, Hx, Hs, IH. reflexivity.
Qed.

Section Inline.
Variable h : reflect.Store.
Variable rec : reflect.Value -> M string.
Variable text : reflect.Value -> string.

Lemma inline_loop q es :
  (forall e s, e ∈ es -> rec e (writing s q) = Ok (text e, writing s q)) ->
  forall s,
    forM_ es (fun e => let* t := rec e in Print (", " ++ t)) (writing s q)
    = Ok (tt, writing
                (s ++ String.concat "" (List.map (fun y => ", " ++ y) (List.map text es)))
                q).
Proof.
  induction es as [|e es IH]; intros Hrec s.
  - simpl. now rewrite sapp_nil_r.
  - simpl forM_. unfold bind at 1. unfold bind at 1.
    rewrite Hrec by left. rewrite Print_writing.
    rewrite IH by (intros e' s' He'; apply Hrec; now right).
    simpl List.map.
    destruct es as [|e' es].
    + simpl. rewrite ?sapp_nil_r, ?sapp_assoc. reflexivity.
    + change (String.concat ""
                ((", " ++ text e)
                 :: List.map (fun y => ", " ++ y) (List.map text (e' :: es))))
        with ((", " ++ text e) ++ ""
              ++ String.concat ""
                   (List.map (fun y => ", " ++ y) (List.map text (e' :: es)))).
      rewrite sapp_nil_l, !sapp_assoc. reflexivity.
Qed.

Lemma printSlice_inline p t elem ptr len es g :
  let v := reflect.ValueOf (reflect.VSlice t elem ptr len) in
  let q := set_visited (subPrinter p v) (<[ptr := true]> (visited p)) in
  groupSizeOf h (subPrinter p v) = Ok g ->
  reflect.elements h ptr len = Ok es ->
  ptr <> 0 -> seen (visited p) ptr = false ->
  (0 < len)%nat -> Z.of_nat len < g -> Z.of_nat len <= 1024 ->
  (forall e s, e ∈ List.map (reflect.derived false) es ->
               rec e (writing s q) = Ok (text e, writing s q)) ->
  printSlice h rec (subPrinter p v)
  = Ok (tt, writing ("{" ++ String.concat ", "
                              (List.map text (List.map (reflect.derived false) es))
                     ++ "}") q).
Proof.
  intros v q HG Hes Hptr Hseen Hpos Hg Hlen Hrec.
  assert (Hp0 : (ptr =? 0) = false) by (apply Z.eqb_neq; exact Hptr).
  assert (Hl0 : Nat.eqb len 0 = false) by (apply Nat.eqb_neq; lia).
  assert (Hbig : (1024 <? Z.of_nat len) = false) by (apply Z.ltb_ge; exact Hlen).
  assert (Hin : (Z.of_nat len <? g) = true) by (apply Z.ltb_lt; lia).
  unfold printSlice. munfold.
  change (reflect.Kind_ (value (subPrinter p v))) with reflect.Slice. cbv iota.
  change (reflect.IsNil (value (subPrinter p v))) with (@Ok bool (ptr =? 0)).
  rewrite Hp0. cbv iota beta.
  change (reflect.Len h (value (subPrinter p v))) with (@Ok nat len).
  cbv iota beta. rewrite Hl0.
  change (reflect.Pointer (value (subPrinter p v))) with (@Ok Z ptr).
  cbv iota beta.
  change (visited (subPrinter p v)) with (visited p). rewrite Hseen.
  cbn [andb]. unfold mark, modify. cbv iota beta. rewrite Hbig, HG.
  cbv iota beta.
  change (reflect.Indexes h (value (subPrinter p v)))
    with (res_bind (reflect.elements h ptr len)
            (fun es => Ok (List.map (reflect.derived false) es))).
  rewrite Hes. cbn [res_bind]. cbv iota beta. rewrite Hin.
  change (set_visited (subPrinter p v) (<[ptr:=true]> (visited (subPrinter p v))))
    with (writing "" q).
  rewrite Print_writing, sapp_nil_l.
  destruct es as [|e0 es].
  { exfalso. unfold reflect.elements in Hes. rewrite Hl0 in Hes.
    destruct (reflect.arrays h !! ptr) as [l|]; [|discriminate].
    destruct (len <=? List.length l)%nat eqn:El; [|discriminate].
    apply Nat.leb_le in El. inversion Hes as [Hf].
    apply (f_equal (@List.length _)) in Hf. rewrite length_firstn in Hf.
    simpl in Hf. lia. }
  change (List.map (reflect.derived false) (e0 :: es))
    with (reflect.derived false e0 :: List.map (reflect.derived false) es) in *.
  cbv iota beta.
  rewrite Hrec by left. rewrite Print_writing.
  pose proof (inline_loop q (List.map (reflect.derived false) es)
                ltac:(intros e' s' He'; apply Hrec; now right)
                ("{" ++ text (reflect.derived false e0))) as L.
  unfold bind in L. rewrite L.
  change (List.map text (reflect.derived false e0 :: List.map (reflect.derived false) es))
    with (text (reflect.derived false e0)
          :: List.map text (List.map (reflect.derived false) es)).
  rewrite Print_writing, concat_cons, !sapp_assoc. reflexivity.
Qed.
End Inline.

(** X7.  A slice of sized unsigned integers that has fewer elements than a group
    is rendered on one line: the elements between braces, with a comma and
    a space in between, and without the name of the type.  The slice is
    marked as visited. *)
Theorem short_slices env h n p t te k ptr xs :
  reflect.arrays h !! ptr = Some (uint_elems te k xs) ->
  ptr <> 0 -> seen (visited p) ptr = false ->
  prettyPrinter env (reflect.VSlice t (reflect.kind_of_uint k) ptr (List.length xs))
  = None ->
  (forall x, prettyPrinter env (reflect.VUint te k x) = None) ->
  (0 < List.length xs)%nat -> Z.of_nat (List.length xs) < uint_group k ->
  Format env h (S (S n))
    (reflect.ValueOf (reflect.VSlice t (reflect.kind_of_uint k) ptr (List.length xs))) p
  = Ok ("{" ++ String.concat ", "
                 (List.map (fun x => Colorize p (uint_text p k x) IntegerColor) xs)
        ++ "}",
        set_visited p (<[ptr := true]> (visited p))).
Proof.
  intros Harr Hptr Hseen Hpp Hel Hpos Hg.
  assert (Hne : xs <> []).
  { intros ->. simpl in Hpos. lia. }
  assert (Hbound : uint_group k <= 16) by (destruct k; simpl; lia).
  rewrite <- (typeset_plain
                ("{" ++ String.concat ", "
                          (List.map (fun x => Colorize p (uint_text p k x) IntegerColor) xs)
                 ++ "}")).
  2:{ rewrite !plain_app, concat_plain; [reflexivity|reflexivity|].
      apply uint_texts_plain. }
  set (v := reflect.ValueOf
              (reflect.VSlice t (reflect.kind_of_uint k) ptr (List.length xs))).
  change (Format env h (S (S n)) v p)
    with (Format_body env h (Format env h (S n)) v p).
  rewrite Format_body_unfold.
  rewrite (dispatch_kind env h _ _
             (reflect.VSlice t (reflect.kind_of_uint k) ptr (List.length xs)));
    [|reflexivity|exact Hpp].
  change (reflect.Kind_ (value (subPrinter p v))) with reflect.Slice. cbv iota.
  subst v.
  rewrite (printSlice_inline h (Format env h (S n)) (uint_element p) p t
             (reflect.kind_of_uint k) ptr (List.length xs) (uint_elems te k xs)
             (uint_group k)); try assumption; try lia.
  - rewrite String_writing. simpl visited.
    unfold uint_elems. rewrite !map_map. reflexivity.
  - apply groupSizeOf_uint. lia.
  - apply (elements_uints h ptr te k xs Hne Harr).
  - intros e s He.
    apply list_elem_of_fmap in He as (y & -> & Hy).
    apply list_elem_of_fmap in Hy as (x & -> & _).
    change (reflect.derived false (reflect.VUint te k x))
      with (reflect.ValueOf (reflect.VUint te k x)).
    rewrite (Format_uint env h n _ te k x (Hel x)). reflexivity.
Qed.

Lemma short_slices_witness :
  Format plain_env
    (reflect.MkStore ∅ {[ 400 := uint_elems Ex.t_uint8 reflect.KUint8 [1; 2; 255] ]} ∅) 2
    (reflect.ValueOf (reflect.VSlice Ex.t_bytes reflect.Uint8 400 3))
    (Ex.printer false false false)
  = Ok ("{0x01, 0x02, 0xff}",
        set_visited (Ex.printer false false false) (<[400 := true]> ∅)).
Proof.
  apply (short_slices plain_env
           (reflect.MkStore ∅ {[ 400 := uint_elems Ex.t_uint8 reflect.KUint8 [1; 2; 255] ]} ∅)
           0 (Ex.printer false false false) Ex.t_bytes Ex.t_uint8 reflect.KUint8 400
           [1; 2; 255]);
    [reflexivity | lia | reflexivity | reflexivity | intros x; reflexivity
    | simpl; lia | simpl; lia].
Defined.

(* ===================================================================== *)
(** * Boot indexes *)
(* ===================================================================== *)

Lemma digit_value_upper d :
  0 <= d < 16 ->
  digit_value (Text.upper_digit d) = Some d
  /\ upper_hex_digit (Text.upper_digit d) = true.
Proof.
  intros H. apply digit_cases in H.
  repeat (destruct H as [->|H]; [split; reflexivity|]). subst. split; reflexivity.
Qed.

Lemma upper_hex_app a b : upper_hex (a ++ b) = upper_hex a && upper_hex b.
Proof.
  induction a as [|c a IH]; [reflexivity|].
  rewrite sapp_cons. simpl. rewrite IH. apply andb_assoc.
Qed.

Lemma upper_digits_loop_spec fuel : forall n acc,
  0 <= n < 2 ^ Z.of_nat fuel ->
  exists ds,
    Text.digits_loop fuel Text.upper_digit 16 n acc = ds ++ acc
    /\ upper_hex ds = true
    /\ (forall a, parse_from 16 a ds = a * 16 ^ Z.of_nat (String.length ds) + n)
    /\ (forall k, (1 <= k)%nat -> n < 16 ^ Z.of_nat k ->
                  (String.length ds <= k)%nat).
Proof.
  induction fuel as [|f IH]; intros n acc Hn.
  - simpl in Hn. assert (n = 0) by lia. subst. exists "". simpl.
    split; [reflexivity|]. split; [reflexivity|]. split; [intros; lia|intros; lia].
  - simpl Text.digits_loop.
    assert (Hmod : 0 <= n mod 16 < 16) by (apply Z.mod_pos_bound; lia).
    assert (Hdm : n = 16 * (n / 16) + n mod 16) by (apply Z.div_mod; lia).
    assert (Hdiv : 0 <= n / 16) by (apply Z.div_pos; lia).
    destruct (digit_value_upper _ Hmod) as [Hv Hu].
    destruct (Z.eqb_spec (n / 16) 0) as [E|E].
    + exists (Text.str (Text.upper_digit (n mod 16))).
      split; [reflexivity|]. split; [simpl; rewrite Hu; reflexivity|]. split.
      * intros a. simpl. rewrite Hv. simpl. rewrite E in Hdm. lia.
      * intros k Hk _. simpl. lia.
    + assert (Hf : 0 <= n / 16 < 2 ^ Z.of_nat f).
      { split; [exact Hdiv|].
        rewrite Nat2Z.inj_succ, Z.pow_succ_r in Hn by lia.
        apply Z.div_lt_upper_bound; [lia|].
        assert (0 < 2 ^ Z.of_nat f) by (apply Z.pow_pos_nonneg; lia). nia. }
      destruct (IH (n / 16) (String (Text.upper_digit (n mod 16)) acc) Hf)
        as (ds & E1 & E0 & E2 & E3).
      exists (ds ++ Text.str (Text.upper_digit (n mod 16))).
      split; [rewrite E1, sapp_assoc; reflexivity|]. split.
      { rewrite upper_hex_app, E0. simpl. rewrite Hu. reflexivity. }
      split.
      * intros a. rewrite parse_from_app, E2. simpl.
        rewrite Hv. rewrite slength_app. simpl.
        rewrite Nat2Z.inj_add. simpl Z.of_nat.
        rewrite Z.pow_add_r by lia. lia.
      * intros k Hk Hlt. rewrite slength_app. simpl.
        destruct k as [|k]; [lia|]. destruct k as [|k].
        { simpl in Hlt. exfalso. apply E. apply Z.div_small. lia. }
        assert (String.length ds <= S k)%nat; [|lia].
        apply E3; [lia|].
        rewrite (Nat2Z.inj_succ (S k)), Z.pow_succ_r in Hlt by lia.
        apply Z.div_lt_upper_bound; lia.
Qed.

Lemma upper_hex_zeros n : upper_hex (Text.Repeat "0" n) = true.
Proof.
  induction n as [|n IH]; [reflexivity|]. simpl Text.Repeat.
  rewrite upper_hex_app, IH. reflexivity.
Qed.

(** [%0wX] of a number below [16^w] has exactly [w] digits, which are
    digits and capital letters, and they denote the number. *)
Lemma fmt_0X_spec w n :
  (1 <= w)%nat -> 0 <= n < 16 ^ Z.of_nat w ->
  String.length (Text.fmt_0X w n) = w
  /\ upper_hex (Text.fmt_0X w n) = true
  /\ parse 16 (Text.fmt_0X w n) = n.
Proof.
  intros Hw Hn. unfold Text.fmt_0X, Text.pad_left, Text.digits.
  assert (Hf : 0 <= n < 2 ^ Z.of_nat (S (Z.to_nat (Z.log2 n)))).
  { split; [lia|]. rewrite Nat2Z.inj_succ, Z2Nat.id by apply Z.log2_nonneg.
    destruct (Z.eq_dec n 0) as [->|Hne]; [reflexivity|].
    apply Z.log2_spec. lia. }
  destruct (upper_digits_loop_spec _ n "" Hf) as (ds & E1 & E0 & E2 & E3).
  rewrite E1, sapp_nil_r.
  specialize (E3 w Hw (proj2 Hn)). split; [|split].
  - rewrite slength_app, Repeat_length. simpl. lia.
  - rewrite upper_hex_app, upper_hex_zeros, E0. reflexivity.
  - unfold parse. rewrite parse_from_zeros, E2. lia.
Qed.

Lemma index_text_plain p i : Text.plain (index_text p i) = true.
Proof. apply Colorize_plain, fmt_0X_plain. Qed.

Lemma Format_BootIndex env h n p i :
  PrettyPrint env = PrettyPrint efibootctl_env ->
  Format env h (S n) (reflect.ValueOf (BootIndex i)) p = Ok (index_text p i, p).
Proof.
  intros Henv.
  rewrite <- (typeset_plain (index_text p i)) by apply index_text_plain.
  apply Format_prints.
  unfold dispatch. munfold.
  change (reflect.Interface_ (value (subPrinter p (reflect.ValueOf (BootIndex i)))))
    with (@Ok _ (BootIndex i)).
  cbv iota beta.
  assert (HP : prettyPrinter env (BootIndex i) = Some (BootIndex_PrettyPrint i)).
  { unfold prettyPrinter, BootIndex. rewrite Henv. simpl.
    reflexivity. }
  rewrite HP. unfold BootIndex_PrettyPrint. simpl forM_. unfold runOp, ColorPrint.
  munfold. unfold index_text.
  rewrite (Colorize_ext (subPrinter p (reflect.ValueOf (BootIndex i))) p eq_refl).
  destruct (Print _ _) as [[[] q]| |]; reflexivity.
Qed.

(** X8.  A boot index is rendered by its own method, whatever the options of the
    printer are: four hexadecimal digits with capital letters and without a
    prefix, which denote the index. *)
Theorem BootIndex_rendered env h n p i :
  PrettyPrint env = PrettyPrint efibootctl_env ->
  0 <= i < 65536 ->
  Format env h (S n) (reflect.ValueOf (BootIndex i)) p
  = Ok (Colorize p (Text.fmt_0X 4 i) IntegerColor, p)
  /\ String.length (Text.fmt_0X 4 i) = 4%nat
  /\ upper_hex (Text.fmt_0X 4 i) = true
  /\ parse 16 (Text.fmt_0X 4 i) = i.
Proof.
  intros Henv Hi. split; [apply (Format_BootIndex env h n p i Henv)|].
  apply fmt_0X_spec; [lia|]. simpl. lia.
Qed.

Lemma BootIndex_rendered_witness :
  Format efibootctl_env Ex.empty 1 (reflect.ValueOf (BootIndex 43981))
    (Ex.printer true true true)
  = Ok ("ABCD", Ex.printer true true true).
Proof.
  exact (proj1 (BootIndex_rendered efibootctl_env Ex.empty 0 (Ex.printer true true true)
                  43981 eq_refl ltac:(lia))).
Defined.

(* ===================================================================== *)
(** * Lines of a field and of a key *)
(* ===================================================================== *)

Lemma PrintFieldValue_writing env h fuel k v s q vs q' :
  0 <= depth q -> Format env h fuel v q = Ok (vs, q') ->
  PrintFieldValue env h fuel k v (writing s q)
  = Ok (tt, writing (s ++ field_text q k vs) q').
Proof.
  intros Hd HF.
  destruct (Format_frame env h fuel _ _ _ _ HF) as [Ep _].
  assert (Ed : depth q' = depth q) by (rewrite Ep; reflexivity).
  unfold PrintFieldValue. unfold bind at 1. unfold gets at 1.
  unfold bind at 1. rewrite Format_writing, HF.
  unfold IndentPrint, bind.
  rewrite Indent_writing by (rewrite Ed; exact Hd).
  rewrite Print_writing. unfold field_text. rewrite Ed.
  change (Colorize (writing s q) k FieldNameColor) with (Colorize q k FieldNameColor).
  rewrite ?sapp_assoc. reflexivity.
Qed.

Lemma PrintKeyValue_writing env h fuel k v s q ks vs q1 q2 :
  0 <= depth q ->
  Format env h fuel k q = Ok (ks, q1) -> Format env h fuel v q1 = Ok (vs, q2) ->
  PrintKeyValue env h fuel k v (writing s q)
  = Ok (tt, writing (s ++ key_text q ks vs) q2).
Proof.
  intros Hd HK HV.
  destruct (Format_frame env h fuel _ _ _ _ HK) as [Ep1 _].
  destruct (Format_frame env h fuel _ _ _ _ HV) as [Ep2 _].
  assert (Ed : depth q2 = depth q).
  { rewrite Ep2. simpl. rewrite Ep1. reflexivity. }
  unfold PrintKeyValue. unfold bind at 1. rewrite Format_writing, HK.
  unfold bind at 1. rewrite Format_writing, HV.
  unfold IndentPrint, bind.
  rewrite Indent_writing by (rewrite Ed; exact Hd).
  rewrite Print_writing. unfold key_text. rewrite Ed.
  rewrite ?sapp_assoc. reflexivity.
Qed.

(** X9.  [PrintFieldValue] adds one line to the text of the printer: the
    indentation, the key in the color of field names, a colon, a tab, the
    text of the value and a line break.  [PrintKeyValue] adds the text of
    the key in place of the key and a comma after the value; the key is
    rendered first, and the value on the printer that the key leaves.
    [String] then returns the whole text with its columns aligned. *)
Theorem key_value_lines env h fuel s q :
  0 <= depth q ->
  (forall k v vs q',
     Format env h fuel v q = Ok (vs, q') ->
     PrintFieldValue env h fuel k v (writing s q)
     = Ok (tt, writing (s ++ field_text q k vs) q')
     /\ fst (Printer_String (writing (s ++ field_text q k vs) q'))
        = typeset (s ++ field_text q k vs))
  /\ (forall k v ks vs q1 q2,
        Format env h fuel k q = Ok (ks, q1) ->
        Format env h fuel v q1 = Ok (vs, q2) ->
        PrintKeyValue env h fuel k v (writing s q)
        = Ok (tt, writing (s ++ key_text q ks vs) q2)
        /\ fst (Printer_String (writing (s ++ key_text q ks vs) q2))
           = typeset (s ++ key_text q ks vs)).
Proof.
  intros Hd. split.
  - intros k v vs q' HF. split; [|apply String_writing].
    apply PrintFieldValue_writing; assumption.
  - intros k v ks vs q1 q2 HK HV. split; [|apply String_writing].
    apply (PrintKeyValue_writing env h fuel k v s q ks vs q1 q2); assumption.
Qed.

(** The line of the current boot entry, without colors. *)
Lemma key_value_lines_witness :
  text_of ((let* _ := PrintFieldValue efibootctl_env Ex.empty 1 "BootCurrent"
                        (reflect.ValueOf (BootIndex 1)) in
            cli.String_) (Ex.printer true true true))
  = Ok ("BootCurrent: 0001" ++ Text.str Text.LF).
Proof.
  assert (H0 : 0 <= depth (Ex.printer true true true)) by (simpl; lia).
  assert (HF : Format efibootctl_env Ex.empty 1 (reflect.ValueOf (BootIndex 1))
                 (Ex.printer true true true)
               = Ok ("0001", Ex.printer true true true))
    by (vm_compute; reflexivity).
  pose proof (proj1 (key_value_lines efibootctl_env Ex.empty 1 ""
                       (Ex.printer true true true) H0)
                "BootCurrent" (reflect.ValueOf (BootIndex 1)) "0001"
                (Ex.printer true true true) HF) as [W1 W2].
  unfold bind.
  change (Ex.printer true true true) with (writing "" (Ex.printer true true true)) at 1.
  rewrite W1. unfold cli.String_, text_of.
  rewrite (surjective_pairing (Printer_String _)), W2.
  vm_compute. reflexivity.
Defined.

(* ===================================================================== *)
(** * The boot order *)
(* ===================================================================== *)

Lemma BootOrder_pretty env t elem addr len :
  PrettyPrint env = PrettyPrint efibootctl_env ->
  prettyPrinter env (reflect.VSlice t elem addr len) = None.
Proof. intros H. unfold prettyPrinter. rewrite H. reflexivity. Qed.

Lemma index_texts_plain p order :
  Forall (fun e => Text.plain e = true) (List.map (index_text p) order).
Proof.
  apply Forall_forall. intros e He. apply list_elem_of_fmap in He as (x & -> & _).
  apply index_text_plain.
Qed.

Lemma Format_BootOrder env h n p addr order :
  PrettyPrint env = PrettyPrint efibootctl_env ->
  reflect.arrays h !! addr = Some (List.map BootIndex order) ->
  seen (visited p) addr = false -> depth p = 0 ->
  Format env h (S (S n))
    (reflect.ValueOf
       (reflect.VSlice cli.BootOrder_type reflect.Uint16 addr (List.length order))) p
  = Ok (order_text p addr order,
        set_visited p (if (addr =? 0) || Nat.eqb (List.length order) 0
                       then visited p
                       else <[addr := true]> (visited p))).
Proof.
  intros Henv Harr Hseen Hdepth.
  pose proof (BootOrder_pretty env cli.BootOrder_type reflect.Uint16 addr
                (List.length order) Henv) as Hpp.
  set (v := reflect.ValueOf
              (reflect.VSlice cli.BootOrder_type reflect.Uint16 addr (List.length order))).
  unfold order_text.
  destruct (Z.eqb_spec addr 0) as [E0|E0].
  { cbn [orb]. rewrite set_visited_same. apply Format_prints.
    rewrite (dispatch_kind env h _ _
               (reflect.VSlice cli.BootOrder_type reflect.Uint16 addr (List.length order)));
      [|reflexivity|exact Hpp].
    subst addr. reflexivity. }
  cbn [orb].
  destruct (Nat.eqb (List.length order) 0) eqn:El.
  { rewrite set_visited_same. apply Format_prints.
    rewrite (dispatch_kind env h _ _
               (reflect.VSlice cli.BootOrder_type reflect.Uint16 addr (List.length order)));
      [|reflexivity|exact Hpp].
    apply Nat.eqb_eq in El. subst v. rewrite El.
    simpl. unfold printSlice. munfold. cbn.
    rewrite (proj2 (Z.eqb_neq addr 0) E0). reflexivity. }
  assert (Hne : order <> []).
  { intros ->. discriminate El. }
  assert (Hpos : (0 < List.length order)%nat).
  { apply Nat.eqb_neq in El. lia. }
  destruct (1024 <? Z.of_nat (List.length order)) eqn:Ebig.
  { apply Z.ltb_lt in Ebig.
    change (Format env h (S (S n)) v p)
      with (Format_body env h (Format env h (S n)) v p).
    rewrite Format_body_unfold.
    rewrite (dispatch_kind env h _ _
               (reflect.VSlice cli.BootOrder_type reflect.Uint16 addr (List.length order)));
      [|reflexivity|exact Hpp].
    change (reflect.Kind_ (value (subPrinter p v))) with reflect.Slice. cbv iota.
    rewrite (printSlice_elided h _ (subPrinter p v)
               (reflect.VSlice cli.BootOrder_type reflect.Uint16 addr (List.length order))
               cli.BootOrder_type (List.length order) eq_refl eq_refl);
      [| simpl; rewrite (proj2 (Z.eqb_neq addr 0) E0); reflexivity | exact Ebig].
    destruct (Print_typeset
                (colorizeType (subPrinter p v) (reflect.tString cli.BootOrder_type) ++ "{...}")
                (set_visited (subPrinter p v)
                   (marked (reflect.VSlice cli.BootOrder_type reflect.Uint16 addr
                              (List.length order))
                      (visited (subPrinter p v))))
                eq_refl eq_refl) as (pp' & E1 & E2 & E3).
    rewrite E1, E2, E3.
    rewrite (colorizeType_ext _ p) by reflexivity. reflexivity. }
  apply Z.ltb_ge in Ebig.
  assert (Hel : reflect.elements h addr (List.length order)
                = Ok (List.map BootIndex order)).
  { apply (elements_uints h addr BootIndex_type reflect.KUint16 order Hne Harr). }
  assert (Hrec : forall q, colorScheme q = colorScheme p ->
            forall e s, e ∈ List.map (reflect.derived false) (List.map BootIndex order) ->
                        Format env h (S n) e (writing s q)
                        = Ok (index_element p e, writing s q)).
  { intros q Hq e s He.
    apply list_elem_of_fmap in He as (y & -> & Hy).
    apply list_elem_of_fmap in Hy as (x & -> & _).
    change (reflect.derived false (BootIndex x)) with (reflect.ValueOf (BootIndex x)).
    rewrite (Format_BootIndex env h n _ x Henv).
    unfold index_element, index_text. simpl.
    rewrite (Colorize_ext (writing s q) p) by exact Hq. reflexivity. }
  assert (Htexts : List.map (index_element p)
                     (List.map (reflect.derived false) (List.map BootIndex order))
                   = List.map (index_text p) order).
  { rewrite !map_map. reflexivity. }
  change (Format env h (S (S n)) v p)
    with (Format_body env h (Format env h (S n)) v p).
  rewrite Format_body_unfold.
  rewrite (dispatch_kind env h _ _
             (reflect.VSlice cli.BootOrder_type reflect.Uint16 addr (List.length order)));
    [|reflexivity|exact Hpp].
  change (reflect.Kind_ (value (subPrinter p v))) with reflect.Slice. cbv iota.
  subst v.
  destruct (Z.of_nat (List.length order) <? 8) eqn:E8.
  - apply Z.ltb_lt in E8.
    rewrite (printSlice_inline h (Format env h (S n)) (index_element p) p
               cli.BootOrder_type reflect.Uint16 addr (List.length order)
               (List.map BootIndex order) 8); try assumption; try lia.
    + rewrite String_writing. simpl visited. rewrite Htexts.
      rewrite typeset_plain; [reflexivity|].
      rewrite !plain_app, concat_plain; [reflexivity|reflexivity|].
      apply index_texts_plain.
    + reflexivity.
    + apply Hrec. reflexivity.
  - apply Z.ltb_ge in E8.
    rewrite (printSlice_grouped h (Format env h (S n)) (index_element p) p
               cli.BootOrder_type reflect.Uint16 addr (List.length order)
               (List.map BootIndex order) 8); try assumption; try lia.
    + rewrite String_writing. simpl visited. rewrite Htexts. reflexivity.
    + reflexivity.
    + apply Hrec. reflexivity.
Qed.

(** X10.  The boot order, a slice of boot indexes at depth zero that was not
    visited, is rendered as [nil] behind its type when it is nil, as its
    type and [{}] when it is empty, as its type and [{...}] when it has
    more than 1024 indexes, on one line between braces when it has fewer
    than eight, and in rows of eight otherwise; each index is rendered by
    its own method.  It is marked as visited unless it is nil or empty. *)
Theorem BootOrder_rendered env h n p addr order :
  PrettyPrint env = PrettyPrint efibootctl_env ->
  reflect.arrays h !! addr = Some (List.map BootIndex order) ->
  seen (visited p) addr = false -> depth p = 0 ->
  Format env h (S (S n))
    (reflect.ValueOf
       (reflect.VSlice cli.BootOrder_type reflect.Uint16 addr (List.length order))) p
  = Ok (order_text p addr order,
        set_visited p (if (addr =? 0) || Nat.eqb (List.length order) 0
                       then visited p
                       else <[addr := true]> (visited p)))
  /\ ((0 < List.length order < 8)%nat -> addr <> 0 ->
      order_text p addr order
      = "{" ++ String.concat ", "
                 (List.map (fun i => Colorize p (Text.fmt_0X 4 i) IntegerColor) order)
        ++ "}").
Proof.
  intros Henv Harr Hseen Hdepth. split.
  - apply Format_BootOrder; assumption.
  - intros Hlen Haddr. unfold order_text.
    rewrite (proj2 (Z.eqb_neq addr 0) Haddr).
    rewrite (proj2 (Nat.eqb_neq _ 0)) by lia.
    rewrite (proj2 (Z.ltb_ge _ _)) by lia.
    rewrite (proj2 (Z.ltb_lt _ _)) by lia. reflexivity.
Qed.

(** The order of the example in the manual. *)
Lemma BootOrder_rendered_witness :
  Format efibootctl_env (reflect.MkStore ∅ {[ 400 := [BootIndex 1; BootIndex 0] ]} ∅) 2
    (reflect.ValueOf (reflect.VSlice cli.BootOrder_type reflect.Uint16 400 2))
    (Ex.printer true true true)
  = Ok ("{0001, 0000}", set_visited (Ex.printer true true true) (<[400 := true]> ∅)).
Proof.
  assert (H1 : reflect.arrays (reflect.MkStore ∅ {[ 400 := [BootIndex 1; BootIndex 0] ]} ∅)
               !! 400 = Some (List.map BootIndex [1; 0])) by reflexivity.
  assert (H2 : seen (visited (Ex.printer true true true)) 400 = false) by reflexivity.
  pose proof (proj1 (BootOrder_rendered efibootctl_env _ 0 (Ex.printer true true true)
                       400 [1; 0] eq_refl H1 H2 eq_refl)) as W.
  etransitivity; [exact W|]. vm_compute. reflexivity.
Defined.

(* ===================================================================== *)
(** * The command *)
(* ===================================================================== *)

Lemma Format_string_text env h n q d :
  PrettyPrint env = PrettyPrint efibootctl_env ->
  colorScheme q = colorScheme command_printer ->
  Format env h (S n) (reflect.ValueOf (reflect.VString cli.string_type d)) q
  = Ok (string_text env command_printer d, q).
Proof.
  intros Henv Hq.
  assert (Hpp : prettyPrinter env (reflect.VString cli.string_type d) = None).
  { unfold prettyPrinter. rewrite Henv. reflexivity. }
  destruct (Format_quoted env cli.string_type d command_printer Hpp)
    as (text & F & _ & _).
  unfold string_text.
  rewrite (F (reflect.MkStore ∅ ∅ ∅) 0%nat command_printer eq_refl).
  apply F. exact Hq.
Qed.

Section Command.
Context {error : Type}.
Variable isNotFound : error -> bool.
Variable Error : error -> string.
Variable ActiveAttribute : Z.
Variable env : Env.
Hypothesis Henv : PrettyPrint env = PrettyPrint efibootctl_env.
Variable n : nat.
Variable fw : @cli.Firmware error.

Lemma field_index k i s vis :
  PrintFieldValue env (cli.heap fw) (S (S n)) k (reflect.ValueOf (BootIndex i))
    (writing s (set_visited command_printer vis))
  = Ok (tt, writing (s ++ field_text command_printer k (index_text command_printer i))
              (set_visited command_printer vis)).
Proof.
  rewrite (PrintFieldValue_writing env (cli.heap fw) (S (S n)) k _ s
             (set_visited command_printer vis)
             (index_text command_printer i) (set_visited command_printer vis)).
  - reflexivity.
  - simpl. lia.
  - exact (Format_BootIndex env (cli.heap fw) (S n)
             (set_visited command_printer vis) i Henv).
Qed.

Lemma field_string k d s vis :
  PrintFieldValue env (cli.heap fw) (S (S n)) k
    (reflect.ValueOf (reflect.VString cli.string_type d))
    (writing s (set_visited command_printer vis))
  = Ok (tt, writing (s ++ field_text command_printer k
                            (string_text env command_printer d))
              (set_visited command_printer vis)).
Proof.
  rewrite (PrintFieldValue_writing env (cli.heap fw) (S (S n)) k _ s
             (set_visited command_printer vis)
             (string_text env command_printer d) (set_visited command_printer vis)).
  - reflexivity.
  - simpl. lia.
  - apply Format_string_text; [exact Henv|reflexivity].
Qed.

Lemma Apply_writing vis it : forall s,
  cli.Apply Error ActiveAttribute env (S (S n)) fw it
    (writing s (set_visited command_printer vis))
  = Ok (Text.concat (List.map (entry_complaint Error) it),
        writing (s ++ Text.concat (List.map (entry_line ActiveAttribute env) it))
          (set_visited command_printer vis)).
Proof.
  induction it as [|be it IH]; intros s.
  - simpl. unfold ret. now rewrite sapp_nil_r.
  - simpl cli.Apply. unfold bind at 1.
    assert (E : cli.each Error ActiveAttribute env (S (S n)) fw be
                  (writing s (set_visited command_printer vis))
                = Ok (entry_complaint Error be,
                      writing (s ++ entry_line ActiveAttribute env be)
                        (set_visited command_printer vis))).
    { unfold cli.each, entry_complaint, entry_line.
      destruct (cli.Variable_Get be) as [e|lo].
      - unfold ret. now rewrite sapp_nil_r.
      - unfold bind. rewrite field_string. unfold ret.
        destruct (Z.land (cli.Attributes lo) ActiveAttribute =? 0); reflexivity. }
    rewrite E. unfold bind. rewrite IH. unfold ret. simpl.
    rewrite sapp_assoc. reflexivity.
Qed.

Lemma entries_writing vis it s :
  exists p',
    cli.entries Error ActiveAttribute env (S (S n)) fw it
      (writing s (set_visited command_printer vis))
    = Ok (cli.AppendInvoke (cli.Close_iterator fw)
            (cli.MkOutcome
               (typeset (s ++ Text.concat (List.map (entry_line ActiveAttribute env) it)))
               (Text.concat (List.map (entry_complaint Error) it)) []), p').
Proof.
  unfold cli.entries. unfold bind at 1. rewrite Apply_writing.
  unfold bind, cli.String_, ret.
  rewrite (surjective_pairing (Printer_String _)), String_writing.
  eexists. reflexivity.
Qed.

Lemma heap_order order :
  cli.BootOrder_Get fw = inr order ->
  reflect.arrays (cli.heap fw) !! cli.To_address fw = Some (List.map BootIndex order).
Proof.
  intros H. unfold cli.heap. rewrite H. simpl.
  rewrite lookup_singleton, decide_True by reflexivity. reflexivity.
Qed.

Lemma after_BootNext_writing s cur order it :
  cli.BootCurrent_Get fw = inr cur -> cli.BootOrder_Get fw = inr order ->
  cli.BootIterator fw = inr it ->
  exists p',
    cli.after_BootNext Error ActiveAttribute env (S (S n)) fw
      (writing s command_printer)
    = Ok (cli.AppendInvoke (cli.Close_iterator fw)
            (cli.MkOutcome
               (typeset (s ++ field_text command_printer "BootCurrent"
                                (index_text command_printer cur)
                         ++ field_text command_printer "BootOrder"
                              (order_text command_printer (cli.To_address fw) order)
                         ++ Text.concat (List.map (entry_line ActiveAttribute env) it)))
               (Text.concat (List.map (entry_complaint Error) it)) []), p').
Proof.
  intros Hc Ho Hi. unfold cli.after_BootNext. rewrite Hc, Ho, Hi.
  unfold bind at 1.
  change command_printer with (set_visited command_printer ∅) at 1.
  rewrite field_index. unfold bind at 1.
  rewrite (PrintFieldValue_writing env (cli.heap fw) (S (S n)) "BootOrder" _ _
             (set_visited command_printer ∅)
             (order_text command_printer (cli.To_address fw) order)
             (set_visited command_printer
                (if (cli.To_address fw =? 0) || Nat.eqb (List.length order) 0
                 then ∅ else <[cli.To_address fw := true]> ∅)));
    [| simpl; lia
     | apply (Format_BootOrder env (cli.heap fw) n (set_visited command_printer ∅)
                (cli.To_address fw) order Henv (heap_order order Ho));
       reflexivity ].
  destruct (entries_writing
              (if (cli.To_address fw =? 0) || Nat.eqb (List.length order) 0
               then ∅ else <[cli.To_address fw := true]> ∅) it
              ((s ++ field_text command_printer "BootCurrent"
                       (index_text command_printer cur))
               ++ field_text (set_visited command_printer ∅) "BootOrder"
                    (order_text command_printer (cli.To_address fw) order)))
    as (p' & E).
  exists p'. rewrite E. rewrite !sapp_assoc. reflexivity.
Qed.

Lemma after_BootNext_failed s e :
  later_failure fw = Some e ->
  exists p',
    cli.after_BootNext Error ActiveAttribute env (S (S n)) fw
      (writing s command_printer)
    = Ok (cli.MkOutcome "" "" [e], p').
Proof.
  intros H. unfold later_failure in H. unfold cli.after_BootNext.
  destruct (cli.BootCurrent_Get fw) as [e1|cur] eqn:Hc.
  { injection H as <-. eexists. reflexivity. }
  unfold bind at 1.
  change command_printer with (set_visited command_printer ∅) at 1.
  rewrite field_index.
  destruct (cli.BootOrder_Get fw) as [e2|order] eqn:Ho.
  { injection H as <-. eexists. reflexivity. }
  unfold bind at 1.
  rewrite (PrintFieldValue_writing env (cli.heap fw) (S (S n)) "BootOrder" _ _
             (set_visited command_printer ∅)
             (order_text command_printer (cli.To_address fw) order)
             (set_visited command_printer
                (if (cli.To_address fw =? 0) || Nat.eqb (List.length order) 0
                 then ∅ else <[cli.To_address fw := true]> ∅)));
    [| simpl; lia
     | apply (Format_BootOrder env (cli.heap fw) n (set_visited command_printer ∅)
                (cli.To_address fw) order Henv (heap_order order Ho));
       reflexivity ].
  destruct (cli.BootIterator fw) as [e3|it] eqn:Hi.
  { injection H as <-. eexists. reflexivity. }
  discriminate H.
Qed.
End Command.

(* ===================================================================== *)
(** * Maps *)
(* ===================================================================== *)

(** X11.  [Less] is a strict order on the keys it orders: no key is less than
    itself, it is transitive from an integer, string, boolean, pointer or
    float that is no NaN on, never holds both ways, and of two such keys of
    one type that are not equal one is less than the other. *)
Theorem Less_strict_order :
  (forall a, Less a a = false)
  /\ (forall a b c,
        orderable (reflect.it a) = true ->
        Less a b = true -> Less b c = true -> Less a c = true)
  /\ (forall a b,
        orderable (reflect.it a) = true -> Less a b = true -> Less b a = false)
  /\ (forall a b,
        orderable (reflect.it a) = true -> orderable (reflect.it b) = true ->
        reflect.typeOf (reflect.it a) = reflect.typeOf (reflect.it b) ->
        reflect.go_eq (reflect.it a) (reflect.it b) = false ->
        Less a b = true \/ Less b a = true).
Proof.
  split; [exact Less_irrefl|]. split; [exact Less_trans|]. split; [|exact Less_total].
  intros a b Ha Hab. destruct (Less b a) eqn:Hba; [|reflexivity].
  pose proof (Less_trans a b a Ha Hab Hba) as H.
  rewrite Less_irrefl in H. discriminate H.
Qed.

(** X12.  [sortMap] returns the entries of a map with keys that [Less] orders in
    ascending order of their keys: each entry's key is less than the key of
    every later entry, and the entries are those of the map. *)
Theorem sortMap_sorted h v t a es T :
  reflect.it v = reflect.VMap t a ->
  reflect.entries h a = Ok es ->
  keys_of T (List.map fst es) ->
  exists kvs,
    sortMap h v = Ok kvs
    /\ kvs ≡ₚ List.map (collected (reflect.flagRO v)) es
    /\ StronglySorted (fun x y => Less (fst x) (fst y) = true) kvs.
Proof.
  intros Hv He HK.
  exists (sort.Stable sortedMap_Less (List.map (collected (reflect.flagRO v)) es)).
  split; [apply (sortMap_entries h v t a es T Hv He HK)|].
  split; [apply Stable_perm|].
  destruct (collected_strict_total (reflect.flagRO v) T es HK) as [ST ND].
  apply (Stable_sorted sortedMap_Less _ ST ND).
Qed.

Lemma sortMap_sorted_witness :
  exists kvs,
    sortMap (Ex.store_of Ex.counts_21) (reflect.ValueOf Ex.counts) = Ok kvs
    /\ kvs ≡ₚ List.map (collected false) Ex.counts_21
    /\ StronglySorted (fun x y => Less (fst x) (fst y) = true) kvs.
Proof.
  apply (sortMap_sorted (Ex.store_of Ex.counts_21) (reflect.ValueOf Ex.counts)
           Ex.t_counts 100 Ex.counts_21 (reflect.typeOf (Ex.int 1)));
    [reflexivity | reflexivity |].
  split; [|reflexivity].
  repeat constructor.
Defined.

Section Entries.
Variable rec : reflect.Value -> M string.
Hypothesis Hwriting : forall v s q,
  rec v (writing s q)
  = match rec v q with
    | Ok (t, q') => Ok (t, writing s q')
    | Panic msg => Panic msg
    | OutOfFuel => OutOfFuel
    end.
Hypothesis Hframe : forall v q t q',
  rec v q = Ok (t, q') -> q' = set_visited q (visited q').

Lemma entries_loop (kvs : list (reflect.Value * reflect.Value)) :
  forall q s ss q',
    depth q = 1 ->
    formats rec (in_turn kvs) q = Ok (ss, q') ->
    forM_ kvs (fun kv =>
      let* k := rec (fst kv) in
      let* v := rec (snd kv) in
      IndentPrint (k ++ ":" ++ Text.str Text.TAB ++ v ++ ","
                   ++ Text.str Text.LF)) (writing s q)
    = Ok (tt, writing (s ++ entry_lines ss) q').
Proof.
  induction kvs as [|kv r IH]; intros q s ss q' Hd HF.
  - simpl in HF. injection HF as <- <-. simpl. now rewrite sapp_nil_r.
  - change (in_turn (kv :: r)) with (fst kv :: snd kv :: in_turn r) in HF.
    simpl in HF. unfold bind in HF at 1.
    destruct (rec (fst kv) q) as [[tk q1]| |] eqn:E1; try discriminate.
    unfold bind in HF at 1. unfold bind in HF at 1.
    destruct (rec (snd kv) q1) as [[tv q2]| |] eqn:E2; try discriminate.
    unfold bind in HF at 1.
    destruct (formats rec (in_turn r) q2) as [[ss' q3]| |] eqn:E3;
      try discriminate.
    unfold ret in HF. injection HF as <- <-.
    pose proof (Hframe _ _ _ _ E1) as Hq1.
    pose proof (Hframe _ _ _ _ E2) as Hq2.
    assert (Hd1 : depth q1 = 1) by (rewrite Hq1; exact Hd).
    assert (Hd2 : depth q2 = 1) by (rewrite Hq2; exact Hd1).
    simpl forM_. unfold bind at 1. unfold bind at 1.
    rewrite Hwriting, E1. unfold bind at 1. rewrite Hwriting, E2.
    unfold IndentPrint, bind. rewrite Indent_writing by lia. rewrite Hd2.
    rewrite Print_writing.
    rewrite (IH q2 _ ss' q3 Hd2 E3).
    simpl entry_lines.
    change (Text.Repeat (Text.str Text.TAB) (Z.to_nat 1)) with (Text.str Text.TAB).
    rewrite !sapp_assoc. reflexivity.
Qed.

Variable h : reflect.Store.

Lemma printMap_entries p t a es kvs ss q' :
  let v := reflect.ValueOf (reflect.VMap t a) in
  let q := set_visited (subPrinter p v) (<[a := true]> (visited p)) in
  reflect.entries h a = Ok es -> es <> [] ->
  seen (visited p) a = false -> depth p = 0 ->
  sortMap h v = Ok kvs ->
  formats rec (in_turn kvs) (set_depth q 1) = Ok (ss, q') ->
  printMap h rec (subPrinter p v)
  = Ok (tt, writing (map_text p t ss) (set_depth q' 0)).
Proof.
  intros v q He Hne Hseen Hd HS HF.
  unfold printMap. munfold.
  change (reflect.Len h (value (subPrinter p v)))
    with (res_bind (reflect.entries h a) (fun es => Ok (List.length es))).
  rewrite He. cbn [res_bind]. cbv iota beta.
  destruct es as [|e0 es0]; [congruence|].
  change (Nat.eqb (List.length (e0 :: es0)) 0) with false. cbv iota.
  change (reflect.Pointer (value (subPrinter p v))) with (@Ok Z a).
  cbv iota beta.
  change (visited (subPrinter p v)) with (visited p). rewrite Hseen.
  unfold mark, modify. cbv iota beta.
  unfold typeString. munfold.
  change (reflect.Type_String
            (value (set_visited (subPrinter p v)
                      (<[a:=true]> (visited (subPrinter p v))))))
    with (@Ok string (reflect.tString t)).
  cbv iota beta.
  change (set_visited (subPrinter p v) (<[a:=true]> (visited (subPrinter p v))))
    with (writing "" q).
  rewrite Print_writing, sapp_nil_l.
  unfold indented, modify, bind.
  change (value (subPrinter p v)) with v. rewrite HS. cbv iota beta.
  match goal with
  | |- context [forM_ ?l ?f (set_depth (writing ?s q) ?d)] =>
      change (forM_ l f (set_depth (writing s q) d))
        with (forM_ l f (writing s (set_depth q (wrap_int (depth p + 1)))))
  end.
  rewrite Hd. change (wrap_int (0 + 1)) with 1.
  pose proof (entries_loop kvs (set_depth q 1)
                (colorizeType (writing "" q) (reflect.tString t) ++ "{" ++ Text.str Text.LF)
                ss q' eq_refl HF) as L.
  unfold bind in L. cbv beta zeta in L. rewrite L.
  assert (Hq' : q' = set_visited (set_depth q 1) (visited q')).
  { apply (formats_frame rec Hframe _ _ _ _ HF). }
  assert (Hd' : depth q' = 1) by (rewrite Hq'; reflexivity).
  match goal with
  | |- context [set_depth (writing ?s q') ?d] =>
      change (set_depth (writing s q') d)
        with (writing s (set_depth q' (wrap_int (depth q' - 1))))
  end.
  rewrite Hd'. change (wrap_int (1 - 1)) with 0.
  unfold IndentPrint, bind. rewrite Indent_writing by (simpl; lia).
  change (Text.Repeat (Text.str Text.TAB) (Z.to_nat (depth (set_depth q' 0))))
    with "".
  rewrite Print_writing, sapp_nil_l.
  unfold map_text.
  change (colorizeType (writing "" q) (reflect.tString t))
    with (colorizeType p (reflect.tString t)).
  rewrite !sapp_assoc. reflexivity.
Qed.
End Entries.

(** X13.  A map that has entries and was not visited is rendered, at depth zero,
    as its type, an opening brace, a line for each entry in the order of
    [sortMap] and a closing brace.  The line of an entry is a tab, the text
    of the key, a colon, a tab, the text of the value and a comma; the keys
    and values are rendered in turn, each on the printer that the one
    before leaves, with the map marked as visited. *)
Theorem map_entries_rendered env h n p t a es kvs ss q' :
  let v := reflect.ValueOf (reflect.VMap t a) in
  prettyPrinter env (reflect.VMap t a) = None ->
  reflect.entries h a = Ok es -> es <> [] ->
  seen (visited p) a = false -> depth p = 0 ->
  sortMap h v = Ok kvs ->
  formats (Format env h n) (in_turn kvs)
    (set_depth (set_visited (subPrinter p v) (<[a := true]> (visited p))) 1)
  = Ok (ss, q') ->
  Format env h (S n) v p
  = Ok (typeset (map_text p t ss), set_visited p (visited q')).
Proof.
  intros v Hpp He Hne Hseen Hd HS HF.
  simpl. rewrite Format_body_unfold.
  rewrite (dispatch_kind env h _ _ (reflect.VMap t a)); [|reflexivity|exact Hpp].
  change (reflect.Kind_ (value (subPrinter p v))) with reflect.Map. cbv iota.
  unfold v.
  rewrite (printMap_entries (Format env h n) (Format_writing env h n)
             (fun v q t q' H => proj1 (Format_frame env h n v q t q' H))
             h p t a es kvs ss q' He Hne Hseen Hd HS HF).
  rewrite String_writing. reflexivity.
Qed.

(** The map [{2: "b", 1: "a"}] comes out with the key 1 first. *)
Lemma map_entries_rendered_witness :
  Format plain_env (Ex.store_of Ex.counts_21) 2 (reflect.ValueOf Ex.counts)
    (Ex.printer false false false)
  = Ok ("map[int]string{" ++ Text.str Text.LF
        ++ "    1:  " ++ Text.str Text.QUOTE ++ "a" ++ Text.str Text.QUOTE ++ ","
        ++ Text.str Text.LF
        ++ "    2:  " ++ Text.str Text.QUOTE ++ "b" ++ Text.str Text.QUOTE ++ ","
        ++ Text.str Text.LF ++ "}",
        set_visited (Ex.printer false false false) (<[100 := true]> ∅)).
Proof.
  set (q := set_depth
              (set_visited (subPrinter (Ex.printer false false false)
                              (reflect.ValueOf Ex.counts))
                 (<[100 := true]> ∅)) 1).
  assert (H1 : reflect.entries (Ex.store_of Ex.counts_21) 100 = Ok Ex.counts_21)
    by reflexivity.
  assert (H2 : Ex.counts_21 <> []) by discriminate.
  assert (H3 : seen (visited (Ex.printer false false false)) 100 = false)
    by reflexivity.
  assert (H4 : sortMap (Ex.store_of Ex.counts_21) (reflect.ValueOf Ex.counts)
               = Ok [(reflect.ValueOf (Ex.int 1), reflect.ValueOf (Ex.str "a"));
                     (reflect.ValueOf (Ex.int 2), reflect.ValueOf (Ex.str "b"))])
    by (vm_compute; reflexivity).
  assert (H5 : formats (Format plain_env (Ex.store_of Ex.counts_21) 1)
                 (in_turn [(reflect.ValueOf (Ex.int 1), reflect.ValueOf (Ex.str "a"));
                           (reflect.ValueOf (Ex.int 2), reflect.ValueOf (Ex.str "b"))]) q
               = Ok (["1"; Text.str Text.QUOTE ++ "a" ++ Text.str Text.QUOTE;
                      "2"; Text.str Text.QUOTE ++ "b" ++ Text.str Text.QUOTE], q))
    by (vm_compute; reflexivity).
  pose proof (map_entries_rendered plain_env (Ex.store_of Ex.counts_21) 1
                (Ex.printer false false false) Ex.t_counts 100 Ex.counts_21
                _ _ _ eq_refl H1 H2 H3 eq_refl H4 H5) as W.
  etransitivity; [exact W|]. vm_compute. reflexivity.
Defined.

(* ===================================================================== *)
(** * What the command prints and returns *)
(* ===================================================================== *)

(** X14.  When the reads succeed, a next boot entry that is not found counting as
    a success, the command writes its report to the standard output in one
    piece, with the columns aligned: a line for the next boot entry if
    there is one, for the current one and for the boot order, and a line
    for each boot entry that can be read, in the order of the iterator,
    with its index in four capital hexadecimal digits, a star when it is
    active, and its description.  A boot entry that cannot be read gets no
    line, but a line on the standard error.  The command returns the
    errors of closing the iterator and the context, and no other. *)
Theorem mainE_reports {error : Type} (isNotFound : error -> bool)
        (Error : error -> string) (ActiveAttribute : Z) env n
        (fw : @cli.Firmware error) :
  PrettyPrint env = PrettyPrint efibootctl_env ->
  failure isNotFound fw = None ->
  cli.mainE isNotFound Error ActiveAttribute env (S (S n)) fw
  = Ok (cli.MkOutcome (typeset (report ActiveAttribute env fw))
          (complaints Error fw)
          (option_list (cli.Close_iterator fw) ++ option_list (cli.Close_context fw))).
Proof.
  intros Henv H. unfold failure, later_failure in H.
  destruct (cli.BootCurrent_Get fw) as [e1|cur] eqn:Hc;
    [destruct (cli.BootNext_Get fw) as [e|]; [destruct (isNotFound e)|];
     discriminate H|].
  destruct (cli.BootOrder_Get fw) as [e2|order] eqn:Ho;
    [destruct (cli.BootNext_Get fw) as [e|]; [destruct (isNotFound e)|];
     discriminate H|].
  destruct (cli.BootIterator fw) as [e3|it] eqn:Hi;
    [destruct (cli.BootNext_Get fw) as [e|]; [destruct (isNotFound e)|];
     discriminate H|].
  assert (Fin : forall s p',
            cli.after_BootNext Error ActiveAttribute env (S (S n)) fw
              (writing s command_printer)
            = Ok (cli.AppendInvoke (cli.Close_iterator fw)
                    (cli.MkOutcome
                       (typeset (s ++ field_text command_printer "BootCurrent"
                                        (index_text command_printer cur)
                                 ++ field_text command_printer "BootOrder"
                                      (order_text command_printer (cli.To_address fw) order)
                                 ++ Text.concat
                                      (List.map (entry_line ActiveAttribute env) it)))
                       (Text.concat (List.map (entry_complaint Error) it)) []), p') ->
            res_bind
              (cli.after_BootNext Error ActiveAttribute env (S (S n)) fw
                 (writing s command_printer))
              (fun r => Ok (cli.AppendInvoke (cli.Close_context fw) (fst r)))
            = Ok (cli.MkOutcome
                    (typeset (s ++ field_text command_printer "BootCurrent"
                                     (index_text command_printer cur)
                              ++ field_text command_printer "BootOrder"
                                   (order_text command_printer (cli.To_address fw) order)
                              ++ Text.concat
                                   (List.map (entry_line ActiveAttribute env) it)))
                    (Text.concat (List.map (entry_complaint Error) it))
                    (option_list (cli.Close_iterator fw)
                     ++ option_list (cli.Close_context fw)))).
  { intros s p' E. rewrite E. simpl.
    destruct (cli.Close_iterator fw), (cli.Close_context fw); reflexivity. }
  unfold cli.mainE, report, complaints. rewrite Hc, Ho, Hi.
  destruct (cli.BootNext_Get fw) as [e|i] eqn:Hn.
  - destruct (isNotFound e) eqn:He; [|discriminate H]. cbn [negb].
    destruct (after_BootNext_writing Error ActiveAttribute env Henv n fw
                "" cur order it Hc Ho Hi) as (p' & E).
    change (NewPrinter (reflect.ValueOf (reflect.VString cli.string_type ""))
              (Some DefaultScheme) true true true)
      with (writing "" command_printer).
    rewrite (Fin "" p' E). rewrite !sapp_nil_l. reflexivity.
  - unfold bind.
    change (NewPrinter (reflect.ValueOf (reflect.VString cli.string_type ""))
              (Some DefaultScheme) true true true)
      with (writing "" (set_visited command_printer ∅)).
    rewrite (field_index env Henv n fw).
    change (set_visited command_printer ∅) with command_printer.
    destruct (after_BootNext_writing Error ActiveAttribute env Henv n fw
                ("" ++ field_text command_printer "BootNext"
                         (index_text command_printer i)) cur order it Hc Ho Hi)
      as (p' & E).
    rewrite (Fin _ p' E). rewrite !sapp_nil_l, ?sapp_assoc. reflexivity.
Qed.

Lemma mainE_reports_witness :
  cli.mainE Machine.isNotFound Machine.Error 1 efibootctl_env 2 Machine.firmware
  = Ok (cli.MkOutcome
          (typeset
             (field_text command_printer "BootCurrent" (index_text command_printer 1)
              ++ field_text command_printer "BootOrder"
                   ("{" ++ index_text command_printer 1 ++ ", "
                    ++ index_text command_printer 0 ++ "}")
              ++ field_text command_printer "Boot0001*"
                   (string_text efibootctl_env command_printer "ArchLinux")
              ++ field_text command_printer "Boot0000*"
                   (string_text efibootctl_env command_printer "Windows Boot Manager")
              ++ field_text command_printer "Boot0003"
                   (string_text efibootctl_env command_printer "Setup")))
          ("error: input/output error" ++ Text.str Text.LF) []).
Proof.
  pose proof (mainE_reports Machine.isNotFound Machine.Error 1 efibootctl_env 0
                Machine.firmware eq_refl eq_refl) as W.
  etransitivity; [exact W|]. vm_compute. reflexivity.
Defined.

(** X15.  When a read fails, the command writes nothing, neither to the standard
    output nor to the standard error, whatever it has rendered before: it
    returns the error of the first read that fails, and with it the error
    of closing the context if there is one.  A next boot entry that is not
    found is no failure. *)
Theorem mainE_fails_silently {error : Type} (isNotFound : error -> bool)
        (Error : error -> string) (ActiveAttribute : Z) env n
        (fw : @cli.Firmware error) e :
  PrettyPrint env = PrettyPrint efibootctl_env ->
  failure isNotFound fw = Some e ->
  cli.mainE isNotFound Error ActiveAttribute env (S (S n)) fw
  = Ok (cli.MkOutcome "" "" (e :: option_list (cli.Close_context fw))).
Proof.
  intros Henv H. unfold failure in H. unfold cli.mainE.
  assert (Fin : forall p' : Printer,
            Ok (cli.AppendInvoke (cli.Close_context fw)
                  (fst (cli.MkOutcome "" "" [e], p')))
            = @Ok (@cli.Outcome error)
                (cli.MkOutcome "" "" (e :: option_list (cli.Close_context fw)))).
  { intros p'. simpl. destruct (cli.Close_context fw); reflexivity. }
  destruct (cli.BootNext_Get fw) as [e0|i] eqn:Hn.
  - destruct (isNotFound e0) eqn:He; cbn [negb].
    + destruct (after_BootNext_failed Error ActiveAttribute env Henv n fw "" e H) as (p' & E).
      change (NewPrinter (reflect.ValueOf (reflect.VString cli.string_type ""))
                (Some DefaultScheme) true true true)
        with (writing "" command_printer).
      rewrite E. apply Fin.
    + injection H as ->. apply Fin.
  - unfold bind.
    change (NewPrinter (reflect.ValueOf (reflect.VString cli.string_type ""))
              (Some DefaultScheme) true true true)
      with (writing "" (set_visited command_printer ∅)).
    rewrite (field_index env Henv n fw).
    change (set_visited command_printer ∅) with command_printer.
    destruct (after_BootNext_failed Error ActiveAttribute env Henv n fw
                ("" ++ field_text command_printer "BootNext"
                         (index_text command_printer i)) e H) as (p' & E).
    rewrite E. apply Fin.
Qed.

Lemma mainE_fails_silently_witness :
  cli.mainE Machine.isNotFound Machine.Error 1 efibootctl_env 2 Machine.locked
  = Ok (cli.MkOutcome "" "" ["permission denied"; "busy"]).
Proof.
  exact (mainE_fails_silently Machine.isNotFound Machine.Error 1 efibootctl_env 0
           Machine.locked "permission denied" eq_refl eq_refl).
Defined.

(* ===================================================================== *)
(** * The text of a printer *)
(* ===================================================================== *)

(** X16.  [String] flushes the column aligner: a second call returns the same
    text and leaves the printer as it is, and what is printed after a call
    of [String] is aligned on its own and comes behind the text. *)
Theorem String_flushes p :
  let s := fst (Printer_String p) in
  let p' := snd (Printer_String p) in
  Printer_String p' = (s, p')
  /\ (forall t, text_of ((Print t ;; cli.String_) p') = Ok (s ++ typeset t)).
Proof.
  intros s p'. subst s p'. unfold Printer_String.
  destruct (tabwriter.flush (tw p)) as [o w] eqn:E.
  assert (Hw : w = tabwriter.reset).
  { unfold tabwriter.flush in E. injection E as _ <-. reflexivity. }
  subst w. cbn [fst snd tw Buffer set_out]. split.
  - change (tabwriter.flush tabwriter.reset) with ("", tabwriter.reset).
    cbn [fst snd tw Buffer set_out]. rewrite sapp_nil_r. reflexivity.
  - intros t. unfold bind, Print, cli.String_, text_of, Printer_String, typeset.
    cbn [tw Buffer set_out].
    destruct (tabwriter.Write t tabwriter.reset) as [o1 w1].
    cbn [tw Buffer set_out fst snd].
    destruct (tabwriter.flush w1) as [o2 w2]. cbn [fst].
    rewrite !sapp_assoc. reflexivity.
Qed.

(* ===================================================================== *)
(** * Values with a method, and values that are not traversed *)
(* ===================================================================== *)

Lemma ops_writing q ops : 0 <= depth q -> forall s,
  forM_ ops runOp (writing s q)
  = Ok (tt, writing (s ++ Text.concat (List.map (op_text q) ops)) q).
Proof.
  intros Hd. induction ops as [|op ops IH]; intros s.
  - simpl. unfold ret. now rewrite sapp_nil_r.
  - simpl forM_. unfold bind.
    assert (E : runOp op (writing s q) = Ok (tt, writing (s ++ op_text q op) q)).
    { destruct op; simpl.
      - apply Print_writing.
      - apply ColorPrint_writing.
      - unfold IndentPrint, bind. rewrite Indent_writing by exact Hd.
        apply Print_writing. }
    rewrite E, IH. simpl. rewrite sapp_assoc. reflexivity.
Qed.

(** X17.  A value whose type has a method [PrettyPrint] is rendered by the
    method and by nothing else: the text is what the method prints, and the
    value does not enter the visited set, whatever its kind is. *)
Theorem pretty_printed env h n v p x ops :
  reflect.Interface_ v = Ok x ->
  prettyPrinter env x = Some ops ->
  0 <= depth p ->
  Format env h (S n) v p
  = Ok (typeset (Text.concat (List.map (op_text p) ops)), p).
Proof.
  intros Hx Hpp Hd. simpl. rewrite Format_body_unfold.
  unfold dispatch. munfold.
  change (reflect.Interface_ (value (subPrinter p v))) with (reflect.Interface_ v).
  rewrite Hx. cbv iota beta. rewrite Hpp.
  change (subPrinter p v) with (writing "" (subPrinter p v)).
  rewrite ops_writing by exact Hd.
  rewrite String_writing, sapp_nil_l. simpl visited.
  rewrite set_visited_same.
  rewrite (map_ext (op_text (subPrinter p v)) (op_text p)); [reflexivity|].
  intros op. destruct op; reflexivity.
Qed.

Lemma pretty_printed_witness :
  Format efibootctl_env Ex.empty 1
    (reflect.ValueOf (reflect.VInterface Ex.t_any (BootIndex 10)))
    (Ex.printer false false false)
  = Ok ("000A", Ex.printer false false false).
Proof.
  assert (H0 : 0 <= depth (Ex.printer false false false)) by (simpl; lia).
  pose proof (pretty_printed efibootctl_env Ex.empty 0
                (reflect.ValueOf (reflect.VInterface Ex.t_any (BootIndex 10)))
                (Ex.printer false false false) (BootIndex 10)
                (BootIndex_PrettyPrint 10) eq_refl eq_refl H0) as W.
  etransitivity; [exact W|]. vm_compute. reflexivity.
Defined.

(** X18.  A channel is rendered as its type and its address, both in
    parentheses, an unsafe pointer as its type and its address in
    parentheses, a function as its type and [{...}]; the address is in
    hexadecimal.  None of them enters the visited set. *)
Theorem opaque_values env h n p t a :
  (prettyPrinter env (reflect.VChan t a) = None ->
   Format env h (S n) (reflect.ValueOf (reflect.VChan t a)) p
   = Ok (typeset ("(" ++ colorizeType p (reflect.tString t) ++ ")("
                  ++ Colorize p ("0x" ++ Text.fmt_x a) PointerAdressColor ++ ")"), p))
  /\ (prettyPrinter env (reflect.VUnsafePointer t a) = None ->
      Format env h (S n) (reflect.ValueOf (reflect.VUnsafePointer t a)) p
      = Ok (typeset (colorizeType p (reflect.tString t) ++ "("
                     ++ Colorize p ("0x" ++ Text.fmt_x a) PointerAdressColor ++ ")"), p))
  /\ (prettyPrinter env (reflect.VFunc t a) = None ->
      Format env h (S n) (reflect.ValueOf (reflect.VFunc t a)) p
      = Ok (typeset (colorizeType p (reflect.tString t) ++ " {...}"), p)).
Proof.
  repeat split; intros Hpp; apply Format_prints.
  - rewrite (dispatch_kind env h _ _ (reflect.VChan t a)); [|reflexivity|exact Hpp].
    reflexivity.
  - rewrite (dispatch_kind env h _ _ (reflect.VUnsafePointer t a));
      [|reflexivity|exact Hpp].
    reflexivity.
  - rewrite (dispatch_kind env h _ _ (reflect.VFunc t a)); [|reflexivity|exact Hpp].
    reflexivity.
Qed.

(** X19.  [Format] turns the value into an interface before anything else, and
    panics when that is not allowed: for a value that was read from an
    unexported field, and for the zero Value, which [Format(nil)] makes. *)
Theorem Format_no_interface env h n p :
  (forall v,
     reflect.flagRO v = true -> reflect.it v <> reflect.VInvalid ->
     Format env h (S n) v p
     = Panic "reflect.Value.Interface: cannot return value obtained from unexported field or method")
  /\ (forall ro1 ro2,
        Format env h (S n) (reflect.MkValue ro1 ro2 reflect.VInvalid) p
        = Panic "reflect: call of reflect.Value.Interface on zero Value").
Proof.
  split.
  - intros v Hro Hv. simpl. rewrite Format_body_unfold.
    unfold dispatch. munfold.
    change (reflect.Interface_ (value (subPrinter p v))) with (reflect.Interface_ v).
    unfold reflect.Interface_. rewrite Hro.
    destruct (reflect.it v); try reflexivity. congruence.
  - intros ro1 ro2. simpl. rewrite Format_body_unfold. reflexivity.
Qed.

(* ===================================================================== *)
(** * Colors *)
(* ===================================================================== *)

Lemma land_bit a n :
  0 <= n -> Z.land a (Z.shiftl 1 n) = if Z.testbit a n then 2 ^ n else 0.
Proof.
  intros Hn. rewrite Z.shiftl_1_l. apply Z.bits_inj'. intros i Hi.
  rewrite Z.land_spec, Z.pow2_bits_eqb by exact Hn.
  destruct (Z.eqb_spec n i) as [->|Hne].
  - rewrite andb_true_r. destruct (Z.testbit a i) eqn:E.
    + now rewrite Z.pow2_bits_true.
    + now rewrite Z.bits_0.
  - rewrite andb_false_r. destruct (Z.testbit a n).
    + rewrite Z.pow2_bits_false; [reflexivity|congruence].
    + now rewrite Z.bits_0.
Qed.

Lemma foreground_mod color :
  Z.shiftr (Z.land color maskForeground) bitsForeground = color mod 16.
Proof.
  unfold maskForeground, bitsForeground. rewrite Z.shiftr_0_r.
  change 15 with (Z.ones 4). rewrite Z.land_ones by lia. reflexivity.
Qed.

Lemma background_mod color :
  Z.shiftr (Z.land color maskBackground) bitsBackground = (color / 16) mod 16.
Proof.
  unfold maskBackground, bitsBackground. rewrite Z.shiftr_land.
  change (Z.shiftr (Z.shiftl 15 4) 4) with (Z.ones 4).
  rewrite Z.land_ones, Z.shiftr_div_pow2 by lia. reflexivity.
Qed.

Lemma bold_bit color :
  Z.land color maskBold = if Z.testbit color 8 then 256 else 0.
Proof. unfold maskBold, bitsBold. rewrite land_bit by lia. reflexivity. Qed.

(** X20.  [ColorizeText] reads a color as three fields: the foreground in the
    four lowest bits, the background in the next four, and bold in the bit
    after them.  When all are zero, as in [NoColor], the text is returned
    as it is.  Otherwise it is returned between the escape sequences of
    the fields that are set, the foreground [n] as [30 + n - 1], the
    background [n] as [40 + n - 1] and bold as [1], and the sequence [0]
    that resets them. *)
Theorem ColorizeText_codes text color :
  let fg := color mod 16 in
  let bg := (color / 16) mod 16 in
  let bold := Z.testbit color 8 in
  ColorizeText text color
  = (if (fg =? 0) && (bg =? 0) && negb bold then text
     else (if 0 <? fg then ansi (30 + fg - 1) else "")
          ++ (if 0 <? bg then ansi (40 + bg - 1) else "")
          ++ (if bold then ansi 1 else "")
          ++ text ++ ansi 0)
  /\ ColorizeText text NoColor = text
  /\ ColorizeText text Red = ansi 31 ++ text ++ ansi 0
  /\ ColorizeText text (Z.lor Blue Bold) = ansi 34 ++ ansi 1 ++ text ++ ansi 0.
Proof.
  intros fg bg bold. split; [|repeat split].
  unfold ColorizeText. cbv zeta.
  rewrite foreground_mod, background_mod, bold_bit. fold fg bg bold.
  unfold ansiForegroundOffset, ansiBackgroundOffset.
  replace (fg + (30 - 1)) with (30 + fg - 1) by lia.
  replace (bg + (40 - 1)) with (40 + bg - 1) by lia.
  destruct bold; reflexivity.
Qed.
